(** * Changelog tracker server: monitoring and notification pipeline

    A shallow embedding of the server module of the changelog tracker (the
    Express/SQLite/node-cron program) and the proofs of its specification.

    Conventions of the embedding:
    - a JavaScript string is the list of its UTF-16 code units ([list N]);
      [js "..."] writes an ASCII literal;
    - a JavaScript number that is only ever an integer in the program (an
      interval read by [parseInt], a buffer length) is a [Z]; the quotient
      [intervalMs / 60000] is an exact rational ([Q]), with which the double
      of the program agrees on the integers it can represent;
    - a [Buffer] is the list of its bytes, each a [Z] in [0, 256);
    - a SQLite table is the list of its rows in rowid order, except
      [settings], whose only access path is its primary key: a [gmap];
    - [async] functions are run to completion one after the other: a
      computation threads the database, the record of the calls made to
      the outside world and the console, and either returns or throws.

    What lies outside the sources is taken as follows: a SQLite statement
    always completes; every outbound HTTP call may answer anything or throw;
    [cron.schedule] accepts every expression it is given; the objects the
    Analyzer returns have the TypeScript type the code declares for them;
    the body of a request is an object whose fields, where present, have the
    types the handler expects (a missing field is [None]); [new URL] and the
    JSON functions are parameters of the sections that use them. *)

From Stdlib Require Import ZArith QArith Qround List String Ascii Lia Bool DecimalString
  DecimalPos.
From stdpp Require Import base option list gmap.

Local Open Scope Z_scope.

(** ** JavaScript strings *)

(** The code units of an ASCII literal. *)
Definition js (s : string) : list N :=
  map N_of_ascii (list_ascii_of_string s).

(** [!s] for a string: only the empty string is falsy. *)
Definition truthy (s : list N) : bool :=
  match s with [] => false | _ :: _ => true end.

(** [a === b] on strings. *)
Definition str_eqb (a b : list N) : bool := bool_decide (a = b).

(** [s.split(sep)] for a one-unit separator: never an empty array. *)
Fixpoint split (sep : N) (s : list N) : list (list N) :=
  match s with
  | [] => [[]]
  | c :: rest =>
      if N.eqb c sep then [] :: split sep rest
      else match split sep rest with
           | [] => [[c]]
           | line :: lines => (c :: line) :: lines
           end
  end.

(** [parts.join(sep)]. *)
Fixpoint join (sep : list N) (parts : list (list N)) : list N :=
  match parts with
  | [] => []
  | [p] => p
  | p :: rest => p ++ sep ++ join sep rest
  end.

(** [`${n}`] for an integer-valued number (below 1e21, where JavaScript
    still prints plain decimal digits). *)
Definition number_to_string (n : Z) : list N :=
  js (NilZero.string_of_int (Z.to_int n)).

(** The line feed, U+000A. *)
Definition LF : N := 10%N.

(** ** Character classes of the regular expressions *)

(** [\d]: without the [u]/[v] flags only the ASCII digits. *)
Definition is_digit (c : N) : bool := (48 <=? c)%N && (c <=? 57)%N.

(** [\s], which is also what [parseInt] skips: WhiteSpace and
    LineTerminator of ECMAScript. *)
Definition is_space (c : N) : bool :=
  ((9 <=? c)%N && (c <=? 13)%N)            (* TAB LF VT FF CR *)
  || N.eqb c 32 || N.eqb c 160             (* SP, NBSP *)
  || N.eqb c 5760                          (* U+1680 *)
  || ((8192 <=? c)%N && (c <=? 8202)%N)    (* U+2000 .. U+200A *)
  || N.eqb c 8232 || N.eqb c 8233          (* U+2028, U+2029 *)
  || N.eqb c 8239 || N.eqb c 8287          (* U+202F, U+205F *)
  || N.eqb c 12288 || N.eqb c 65279.       (* U+3000, U+FEFF *)

(** [[a-zA-Z0-9.]]. *)
Definition is_prerelease_char (c : N) : bool :=
  ((97 <=? c)%N && (c <=? 122)%N) || ((65 <=? c)%N && (c <=? 90)%N)
  || is_digit c || N.eqb c 46.

(** ** Scheduler: interval to cron expression *)

(** [Math.round]: the nearest integer, a tie going up. *)
Definition Math_round (x : Q) : Z := Qfloor (x + (1 # 2)).

(** [intervalToCron(intervalMs)] on an integer number of milliseconds (what
    [parseInt] hands to [startMonitoring]); [None] is [null]. *)
Definition intervalToCron (intervalMs : Z) : option (list N) :=
  let minutes : Q := (inject_Z intervalMs / inject_Z 60000)%Q in
  if Qle_bool minutes (inject_Z 0) then None
  else if Qeq_bool minutes (inject_Z 1) then Some (js "* * * * *")
  else if Qeq_bool minutes (inject_Z 5) then Some (js "*/5 * * * *")
  else if Qeq_bool minutes (inject_Z 15) then Some (js "*/15 * * * *")
  else if Qeq_bool minutes (inject_Z 30) then Some (js "*/30 * * * *")
  else if Qeq_bool minutes (inject_Z 60) then Some (js "0 * * * *")
  else if Qeq_bool minutes (inject_Z 360) then Some (js "0 */6 * * *")
  else if Qeq_bool minutes (inject_Z 720) then Some (js "0 */12 * * *")
  else if Qeq_bool minutes (inject_Z 1440) then Some (js "0 0 * * *")
  else if Qeq_bool minutes (inject_Z 10080) then Some (js "0 0 * * 0")
  else if Qeq_bool minutes (inject_Z 20160) then Some (js "0 0 1,15 * *")
  else Some (js "*/" ++ number_to_string (Z.max 1 (Math_round minutes))
               ++ js " * * * *").

(** ** VersionParser *)

(** The longest prefix of [s] whose units satisfy [p], and the rest: what a
    greedy [p*] consumes. *)
Fixpoint span (p : N -> bool) (s : list N) : list N * list N :=
  match s with
  | [] => ([], [])
  | c :: rest =>
      if p c then let '(run, tl) := span p rest in (c :: run, tl)
      else ([], s)
  end.

(** A greedy [p+]: the run must not be empty. *)
Definition many1 (p : N -> bool) (s : list N) : option (list N * list N) :=
  let '(run, tl) := span p s in
  if truthy run then Some (run, tl) else None.

(** A literal at the head of [s]. *)
Fixpoint strip_prefix (lit s : list N) : option (list N) :=
  match lit, s with
  | [], _ => Some s
  | a :: lit', c :: s' => if N.eqb a c then strip_prefix lit' s' else None
  | _ :: _, [] => None
  end.

(** A greedy optional literal [lit?]. *)
Definition optional (lit s : list N) : list N :=
  match strip_prefix lit s with Some tl => tl | None => s end.

(** *** Regular expressions *)

(** The regular expressions the program uses: a literal unit, a greedy
    [class+], a greedy [r?], a sequence, and the capture group 1. *)
Inductive regex :=
| Chr (c : N)
| Plus (class : N -> bool)
| Opt (r : regex)
| Seq (r1 r2 : regex)
| Group (r : regex).

(** A greedy [class*] followed by the continuation [k]: the longest run is
    tried first, and units are given back one at a time while [k] fails. *)
Fixpoint greedy_star {R} (class : N -> bool) (s : list N) (k : list N -> option R)
    : option R :=
  match s with
  | c :: rest =>
      if class c
      then match greedy_star class rest k with
           | Some m => Some m
           | None => k s
           end
      else k s
  | [] => k []
  end.

(** The backtracking matcher of ECMAScript, anchored at the start of [s]:
    [k] is what remains to be matched, [cap] the text of group 1 so far. *)
Fixpoint exec {R} (r : regex) (s : list N) (cap : option (list N))
    (k : list N -> option (list N) -> option R) : option R :=
  match r with
  | Chr c =>
      match s with
      | c' :: rest => if N.eqb c c' then k rest cap else None
      | [] => None
      end
  | Plus class =>
      match s with
      | c :: rest => if class c then greedy_star class rest (fun s' => k s' cap) else None
      | [] => None
      end
  | Opt r =>
      match exec r s cap k with
      | Some m => Some m
      | None => k s cap
      end
  | Seq r1 r2 => exec r1 s cap (fun s' cap' => exec r2 s' cap' k)
  | Group r => exec r s cap (fun s' _ => k s' (Some (take (length s - length s') s)))
  end.

Declare Scope regex_scope.
Delimit Scope regex_scope with regex.
Infix "·" := Seq (at level 60, right associativity) : regex_scope.

(** [/^##\s+\[?(\d+\.\d+\.\d+(?:-[a-zA-Z0-9.]+)?)\]?/], with the literals
    by their code: [#] 35, [\[] 91, [.] 46, [-] 45, [\]] 93. The anchor [^]
    is the matcher itself, which only tries the start of the line. *)
Definition VERSION_HEADER : regex :=
  (Chr 35 · Chr 35 · Plus is_space · Opt (Chr 91)
   · Group (Plus is_digit · Chr 46 · Plus is_digit · Chr 46 · Plus is_digit
            · Opt (Chr 45 · Plus is_prerelease_char))
   · Opt (Chr 93))%regex.

(** [line.match(re)], reduced to its capture group 1: [None] for [null]. *)
Definition versionMatch (line : list N) : option (list N) :=
  exec VERSION_HEADER line None (fun _ cap => Some (default [] cap)).

(** The result object [{ version, content }]. *)
Record ParsedChangelogEntry := {
  entry_version : list N;
  entry_content : list N;
}.

(** The three variables of the loop of [parseLatestVersion]. *)
Record ParseState := {
  ps_version : list N;
  ps_content : list (list N);
  ps_capturing : bool;
}.

(** The [for (const line of lines)] loop; leaving the recursion is the
    [break]. *)
Fixpoint parse_loop (lines : list (list N)) (st : ParseState) : ParseState :=
  match lines with
  | [] => st
  | line :: rest =>
      match versionMatch line with
      | Some v =>
          if ps_capturing st then st
          else parse_loop rest
                 {| ps_version := v;
                    ps_content := ps_content st ++ [line];
                    ps_capturing := true |}
      | None =>
          if ps_capturing st
          then parse_loop rest
                 {| ps_version := ps_version st;
                    ps_content := ps_content st ++ [line];
                    ps_capturing := true |}
          else parse_loop rest st
      end
  end.

(** [parseLatestVersion(markdown)]; [None] is [null]. *)
Definition parseLatestVersion (markdown : list N) : option ParsedChangelogEntry :=
  let lines := split LF markdown in
  let st := parse_loop lines
              {| ps_version := []; ps_content := []; ps_capturing := false |} in
  if truthy (ps_version st)
  then Some {| entry_version := ps_version st;
               entry_content := join [LF] (ps_content st) |}
  else None.

(** ** AudioCodec: Node's Buffer and the WAV container *)

(** [Buffer.alloc(size)]: zero-filled. *)
Definition Buffer_alloc (size : Z) : list Z := replicate (Z.to_nat size) 0.

(** The bytes of [buf] from [off] on replaced by [bytes], as many as fit;
    the length of [buf] is kept. *)
Definition overwrite (off : nat) (bytes buf : list Z) : list Z :=
  take off buf ++ take (length buf - off) bytes
    ++ drop (off + length bytes) buf.

(** The UTF-8 bytes of an ASCII string: one byte per unit. *)
Definition ascii_bytes (s : list N) : list Z := map Z.of_N s.

(** [buf.write(string, offset)] for an ASCII string; a [RangeError]
    ([None]) when [offset] lies beyond the buffer. *)
Definition Buffer_write (s : list N) (offset : nat) (buf : list Z) : option (list Z) :=
  if (offset <=? length buf)%nat then Some (overwrite offset (ascii_bytes s) buf)
  else None.

(** The [n] low bytes of [v], least significant first. *)
Fixpoint le_bytes (n : nat) (v : Z) : list Z :=
  match n with
  | O => []
  | S n' => Z.land v 255 :: le_bytes n' (Z.shiftr v 8)
  end.

(** [buf.writeUInt32LE(value, offset)]: a [RangeError] ([None]) when [value]
    is not an unsigned 32-bit integer or the four bytes do not fit. *)
Definition writeUInt32LE (value : Z) (offset : nat) (buf : list Z) : option (list Z) :=
  if (0 <=? value) && (value <=? 4294967295) && (offset + 4 <=? length buf)%nat
  then Some (overwrite offset (le_bytes 4 value) buf)
  else None.

(** [buf.writeUInt16LE(value, offset)]. *)
Definition writeUInt16LE (value : Z) (offset : nat) (buf : list Z) : option (list Z) :=
  if (0 <=? value) && (value <=? 65535) && (offset + 2 <=? length buf)%nat
  then Some (overwrite offset (le_bytes 2 value) buf)
  else None.

(** [source.copy(target, targetStart)]: copies what fits, never throws for a
    start inside or at the end of the target. *)
Definition Buffer_copy (source target : list Z) (targetStart : nat) : list Z :=
  overwrite targetStart source target.

(** [pcmToWav(pcmData)]; [None] is a thrown [RangeError]. *)
Definition pcmToWav (pcmData : list Z) : option (list Z) :=
  let sampleRate := 24000 in
  let numChannels := 1 in
  let bitsPerSample := 16 in
  let byteRate := sampleRate * numChannels * (bitsPerSample / 8) in
  let blockAlign := numChannels * (bitsPerSample / 8) in
  let dataSize := Z.of_nat (length pcmData) in
  let headerSize := 44 in
  let buffer := Buffer_alloc (headerSize + dataSize) in
  buffer ← Buffer_write (js "RIFF") 0 buffer;
  buffer ← writeUInt32LE (36 + dataSize) 4 buffer;
  buffer ← Buffer_write (js "WAVE") 8 buffer;
  buffer ← Buffer_write (js "fmt ") 12 buffer;
  buffer ← writeUInt32LE 16 16 buffer;
  buffer ← writeUInt16LE 1 20 buffer;
  buffer ← writeUInt16LE numChannels 22 buffer;
  buffer ← writeUInt32LE sampleRate 24 buffer;
  buffer ← writeUInt32LE byteRate 28 buffer;
  buffer ← writeUInt16LE blockAlign 32 buffer;
  buffer ← writeUInt16LE bitsPerSample 34 buffer;
  buffer ← Buffer_write (js "data") 36 buffer;
  buffer ← writeUInt32LE dataSize 40 buffer;
  Some (Buffer_copy pcmData buffer (Z.to_nat headerSize)).

(** [buf.subarray(a, b)], the bytes [[a:b]]. *)
Definition slice (a b : nat) (buf : list Z) : list Z := take (b - a) (drop a buf).

(** The unsigned integer a little-endian byte sequence encodes. *)
Fixpoint uint_le (bytes : list Z) : Z :=
  match bytes with
  | [] => 0
  | b :: rest => b + 256 * uint_le rest
  end.

(** ** The SQLite database *)

(** A row of [changelog_history]. [version] is the PRIMARY KEY of the table;
    [source_id] is the column the migration adds, [None] is NULL. *)
Record HistoryRow := {
  hist_version : list N;
  hist_detected_at : N;
  hist_notified : bool;
  hist_source_id : option (list N);
}.

(** A row of [changelog_sources] ([interface ChangelogSource]). *)
Record ChangelogSource := {
  src_id : list N;
  src_name : list N;
  src_url : list N;
  src_is_active : bool;
  src_last_version : option (list N);
  src_last_checked_at : option N;
}.

(** A row of [audio_cache]; [id] is the PRIMARY KEY. *)
Record AudioRow := {
  audio_id : list N;
  audio_text_hash : list N;
  audio_voice : list N;
  audio_data : list Z;
  audio_created_at : N;
}.

(** The tables the monitoring code and the caches use. *)
Record Db := {
  audio_cache : list AudioRow;
  settings : gmap (list N) (list N);
  changelog_history : list HistoryRow;
  changelog_sources : list ChangelogSource;
}.

Definition set_history (h : list HistoryRow) (d : Db) : Db :=
  {| audio_cache := audio_cache d; settings := settings d;
     changelog_history := h; changelog_sources := changelog_sources d |}.

Definition set_sources (s : list ChangelogSource) (d : Db) : Db :=
  {| audio_cache := audio_cache d; settings := settings d;
     changelog_history := changelog_history d; changelog_sources := s |}.

Definition set_settings (s : gmap (list N) (list N)) (d : Db) : Db :=
  {| audio_cache := audio_cache d; settings := s;
     changelog_history := changelog_history d;
     changelog_sources := changelog_sources d |}.

Definition set_audio_cache (a : list AudioRow) (d : Db) : Db :=
  {| audio_cache := a; settings := settings d;
     changelog_history := changelog_history d;
     changelog_sources := changelog_sources d |}.

(** [SELECT * FROM changelog_sources WHERE is_active = 1]. *)
Definition getActiveSources (d : Db) : list ChangelogSource :=
  List.filter src_is_active (changelog_sources d).

(** [ORDER BY detected_at DESC LIMIT 1]: a row of greatest [detected_at].
    SQL leaves the choice among equal timestamps open; the row of lowest
    rowid is kept here. *)
Definition latest_row (rows : list HistoryRow) : option HistoryRow :=
  fold_left
    (fun best r =>
       match best with
       | None => Some r
       | Some b =>
           if (hist_detected_at b <? hist_detected_at r)%N then Some r else Some b
       end)
    rows None.

(** [WHERE source_id = ?]: NULL matches nothing. *)
Definition of_source (sourceId : list N) (r : HistoryRow) : bool :=
  bool_decide (hist_source_id r = Some sourceId).

(** [getLastKnownVersion(sourceId?)]; [None] is [null]. *)
Definition getLastKnownVersion (sourceId : option (list N)) (d : Db) : option (list N) :=
  let rows :=
    match sourceId with
    | Some sid =>
        if truthy sid then List.filter (of_source sid) (changelog_history d)
        else changelog_history d
    | None => changelog_history d
    end in
  hist_version <$> latest_row rows.

(** [INSERT OR IGNORE INTO changelog_history (version, source_id)]: the
    statement is skipped when a row with the same PRIMARY KEY, [version],
    is there; the other columns take their defaults. *)
Definition insert_or_ignore_history (version sourceId : list N) (now : N)
    (h : list HistoryRow) : list HistoryRow :=
  if existsb (fun r => str_eqb (hist_version r) version) h then h
  else h ++ [{| hist_version := version; hist_detected_at := now;
                hist_notified := false; hist_source_id := Some sourceId |}].

(** [UPDATE changelog_sources SET last_version = ?, last_checked_at =
    CURRENT_TIMESTAMP WHERE id = ?]. *)
Definition update_last_version (version sourceId : list N) (now : N)
    (s : ChangelogSource) : ChangelogSource :=
  if str_eqb (src_id s) sourceId
  then {| src_id := src_id s; src_name := src_name s; src_url := src_url s;
          src_is_active := src_is_active s;
          src_last_version := Some version;
          src_last_checked_at := Some now |}
  else s.

(** [saveVersion(version, sourceId)], with [now] the value of
    CURRENT_TIMESTAMP. *)
Definition saveVersion (version sourceId : list N) (now : N) (d : Db) : Db :=
  let d := set_history
             (insert_or_ignore_history version sourceId now (changelog_history d)) d in
  set_sources (map (update_last_version version sourceId now) (changelog_sources d)) d.

(** [UPDATE changelog_history SET notified = 1 WHERE version = ? AND
    source_id = ?], on one row. *)
Definition mark_row (version sourceId : list N) (r : HistoryRow) : HistoryRow :=
  if str_eqb (hist_version r) version && of_source sourceId r
  then {| hist_version := hist_version r; hist_detected_at := hist_detected_at r;
          hist_notified := true; hist_source_id := hist_source_id r |}
  else r.

(** [markVersionNotified(version, sourceId)]. *)
Definition markVersionNotified (version sourceId : list N) (d : Db) : Db :=
  set_history (map (mark_row version sourceId) (changelog_history d)) d.

(** [SELECT value FROM settings WHERE key = ?]; [None] is [undefined]. *)
Definition get_setting (key : list N) (d : Db) : option (list N) :=
  settings d !! key.

(** The history has a row for the pair [(version, sourceId)]. *)
Definition has_row (version sourceId : list N) (h : list HistoryRow) : bool :=
  existsb (fun r => str_eqb (hist_version r) version && of_source sourceId r) h.

(** The pair [(version, sourceId)] has a row whose [notified] is 1. *)
Definition is_notified (version sourceId : list N) (h : list HistoryRow) : bool :=
  existsb (fun r => str_eqb (hist_version r) version && of_source sourceId r
                    && hist_notified r) h.

(** *** The audio cache *)

(** The body of [POST /api/audio]; a missing field is [None]. *)
Record AudioPost := {
  post_textHash : option (list N);
  post_voice : option (list N);
  post_audioData : option (list N);
}.

(** The answers of [POST /api/audio]. *)
Inductive AudioPostResponse :=
| AudioMissingFields              (* 400 *)
| AudioSaved (id : list N).       (* { success: true, id } *)

(** [x || ''] read as a test: the field is there and not empty. *)
Definition present (x : option (list N)) : bool :=
  match x with Some s => truthy s | None => false end.

(** [INSERT OR REPLACE INTO audio_cache (id, text_hash, voice, audio_data)]:
    the row with the same PRIMARY KEY, [id], is deleted, then the new row
    is appended. *)
Definition insert_or_replace_audio (row : AudioRow) (rows : list AudioRow) : list AudioRow :=
  List.filter (fun r => negb (str_eqb (audio_id r) (audio_id row))) rows ++ [row].

Section AudioCache.

(** [Buffer.from(audioData, 'base64')]. *)
Variable Buffer_from_base64 : list N -> list Z.

(** [app.post('/api/audio')], with [Date_now] the value of [Date.now()]
    and [now] the value of CURRENT_TIMESTAMP. *)
Definition post_audio (Date_now : Z) (now : N) (body : AudioPost) (d : Db)
    : AudioPostResponse * Db :=
  match post_textHash body, post_voice body, post_audioData body with
  | Some textHash, Some voice, Some audioData =>
      if truthy textHash && truthy voice && truthy audioData then
        let buffer := Buffer_from_base64 audioData in
        let id := textHash ++ js "_" ++ voice ++ js "_" ++ number_to_string Date_now in
        let row := {| audio_id := id; audio_text_hash := textHash;
                      audio_voice := voice; audio_data := buffer;
                      audio_created_at := now |} in
        (AudioSaved id, set_audio_cache (insert_or_replace_audio row (audio_cache d)) d)
      else (AudioMissingFields, d)
  | _, _, _ => (AudioMissingFields, d)
  end.

End AudioCache.

(** The rows [WHERE text_hash = ? AND voice = ?]. *)
Definition audio_rows (textHash voice : list N) (d : Db) : list AudioRow :=
  List.filter (fun r => str_eqb (audio_text_hash r) textHash
                        && str_eqb (audio_voice r) voice) (audio_cache d).

(** [app.get('/api/audio/:textHash/:voice')]: [stmt.get] yields the first
    matching row, which in rowid order (the order of the index on
    [(text_hash, voice)] among equal keys) is the oldest; [None] is the 404
    answer. *)
Definition get_audio (textHash voice : list N) (d : Db) : option (list Z) :=
  audio_data <$> head (audio_rows textHash voice d).

(** ** The notification email *)

Record Removal := {
  removal_feature : list N;
  removal_severity : list N;
  removal_why : list N;
}.

Record Categories := {
  critical_breaking_changes : list (list N);
  removals : list Removal;
  major_features : list (list N);
  important_fixes : list (list N);
  new_slash_commands : list (list N);
  terminal_improvements : list (list N);
  api_changes : list (list N);
}.

(** [interface ChangelogEmailRequest]. *)
Record ChangelogEmailRequest := {
  version : list N;
  tldr : list N;
  categories : Categories;
  action_items : list (list N);
  sentiment : list N;
}.

(** [analysis.version = ...]. *)
Definition set_version (v : list N) (data : ChangelogEmailRequest) : ChangelogEmailRequest :=
  {| version := v; tldr := tldr data; categories := categories data;
     action_items := action_items data; sentiment := sentiment data |}.

(** The emoji of the literals, as UTF-16 code units. *)
Definition EMOJI_NEW : list N := [55356; 56725]%N.          (* U+1F195 *)
Definition EMOJI_PARTY : list N := [55356; 57225]%N.        (* U+1F389 *)
Definition EMOJI_WARNING : list N := [9888; 65039]%N.       (* U+26A0 U+FE0F *)
Definition EMOJI_CLIPBOARD : list N := [55357; 56523]%N.    (* U+1F4CB *)
Definition EMOJI_SIREN : list N := [55357; 57000]%N.        (* U+1F6A8 *)
Definition EMOJI_SPARKLES : list N := [10024]%N.            (* U+2728 *)
Definition EMOJI_WRENCH : list N := [55357; 56615]%N.       (* U+1F527 *)
Definition EMOJI_HEADPHONE : list N := [55356; 57255]%N.    (* U+1F3A7 *)

(** The text of a piece of the HTML template, written with a backquote
    (which the template cannot contain) wherever the page has a double
    quote. *)
Definition html_text (s : string) : list N :=
  map (fun c => if N.eqb c 96 then 34%N else c) (js s).

(** [items.map((item) => `<li>${item}</li>`).join('')]. *)
Definition list_items (items : list (list N)) : list N :=
  join [] (map (fun item => js "<li>" ++ item ++ js "</li>") items).

(** The same for the removals. *)
Definition removal_items (rs : list Removal) : list N :=
  join [] (map (fun r => js "<li><strong>" ++ removal_feature r ++ js "</strong> ("
                           ++ removal_severity r ++ js "): " ++ removal_why r
                           ++ js "</li>") rs).

(** [if (items.length > 0) html += section]. *)
Definition when_nonempty {A} (items : list A) (section : list N) : list N :=
  match items with [] => [] | _ :: _ => section end.

(** The part of the page before the heading. *)
Definition html_head : list N := html_text "
<!DOCTYPE html>
<html>
<head>
  <meta charset=`utf-8`>
  <meta name=`viewport` content=`width=device-width, initial-scale=1.0`>
  <style>
    body { font-family: -apple-system, BlinkMacSystemFont, 'Segoe UI', Roboto, sans-serif; line-height: 1.6; color: #333; max-width: 600px; margin: 0 auto; padding: 20px; }
    h1 { color: #d97706; }
    h2 { color: #374151; margin-top: 24px; }
    .tldr { background: #fef3c7; padding: 16px; border-radius: 8px; margin-bottom: 24px; }
    .section { margin-bottom: 20px; }
    .breaking { border-left: 4px solid #ef4444; padding-left: 12px; background: #fef2f2; padding: 12px; border-radius: 0 8px 8px 0; }
    .feature { border-left: 4px solid #14b8a6; padding-left: 12px; }
    .fix { border-left: 4px solid #6b7280; padding-left: 12px; }
    ul { padding-left: 20px; }
    li { margin-bottom: 8px; }
    .audio-note { background: #e0f2fe; padding: 12px; border-radius: 8px; margin-top: 16px; }
    .footer { margin-top: 32px; padding-top: 16px; border-top: 1px solid #e5e7eb; font-size: 14px; color: #6b7280; }
  </style>
</head>
<body>
  ".

(** [sentiment === 'positive' ? ... : sentiment === 'critical' ? ... : ...]. *)
Definition sentimentEmoji (sentiment : list N) : list N :=
  if str_eqb sentiment (js "positive") then EMOJI_PARTY
  else if str_eqb sentiment (js "critical") then EMOJI_WARNING
  else EMOJI_CLIPBOARD.

(** The top heading of the page. *)
Definition html_heading (data : ChangelogEmailRequest) : list N :=
  js "<h1>" ++ sentimentEmoji (sentiment data) ++ js " Claude Code "
    ++ version data ++ js " Released</h1>".

(** A [<div class="section ...">] with its title and its list. *)
Definition html_section (class title items : list N) : list N :=
  html_text "
  <div class=`" ++ class ++ html_text "`>
    <h2>" ++ title ++ html_text "</h2>
    <ul>
      " ++ items ++ html_text "
    </ul>
  </div>
".

(** [generateEmailHtml(data)]. *)
Definition generateEmailHtml (data : ChangelogEmailRequest) : list N :=
  let c := categories data in
  html_head ++ html_heading data ++ html_text "

  <div class=`tldr`>
    <strong>TL;DR:</strong> " ++ tldr data ++ html_text "
  </div>
"
  ++ when_nonempty (critical_breaking_changes c)
       (html_section (js "section breaking")
          (EMOJI_SIREN ++ js " Critical Breaking Changes")
          (list_items (critical_breaking_changes c)))
  ++ when_nonempty (removals c)
       (html_section (js "section") (EMOJI_WARNING ++ js " Removals")
          (removal_items (removals c)))
  ++ when_nonempty (major_features c)
       (html_section (js "section feature") (EMOJI_SPARKLES ++ js " Major Features")
          (list_items (major_features c)))
  ++ when_nonempty (important_fixes c)
       (html_section (js "section fix") (EMOJI_WRENCH ++ js " Important Fixes")
          (list_items (important_fixes c)))
  ++ when_nonempty (action_items data)
       (html_section (js "section") (EMOJI_CLIPBOARD ++ js " Action Items")
          (list_items (action_items data)))
  ++ html_text "
  <div class=`audio-note`>
    " ++ EMOJI_HEADPHONE ++ html_text " <strong>Audio summary attached!</strong> Listen to the changelog summary on the go.
  </div>

  <div class=`footer`>
    <p>This email was automatically sent by Claude Code Changelog Tracker</p>
  </div>
</body>
</html>
".

(** The base64 alphabet. *)
Definition base64_char (i : Z) : N :=
  Z.to_N (if i <? 26 then 65 + i
          else if i <? 52 then 97 + (i - 26)
          else if i <? 62 then 48 + (i - 52)
          else if i =? 62 then 43 else 47).

(** [buffer.toString('base64')]. *)
Fixpoint base64 (bytes : list Z) : list N :=
  match bytes with
  | [] => []
  | [a] =>
      [base64_char (Z.shiftr a 2); base64_char (Z.shiftl (Z.land a 3) 4);
       61%N; 61%N]
  | [a; b] =>
      [base64_char (Z.shiftr a 2);
       base64_char (Z.lor (Z.shiftl (Z.land a 3) 4) (Z.shiftr b 4));
       base64_char (Z.shiftl (Z.land b 15) 2); 61%N]
  | a :: b :: c :: rest =>
      [base64_char (Z.shiftr a 2);
       base64_char (Z.lor (Z.shiftl (Z.land a 3) 4) (Z.shiftr b 4));
       base64_char (Z.lor (Z.shiftl (Z.land b 15) 2) (Z.shiftr c 6));
       base64_char (Z.land c 63)] ++ base64 rest
  end.

Record Attachment := {
  att_filename : list N;
  att_content : list N;
}.

(** The JSON body posted to the mail service. *)
Record EmailPayload := {
  mail_from : list N;
  mail_to : list (list N);
  mail_subject : list N;
  mail_html : list N;
  mail_attachments : option (list Attachment);
}.

(** The [emailPayload] object [sendEmailWithAttachment] builds. *)
Definition emailPayload (NOTIFY_EMAIL : list N) (data : ChangelogEmailRequest)
    (audioBuffer : option (list Z)) : EmailPayload :=
  {| mail_from := js "Changelog Tracker <onboarding@resend.dev>";
     mail_to := [NOTIFY_EMAIL];
     mail_subject := EMOJI_NEW ++ js " Claude Code " ++ version data ++ js " Released";
     mail_html := generateEmailHtml data;
     mail_attachments :=
       match audioBuffer with
       | Some buffer =>
           Some [{| att_filename := js "claude-code-" ++ version data ++ js "-summary.wav";
                    att_content := base64 buffer |}]
       | None => None
       end |}.

(** ** The outside world *)

(** How a call ends: with a value, or with a thrown error (its message). *)
Inductive outcome (A : Type) : Type :=
| Returned (a : A)
| Thrown (error : list N).
Arguments Returned {A} a.
Arguments Thrown {A} error.

(** What [fetch] resolves to, with the body [response.text()] yields. *)
Record HttpResponse := {
  resp_ok : bool;
  resp_status : Z;
  resp_body : list N;
}.

(** The requests the pipeline sends out, each with its answer.
    - [CallFetch]: the GET of a changelog; thrown on a network failure.
    - [CallAnalyzer]: the generateContent request for the analysis, with what
      the function makes of the answer: thrown (network failure, a body
      that is not JSON), [None] (a non-success status, no text, no JSON
      object in the text), or the parsed object.
    - [CallTTS]: the generateContent request for the audio, answered by the
      decoded PCM bytes, [None] (non-success, no audio), or thrown.
    - [CallMailer]: the POST to the mail service, answered by
      [response.ok], or thrown. *)
Inductive call :=
| CallFetch (url : list N) (answer : outcome HttpResponse)
| CallAnalyzer (changelogText : list N) (answer : outcome (option ChangelogEmailRequest))
| CallTTS (text voice : list N) (answer : outcome (option (list Z)))
| CallMailer (payload : EmailPayload) (answer : outcome bool).

(** The lines written by [console.log] and [console.error]. *)
Inductive logline :=
| LogStarting
| LogNoActiveSources
| LogCount (n : nat)
| LogFinished
| LogChecking (name url : list N)
| LogCouldNotParse (name : list N)
| LogLatest (name latest : list N) (lastKnown : option (list N))
| LogNoNewVersion (name : list N)
| LogNewVersion (name latest : list N)
| LogNotificationsDisabled (name : list N)
| LogAnalyzing (name : list N)
| LogAnalysisFailed (name : list N)
| LogGeneratingAudio (name : list N)
| LogSending (name : list N)
| LogSent (name latest : list N)
| LogSendFailed (name : list N)
| LogError (name error : list N).

(** The process environment and the services it talks to. Every service
    answers as a function of the calls made so far, so the same request may
    be answered differently at different times. *)
Record Env := {
  GEMINI_API_KEY : option (list N);
  RESEND_API_KEY : option (list N);
  NOTIFY_EMAIL : option (list N);
  http_get : list call -> list N -> outcome HttpResponse;
  gemini_analyze : list call -> list N -> outcome (option ChangelogEmailRequest);
  gemini_tts : list call -> list N -> list N -> outcome (option (list Z));
  resend_post : list call -> EmailPayload -> outcome bool;
  CURRENT_TIMESTAMP : list call -> N;
}.

(** What a run reads and writes: the database, the calls made to the
    outside and the console. *)
Record World := {
  db : Db;
  calls : list call;
  console : list logline;
}.

(** ** Computations that may throw *)

Definition M (A : Type) : Type := World -> outcome A * World.

Global Instance M_ret : MRet M := fun A a w => (Returned a, w).

Global Instance M_bind : MBind M := fun A B f m w =>
  match m w with
  | (Returned a, w') => f a w'
  | (Thrown e, w') => (Thrown e, w')
  end.

(** [throw new Error(message)]. *)
Definition throw {A} (message : list N) : M A := fun w => (Thrown message, w).

(** [try { body } catch (error) { handler }]. *)
Definition try_catch {A} (body : M A) (handler : list N -> M A) : M A := fun w =>
  match body w with
  | (Returned a, w') => (Returned a, w')
  | (Thrown e, w') => handler e w'
  end.

(** The world after a line on the console, after a call to the outside,
    and after a statement on the database. *)
Definition add_log (l : logline) (w : World) : World :=
  {| db := db w; calls := calls w; console := console w ++ [l] |}.

Definition add_call (c : call) (w : World) : World :=
  {| db := db w; calls := calls w ++ [c]; console := console w |}.

Definition update_db (u : Db -> Db) (w : World) : World :=
  {| db := u (db w); calls := calls w; console := console w |}.

(** [console.log] and [console.error]. *)
Definition log (l : logline) : M unit := fun w => (Returned tt, add_log l w).

(** A SELECT. *)
Definition query {A} (q : Db -> A) : M A := fun w => (Returned (q (db w)), w).

(** An INSERT or UPDATE. *)
Definition run_stmt (u : Db -> Db) : M unit := fun w => (Returned tt, update_db u w).

(** A request to the outside: the answer comes from the service and the
    exchange is recorded. *)
Definition request {A} (answer : list call -> outcome A) (record : outcome A -> call) : M A :=
  fun w =>
    let r := answer (calls w) in
    (r, add_call (record r) w).

(** The clock of the database. *)
Definition timestamp (env : Env) : M N := fun w =>
  (Returned (CURRENT_TIMESTAMP env (calls w)), w).

(** [for (const x of xs) { await body(x) }]: an error thrown by one turn
    ends the loop. *)
Fixpoint for_of {A} (xs : list A) (body : A -> M unit) : M unit :=
  match xs with
  | [] => mret tt
  | x :: rest => body x ;; for_of rest body
  end.

(** ** The notification pipeline *)

(** [fetchChangelog(url)]. *)
Definition fetchChangelog (env : Env) (url : list N) : M (list N) :=
  response ← request (fun cs => http_get env cs url) (CallFetch url);
  if negb (resp_ok response)
  then throw (js "Failed to fetch changelog: " ++ number_to_string (resp_status response))
  else mret (resp_body response).

(** [analyzeChangelog(changelogText)]; [None] is [null]. *)
Definition analyzeChangelog (env : Env) (changelogText : list N)
    : M (option ChangelogEmailRequest) :=
  if negb (present (GEMINI_API_KEY env)) then mret None
  else request (fun cs => gemini_analyze env cs changelogText)
         (CallAnalyzer changelogText).

(** [generateTTSAudio(text, voice)]; [None] is [null]. *)
Definition generateTTSAudio (env : Env) (text voice : list N) : M (option (list Z)) :=
  if negb (present (GEMINI_API_KEY env)) then mret None
  else
    base64Audio ← request (fun cs => gemini_tts env cs text voice) (CallTTS text voice);
    match base64Audio with
    | None => mret None
    | Some pcmBuffer =>
        match pcmToWav pcmBuffer with
        | Some wav => mret (Some wav)
        | None => throw (js "RangeError")
        end
    end.

(** [sendEmailWithAttachment(data, audioBuffer)]. *)
Definition sendEmailWithAttachment (env : Env) (data : ChangelogEmailRequest)
    (audioBuffer : option (list Z)) : M bool :=
  match RESEND_API_KEY env, NOTIFY_EMAIL env with
  | Some key, Some to =>
      if truthy key && truthy to then
        let payload := emailPayload to data audioBuffer in
        request (fun cs => resend_post env cs payload) (CallMailer payload)
      else mret false
  | _, _ => mret false
  end.

(** [voiceSetting?.value || 'Charon']. *)
Definition or_default (x : option (list N)) (default : list N) : list N :=
  match x with
  | Some s => if truthy s then s else default
  | None => default
  end.

(** The steps of [checkSourceForNewChangelog] from the analysis on. *)
Definition notify (env : Env) (source : ChangelogSource) (latest : ParsedChangelogEntry)
    : M unit :=
  log (LogAnalyzing (src_name source));;
  analysis ← analyzeChangelog env (entry_content latest);
  match analysis with
  | None => log (LogAnalysisFailed (src_name source))
  | Some analysis =>
      let analysis := set_version (src_name source ++ js " " ++ entry_version latest) analysis in
      log (LogGeneratingAudio (src_name source));;
      voiceSetting ← query (get_setting (js "notificationVoice"));
      let voice := or_default voiceSetting (js "Charon") in
      audioBuffer ← generateTTSAudio env (tldr analysis) voice;
      log (LogSending (src_name source));;
      sent ← sendEmailWithAttachment env analysis audioBuffer;
      if sent : bool then
        run_stmt (markVersionNotified (entry_version latest) (src_id source));;
        log (LogSent (src_name source) (entry_version latest))
      else log (LogSendFailed (src_name source))
  end.

(** The body of the [try] block of [checkSourceForNewChangelog]. *)
Definition checkSource (env : Env) (source : ChangelogSource) : M unit :=
  log (LogChecking (src_name source) (src_url source));;
  markdown ← fetchChangelog env (src_url source);
  match parseLatestVersion markdown with
  | None => log (LogCouldNotParse (src_name source))
  | Some latest =>
      lastKnown ← query (getLastKnownVersion (Some (src_id source)));
      log (LogLatest (src_name source) (entry_version latest) lastKnown);;
      if bool_decide (lastKnown = Some (entry_version latest))
      then log (LogNoNewVersion (src_name source))
      else
        log (LogNewVersion (src_name source) (entry_version latest));;
        now ← timestamp env;
        run_stmt (saveVersion (entry_version latest) (src_id source) now);;
        notifyEnabled ← query (get_setting (js "emailNotificationsEnabled"));
        if negb (bool_decide (notifyEnabled = Some (js "true")))
        then log (LogNotificationsDisabled (src_name source))
        else notify env source latest
  end.

(** [checkSourceForNewChangelog(source)]. *)
Definition checkSourceForNewChangelog (env : Env) (source : ChangelogSource) : M unit :=
  try_catch (checkSource env source)
    (fun error => log (LogError (src_name source) error)).

(** [checkForNewChangelog()]. *)
Definition checkForNewChangelog (env : Env) : M unit :=
  log LogStarting;;
  sources ← query getActiveSources;
  match sources with
  | [] => log LogNoActiveSources
  | _ :: _ =>
      log (LogCount (length sources));;
      for_of sources (checkSourceForNewChangelog env);;
      log LogFinished
  end.

(** ** The scheduler and the settings endpoint *)

(** A task made by [cron.schedule]: its expression, and whether it still
    fires ([stop()] clears it). *)
Record ScheduledTask := {
  task_expression : list N;
  task_running : bool;
}.

(** The module variables [cronJob] and [currentCronExpression], with the
    tasks node-cron holds (a task is named by its position) and the number
    of runs of [checkForNewChangelog] started without being awaited. *)
Record Monitor := {
  cronJob : option nat;
  currentCronExpression : option (list N);
  tasks : list ScheduledTask;
  checks_started : nat;
}.

(** [task.stop()]. *)
Definition stop_task (t : ScheduledTask) : ScheduledTask :=
  {| task_expression := task_expression t; task_running := false |}.

(** [stopMonitoring()]. *)
Definition stopMonitoring (m : Monitor) : Monitor :=
  match cronJob m with
  | Some job =>
      {| cronJob := None;
         currentCronExpression := None;
         tasks := alter stop_task job (tasks m);
         checks_started := checks_started m |}
  | None => m
  end.

(** [startMonitoring(intervalMs)]. The immediate [checkForNewChangelog()]
    is not awaited: it is counted, and runs after the caller. *)
Definition startMonitoring (intervalMs : Z) (m : Monitor) : Monitor :=
  let m := stopMonitoring m in
  match intervalToCron intervalMs with
  | None => m
  | Some cronExpression =>
      {| cronJob := Some (length (tasks m));
         currentCronExpression := Some cronExpression;
         tasks := tasks m ++ [{| task_expression := cronExpression;
                                 task_running := true |}];
         checks_started := S (checks_started m) |}
  end.

(** The value of a digit in the given radix. *)
Definition digit_value (radix : Z) (c : N) : option Z :=
  let d := if is_digit c then Some (Z.of_N c - 48)
           else if (97 <=? c)%N && (c <=? 122)%N then Some (Z.of_N c - 87)
           else if (65 <=? c)%N && (c <=? 90)%N then Some (Z.of_N c - 55)
           else None in
  d ≫= fun d => if d <? radix then Some d else None.

(** The value of the longest prefix of digits, from the left. *)
Fixpoint parse_digits (radix acc : Z) (s : list N) : Z :=
  match s with
  | [] => acc
  | c :: rest =>
      match digit_value radix c with
      | Some d => parse_digits radix (acc * radix + d) rest
      | None => acc
      end
  end.

(** [parseInt(s)] with no radix; [None] is [NaN]. The mathematical value is
    kept (a double rounds it above 2^53, keeping its sign). *)
Definition parseInt (s : list N) : option Z :=
  let s := snd (span is_space s) in
  let '(sign, s) :=
    match strip_prefix (js "-") s, strip_prefix (js "+") s with
    | Some tl, _ => (-1, tl)
    | None, Some tl => (1, tl)
    | None, None => (1, s)
    end in
  let '(radix, s) :=
    match strip_prefix (js "0x") s, strip_prefix (js "0X") s with
    | Some tl, _ | None, Some tl => (16, tl)
    | None, None => (10, s)
    end in
  match s with
  | [] => None
  | c :: _ =>
      match digit_value radix c with
      | Some _ => Some (sign * parse_digits radix 0 s)
      | None => None
      end
  end.

(** [parseInt(intervalRow?.value || '0') || 0]. *)
Definition stored_interval (d : Db) : Z :=
  match parseInt (or_default (get_setting (js "notificationCheckInterval") d) (js "0")) with
  | Some n => n
  | None => 0
  end.

(** [enabledRow?.value === 'true']. *)
Definition stored_enabled (d : Db) : bool :=
  bool_decide (get_setting (js "emailNotificationsEnabled") d = Some (js "true")).

(** [app.post('/api/settings/:key')]. *)
Definition post_setting (key value : list N) (s : Db * Monitor) : Db * Monitor :=
  let '(d, m) := s in
  let d := set_settings (<[key := value]> (settings d)) d in
  if str_eqb key (js "emailNotificationsEnabled")
     || str_eqb key (js "notificationCheckInterval")
  then
    let enabled := stored_enabled d in
    let interval := stored_interval d in
    if enabled && (0 <? interval) then (d, startMonitoring interval m)
    else (d, stopMonitoring m)
  else (d, m).

(** [isRunning: cronJob !== null] of the status endpoint. *)
Definition isRunning (m : Monitor) : bool :=
  match cronJob m with Some _ => true | None => false end.



(** The state of the module when the server starts. *)
Definition initial_monitor : Monitor :=
  {| cronJob := None; currentCronExpression := None; tasks := []; checks_started := 0 |}.


(** ** The server at start-up and the other endpoints *)





(** The intervals the settings panel offers for the notifications
    ([NOTIFICATION_INTERVALS] of the panel), in milliseconds; the panel
    saves the chosen one as [interval.toString()]. *)
Definition NOTIFICATION_INTERVALS : list Z :=
  [0; 300000; 900000; 1800000; 3600000; 21600000; 43200000; 86400000;
   604800000; 1209600000].

(** [Number.MAX_SAFE_INTEGER]: up to it [String(n)] writes the digits of the
    integer [n] exactly. *)
Definition MAX_SAFE_INTEGER : Z := 9007199254740991.

(** *** Handlers that call the pipeline *)


(** [SELECT * FROM changelog_sources WHERE id = ?] with [stmt.get]; [id] is
    the PRIMARY KEY. *)
Definition get_source (id : list N) (d : Db) : option ChangelogSource :=
  List.find (fun s => str_eqb (src_id s) id) (changelog_sources d).













(** The answers of [POST /api/sources/test]. *)
Inductive TestResponse :=
| TestUrlRequired                        (* 400, URL is required *)
| TestInvalidUrl                         (* 400, Invalid URL format *)
| TestNotAChangelog                      (* { valid: false }, could not parse *)
| TestFetchFailed (message : list N)     (* { valid: false }, failed to fetch *)
| TestValid (latestVersion preview : list N).

(** [content.slice(0, 500) + (content.length > 500 ? '...' : '')]. *)
Definition preview (content : list N) : list N :=
  take 500 content ++ (if (500 <? length content)%nat then js "..." else []).

Section SourceTest.

(** [new URL(url)] does not throw. *)
Variable URL_valid : list N -> bool.

(** [app.post('/api/sources/test')]; a body without [url] is [None]. *)
Definition test_source (env : Env) (url : option (list N)) : M TestResponse :=
  match url with
  | Some url =>
      if negb (truthy url) then mret TestUrlRequired
      else if negb (URL_valid url) then mret TestInvalidUrl
      else
        try_catch
          (markdown ← fetchChangelog env url;
           match parseLatestVersion markdown with
           | None => mret TestNotAChangelog
           | Some latest =>
               mret (TestValid (entry_version latest) (preview (entry_content latest)))
           end)
          (fun error => mret (TestFetchFailed (js "Failed to fetch URL: " ++ error)))
  | None => mret TestUrlRequired
  end.

End SourceTest.

(** *** The sources endpoints *)

(** The body of [POST /api/sources]; a missing field is [None]. *)
Record SourcePost := {
  new_name : option (list N);
  new_url : option (list N);
}.

(** The answers of [POST /api/sources]. *)
Inductive SourcePostResponse :=
| SourceFieldsRequired                    (* 400, Name and URL are required *)
| SourceInvalidUrl                        (* 400, Invalid URL format *)
| SourceCreated (id name url : list N)    (* { id, name, url, is_active: true } *)
| SourceUrlExists                         (* 409 *)
| SourceCreateFailed.                     (* 500 *)

(** The body of [PATCH /api/sources/:id], with strings for [name] and
    [url]; [is_active] is read for its truth value only. *)
Record SourcePatch := {
  patch_name : option (list N);
  patch_url : option (list N);
  patch_is_active : option bool;
}.

(** The answers of [PATCH /api/sources/:id]. *)
Inductive SourcePatchResponse :=
| PatchInvalidUrl      (* 400, Invalid URL format *)
| PatchNoUpdates       (* 400, No updates provided *)
| PatchNotFound        (* 404 *)
| PatchUrlExists       (* 409 *)
| PatchOk.             (* { success: true } *)

(** The answers of [DELETE /api/sources/:id]. *)
Inductive SourceDeleteResponse :=
| SourceNotFound       (* 404 *)
| SourceDeleted.       (* { success: true } *)

(** A source other than [id] has the URL: what the UNIQUE constraint on
    [url] refuses in an UPDATE of the row [id]. *)
Definition url_taken (id url : list N) (sources : list ChangelogSource) : bool :=
  existsb (fun s => negb (str_eqb (src_id s) id) && str_eqb (src_url s) url) sources.

(** [UPDATE changelog_sources SET ... WHERE id = ?], on one row, with the
    columns the body names. *)
Definition patch_row (id : list N) (body : SourcePatch) (s : ChangelogSource)
    : ChangelogSource :=
  if str_eqb (src_id s) id
  then {| src_id := src_id s;
          src_name := default (src_name s) (patch_name body);
          src_url := default (src_url s) (patch_url body);
          src_is_active := default (src_is_active s) (patch_is_active body);
          src_last_version := src_last_version s;
          src_last_checked_at := src_last_checked_at s |}
  else s.

Section Sources.

(** [new URL(url)] does not throw. *)
Variable URL_valid : list N -> bool.

(** [app.post('/api/sources')], with [Date_now] the value of [Date.now()]
    and [random] the digits taken from [Math.random()]. The INSERT fails on
    the UNIQUE constraint of [url] (409) or on the PRIMARY KEY (500), and
    then inserts nothing. *)
Definition post_source (Date_now : Z) (random : list N) (body : SourcePost) (d : Db)
    : SourcePostResponse * Db :=
  match new_name body, new_url body with
  | Some name, Some url =>
      if negb (truthy name) || negb (truthy url) then (SourceFieldsRequired, d)
      else if negb (URL_valid url) then (SourceInvalidUrl, d)
      else
        let id := js "src_" ++ number_to_string Date_now ++ js "_" ++ random in
        if existsb (fun s => str_eqb (src_url s) url) (changelog_sources d)
        then (SourceUrlExists, d)
        else if existsb (fun s => str_eqb (src_id s) id) (changelog_sources d)
        then (SourceCreateFailed, d)
        else (SourceCreated id name url,
              set_sources
                (changelog_sources d
                   ++ [{| src_id := id; src_name := name; src_url := url;
                          src_is_active := true; src_last_version := None;
                          src_last_checked_at := None |}]) d)
  | _, _ => (SourceFieldsRequired, d)
  end.

(** [app.patch('/api/sources/:id')]: an UPDATE that matches no row changes
    nothing and breaks no constraint. *)
Definition patch_source (id : list N) (body : SourcePatch) (d : Db)
    : SourcePatchResponse * Db :=
  if match patch_url body with Some url => negb (URL_valid url) | None => false end
  then (PatchInvalidUrl, d)
  else
    match patch_name body, patch_url body, patch_is_active body with
    | None, None, None => (PatchNoUpdates, d)
    | _, _, _ =>
        if negb (existsb (fun s => str_eqb (src_id s) id) (changelog_sources d))
        then (PatchNotFound, d)
        else if match patch_url body with
                | Some url => url_taken id url (changelog_sources d)
                | None => false
                end
        then (PatchUrlExists, d)
        else (PatchOk, set_sources (map (patch_row id body) (changelog_sources d)) d)
    end.

End Sources.

(** [app.delete('/api/sources/:id')]: the history of the source is deleted,
    then the source; the answer tells whether a source was deleted. *)
Definition delete_source (id : list N) (d : Db) : SourceDeleteResponse * Db :=
  let d := set_history
             (List.filter (fun r => negb (of_source id r)) (changelog_history d)) d in
  let kept := List.filter (fun s => negb (str_eqb (src_id s) id)) (changelog_sources d) in
  let changes := (length (changelog_sources d) - length kept)%nat in
  let d := set_sources kept d in
  if (changes =? 0)%nat then (SourceNotFound, d) else (SourceDeleted, d).

(** *** The caches *)

(** [app.delete('/api/audio/:id')]: the answer is [{ success: true }]
    whether or not a row was deleted. *)
Definition delete_audio (id : list N) (d : Db) : Db :=
  set_audio_cache
    (List.filter (fun r => negb (str_eqb (audio_id r) id)) (audio_cache d)) d.

(** A row of [analysis_cache]; [version] is the PRIMARY KEY. *)
Record AnalysisRow := {
  cached_version : list N;
  cached_json : list N;
  cached_at : N;
}.

(** [INSERT OR REPLACE INTO analysis_cache (version, analysis_json,
    created_at)]. *)
Definition insert_or_replace_analysis (row : AnalysisRow) (rows : list AnalysisRow)
    : list AnalysisRow :=
  List.filter (fun r => negb (str_eqb (cached_version r) (cached_version row))) rows
    ++ [row].

(** The rows [WHERE version = ?]. *)
Definition analysis_rows (version : list N) (rows : list AnalysisRow) : list AnalysisRow :=
  List.filter (fun r => str_eqb (cached_version r) version) rows.

(** The answers of the analysis endpoints. *)
Inductive AnalysisResponse (J : Type) :=
| AnalysisSaved                             (* { success: true } *)
| AnalysisCached (analysis : J) (cachedAt : N)
| AnalysisNotCached                         (* 404 *)
| AnalysisError.                            (* 500: the handler threw *)
Arguments AnalysisSaved {J}.
Arguments AnalysisCached {J} analysis cachedAt.
Arguments AnalysisNotCached {J}.
Arguments AnalysisError {J}.

Section AnalysisCache.

(** The values of JSON, with [JSON.stringify] and with [JSON.parse], which
    throws ([None]) on a text that is not JSON. *)
Variable J : Type.
Variable JSON_stringify : J -> list N.
Variable JSON_parse : list N -> option J.

(** [app.post('/api/analysis/:version')], with [now] the value of
    CURRENT_TIMESTAMP. For a body without [analysis], [JSON.stringify]
    yields [undefined] and the statement throws, the column being NOT
    NULL. *)
Definition post_analysis (version : list N) (analysis : option J) (now : N)
    (rows : list AnalysisRow) : AnalysisResponse J * list AnalysisRow :=
  match analysis with
  | Some a =>
      (AnalysisSaved,
       insert_or_replace_analysis
         {| cached_version := version; cached_json := JSON_stringify a;
            cached_at := now |} rows)
  | None => (AnalysisError, rows)
  end.

(** [app.get('/api/analysis/:version')]. *)
Definition get_analysis (version : list N) (rows : list AnalysisRow) : AnalysisResponse J :=
  match head (analysis_rows version rows) with
  | Some row =>
      match JSON_parse (cached_json row) with
      | Some analysis => AnalysisCached analysis (cached_at row)
      | None => AnalysisError
      end
  | None => AnalysisNotCached
  end.

End AnalysisCache.

(** ** Definitions used by the statements *)

(** The lookup table of [intervalToCron]: minutes and cron expression. *)
Definition cron_table : list (Z * list N) :=
  [ (1, js "* * * * *");        (* every minute *)
    (5, js "*/5 * * * *");
    (15, js "*/15 * * * *");
    (30, js "*/30 * * * *");
    (60, js "0 * * * *");       (* every hour *)
    (360, js "0 */6 * * *");
    (720, js "0 */12 * * *");
    (1440, js "0 0 * * *");     (* once a day, at midnight *)
    (10080, js "0 0 * * 0");
    (20160, js "0 0 1,15 * *") ].

(** The fallback expression, every [n] minutes. *)
Definition every_n_minutes (n : Z) : list N :=
  js "*/" ++ number_to_string n ++ js " * * * *".

(** The greedy optional group [(?:-[a-zA-Z0-9.]+)?]: what it matches at the
    head of [s]. *)
Definition prerelease (s : list N) : list N :=
  match strip_prefix (js "-") s with
  | Some tl =>
      match many1 is_prerelease_char tl with
      | Some (run, _) => js "-" ++ run
      | None => []
      end
  | None => []
  end.

(** The header expression after [##\s+\[?]: the group (digits, [.] 46,
    digits, [.], digits, and optionally [-] 45 and its run) and the optional
    closing bracket [\]] 93. *)
Definition after_bracket : regex :=
  (Group (Plus is_digit · Chr 46 · Plus is_digit · Chr 46 · Plus is_digit
          · Opt (Chr 45 · Plus is_prerelease_char))
   · Opt (Chr 93))%regex.

(** The token read without backtracking: three runs of digits separated by
    dots, and the pre-release suffix. *)
Definition token_after_bracket (s : list N) : option (list N) :=
  '(major, r2) ← many1 is_digit s;
  r3 ← strip_prefix (js ".") r2;
  '(minor, r4) ← many1 is_digit r3;
  r5 ← strip_prefix (js ".") r4;
  '(patch, r6) ← many1 is_digit r5;
  Some (major ++ js "." ++ minor ++ js "." ++ patch ++ prerelease r6).

(** The version header read without backtracking: [##], the longest run of
    white space, an optional bracket, and the token. *)
Definition header_token (line : list N) : option (list N) :=
  r0 ← strip_prefix (js "##") line;
  '(_, r1) ← many1 is_space r0;
  token_after_bracket (optional (js "[") r1).

(** The canonical 44-byte header of a mono, 16-bit, 24000 Hz PCM WAV file
    with [dataSize] bytes of samples. *)
Definition wav_header (dataSize : Z) : list Z :=
  ascii_bytes (js "RIFF") ++ le_bytes 4 (36 + dataSize)
  ++ ascii_bytes (js "WAVE")
  ++ ascii_bytes (js "fmt ") ++ le_bytes 4 16
  ++ le_bytes 2 1 ++ le_bytes 2 1 ++ le_bytes 4 24000 ++ le_bytes 4 48000
  ++ le_bytes 2 2 ++ le_bytes 2 16
  ++ ascii_bytes (js "data") ++ le_bytes 4 dataSize.

(** A database with no rows. *)
Definition empty_db : Db :=
  {| audio_cache := []; settings := ∅; changelog_history := [];
     changelog_sources := [] |}.

(** The history knows the version, whatever the source. *)
Definition known_version (v : list N) (h : list HistoryRow) : bool :=
  existsb (fun r => str_eqb (hist_version r) v) h.

(** [m], run from [w], ends in an outcome and a world that satisfy [Q]. *)
Definition ensures {A} (m : M A) (w : World) (Q : outcome A -> World -> Prop) : Prop :=
  Q (fst (m w)) (snd (m w)).

(** The calls made between the world [w] and the later world [w']. *)
Definition new_calls (w w' : World) : list call :=
  drop (length (calls w)) (calls w').

(** The lines written between [w] and [w']. *)
Definition new_lines (w w' : World) : list logline :=
  drop (length (console w)) (console w').

(** The mail service reported a successful send. *)
Definition mail_sent (c : call) : bool :=
  match c with
  | CallMailer _ (Returned true) => true
  | _ => false
  end.

(** A call to the Analyzer, the TTS service or the Mailer. *)
Definition notification_call (c : call) : bool :=
  match c with
  | CallFetch _ _ => false
  | CallAnalyzer _ _ | CallTTS _ _ _ | CallMailer _ _ => true
  end.

(** The version the cycle of [source] detects from [w]: the token of the
    first header of the document its URL serves, when the fetch succeeds. *)
Definition fetched_version (env : Env) (source : ChangelogSource) (w : World)
    : option (list N) :=
  match http_get env (calls w) (src_url source) with
  | Returned response =>
      if resp_ok response
      then entry_version <$> parseLatestVersion (resp_body response)
      else None
  | Thrown _ => None
  end.

(** The subject of the notification email for a version label. *)
Definition subject_for (label : list N) : list N :=
  EMOJI_NEW ++ js " Claude Code " ++ label ++ js " Released".

(** The top heading of the notification email for a version label. *)
Definition heading_for (emoji label : list N) : list N :=
  js "<h1>" ++ emoji ++ js " Claude Code " ++ label ++ js " Released</h1>".

(** [needle] occurs in [s]. *)
Definition occurs_in (needle s : list N) : Prop :=
  exists before after, s = before ++ needle ++ after.

(** The line a cycle starts with. *)
Definition checking_line (source : ChangelogSource) : logline :=
  LogChecking (src_name source) (src_url source).

(** The cycles of the sources, one after the other, each from the world
    the one before it left. *)
Definition cycles (env : Env) (sources : list ChangelogSource) (w : World) : World :=
  fold_left (fun w source => snd (checkSourceForNewChangelog env source w)) sources w.

(** The line is a checking line. *)
Definition is_checking (l : logline) : bool :=
  match l with LogChecking _ _ => true | _ => false end.

(** The world a batch ends in: the cycles of the active sources as read at
    the start, in order, between the lines of the batch. *)
Definition batch_end (env : Env) (w : World) : World :=
  let sources := getActiveSources (db w) in
  match sources with
  | [] => add_log LogNoActiveSources (add_log LogStarting w)
  | _ :: _ =>
      add_log LogFinished
        (cycles env sources (add_log (LogCount (length sources)) (add_log LogStarting w)))
  end.

(** The form of a mail sent in the cycle of [source] for the detected
    version [v]: the subject and the top heading carry the literal label
    before the source name and the version. *)
Definition mail_form (source : ChangelogSource) (v : option (list N)) (c : call) : Prop :=
  match c with
  | CallMailer payload _ =>
      exists version emoji,
        v = Some version
        /\ mail_subject payload = subject_for (src_name source ++ js " " ++ version)
        /\ occurs_in (heading_for emoji (src_name source ++ js " " ++ version))
             (mail_html payload)
        /\ occurs_in (js "Claude Code") (mail_subject payload)
  | _ => True
  end.

(** *** For the further properties *)

(** A line holds no separator. *)
Definition sep_free (sep : N) (line : list N) : Prop := Forall (fun c => c <> sep) line.

(** A run of decimal digits, not empty. *)
Definition digits (s : list N) : Prop :=
  s <> [] /\ Forall (fun c => is_digit c = true) s.

(** [major.minor.patch], optionally followed by [-] and a run of
    pre-release characters. *)
Definition semver_shaped (v : list N) : Prop :=
  exists major minor patch pre,
    v = major ++ js "." ++ minor ++ js "." ++ patch ++ pre
    /\ digits major /\ digits minor /\ digits patch
    /\ (pre = []
        \/ exists run, pre = js "-" ++ run /\ run <> []
                       /\ Forall (fun c => is_prerelease_char c = true) run).



(** The service a call goes to. *)
Inductive call_kind := KFetch | KAnalyzer | KTTS | KMailer.

Definition kind_of (c : call) : call_kind :=
  match c with
  | CallFetch _ _ => KFetch
  | CallAnalyzer _ _ => KAnalyzer
  | CallTTS _ _ _ => KTTS
  | CallMailer _ _ => KMailer
  end.

(** The URL of a fetch. *)
Definition fetched_url (c : call) : option (list N) :=
  match c with CallFetch url _ => Some url | _ => None end.

(** A call to the Mailer. *)
Definition is_mailer (c : call) : bool :=
  match c with CallMailer _ _ => true | _ => false end.

(** The call a cycle of [source] starts with, from the world [w]. *)
Definition fetch_call (env : Env) (source : ChangelogSource) (w : World) : call :=
  CallFetch (src_url source) (http_get env (calls w) (src_url source)).

(** What [generateTTSAudio] returns for the answer of the TTS service, when
    it returns. *)
Definition audio_of (tts : option (list Z)) : option (list Z) :=
  tts ≫= pcmToWav.

(** Every row the history holds for the source was detected before [t]. *)
Definition detected_before (t : N) (sourceId : list N) (h : list HistoryRow) : Prop :=
  Forall (fun r => of_source sourceId r = true -> (hist_detected_at r < t)%N) h.

(** The step of [latest_row]. *)
Definition later (best : option HistoryRow) (r : HistoryRow) : option HistoryRow :=
  match best with
  | None => Some r
  | Some b => if (hist_detected_at b <? hist_detected_at r)%N then Some r else Some b
  end.


(** No two sources share an id or a URL: the PRIMARY KEY and the UNIQUE
    constraint of [changelog_sources]. *)
Definition sources_keyed (d : Db) : Prop :=
  NoDup (map src_id (changelog_sources d)) /\ NoDup (map src_url (changelog_sources d)).

(** The id [POST /api/audio] gives a row. *)
Definition audio_key (textHash voice : list N) (Date_now : Z) : list N :=
  textHash ++ js "_" ++ voice ++ js "_" ++ number_to_string Date_now.

(** No row of the cache has the id. *)
Definition audio_id_free (id : list N) (d : Db) : bool :=
  negb (existsb (fun r => str_eqb (audio_id r) id) (audio_cache d)).

(** [data] with other values for the three categories the page leaves
    out. *)
Definition with_unrendered (new_slash terminal api : list (list N))
    (data : ChangelogEmailRequest) : ChangelogEmailRequest :=
  let c := categories data in
  {| version := version data; tldr := tldr data;
     categories :=
       {| critical_breaking_changes := critical_breaking_changes c;
          removals := removals c;
          major_features := major_features c;
          important_fixes := important_fixes c;
          new_slash_commands := new_slash;
          terminal_improvements := terminal;
          api_changes := api |};
     action_items := action_items data; sentiment := sentiment data |}.

(** The list item of a removal. *)
Definition removal_item (r : Removal) : list N :=
  js "<li><strong>" ++ removal_feature r ++ js "</strong> ("
    ++ removal_severity r ++ js "): " ++ removal_why r ++ js "</li>".

(** The columns of a source the pipeline never writes. *)
Definition source_identity (s : ChangelogSource) : list N * list N * list N * bool :=
  (src_id s, src_name s, src_url s, src_is_active s).

(** What a row of the history records, whatever its flag. *)
Definition row_identity (r : HistoryRow) : list N * N * option (list N) :=
  (hist_version r, hist_detected_at r, hist_source_id r).

(** What the pipeline may do to a database: [d'] has the settings and the
    audio cache of [d], the same sources up to [last_version] and
    [last_checked_at], and the rows of the history of [d], up to their
    flags, followed by new ones. *)
Definition pipeline_frame (d d' : Db) : Prop :=
  settings d' = settings d
  /\ audio_cache d' = audio_cache d
  /\ map source_identity (changelog_sources d')
     = map source_identity (changelog_sources d)
  /\ exists added,
       map row_identity (changelog_history d')
       = map row_identity (changelog_history d) ++ added.

(** *** A small installation, for the examples *)

Definition demo_markdown : list N :=
  join [LF] [js "# Changelog"; js "## 2.0.74"; js "Fix: bar"; js "## 2.0.73"; js "..."].

Definition demo_source : ChangelogSource :=
  {| src_id := js "src_claude_code"; src_name := js "Claude Code";
     src_url := js "https://example.com/CHANGELOG.md"; src_is_active := true;
     src_last_version := None; src_last_checked_at := None |}.

Definition offline_source : ChangelogSource :=
  {| src_id := js "src_offline"; src_name := js "Offline";
     src_url := js "https://example.com/offline.md"; src_is_active := true;
     src_last_version := None; src_last_checked_at := None |}.

Definition demo_analysis : ChangelogEmailRequest :=
  {| version := []; tldr := js "Bar is fixed.";
     categories := {| critical_breaking_changes := []; removals := [];
                      major_features := []; important_fixes := [js "bar"];
                      new_slash_commands := []; terminal_improvements := [];
                      api_changes := [] |};
     action_items := []; sentiment := js "positive" |}.

(** Every service answers; only the URL of [demo_source] can be fetched. *)
Definition demo_env : Env :=
  {| GEMINI_API_KEY := Some (js "gemini-key");
     RESEND_API_KEY := Some (js "resend-key");
     NOTIFY_EMAIL := Some (js "me@example.com");
     http_get := fun _ url =>
       if str_eqb url (src_url demo_source)
       then Returned {| resp_ok := true; resp_status := 200; resp_body := demo_markdown |}
       else Thrown (js "fetch failed");
     gemini_analyze := fun _ _ => Returned (Some demo_analysis);
     gemini_tts := fun _ _ _ => Returned (Some [0; 1; 2; 3]);
     resend_post := fun _ _ => Returned true;
     CURRENT_TIMESTAMP := fun _ => 1700000000%N |}.

(** Two active sources, an empty history, and the notification flag. *)
Definition demo_world (enabled : list N) : World :=
  {| db := {| audio_cache := [];
              settings := {[ js "emailNotificationsEnabled" := enabled ]};
              changelog_history := [];
              changelog_sources := [offline_source; demo_source] |};
     calls := []; console := [] |}.

(** The demo installation after version 2.0.74 was recorded for another
    source. *)
Definition shadowed_world : World :=
  {| db := {| audio_cache := [];
              settings := {[ js "emailNotificationsEnabled" := js "true" ]};
              changelog_history :=
                [{| hist_version := js "2.0.74"; hist_detected_at := 1600000000%N;
                    hist_notified := true; hist_source_id := Some (js "src_other") |}];
              changelog_sources := [demo_source] |};
     calls := []; console := [] |}.

(** The demo services without the key of the mail service. *)
Definition demo_env_no_mail : Env :=
  {| GEMINI_API_KEY := GEMINI_API_KEY demo_env;
     RESEND_API_KEY := None;
     NOTIFY_EMAIL := NOTIFY_EMAIL demo_env;
     http_get := http_get demo_env;
     gemini_analyze := gemini_analyze demo_env;
     gemini_tts := gemini_tts demo_env;
     resend_post := resend_post demo_env;
     CURRENT_TIMESTAMP := CURRENT_TIMESTAMP demo_env |}.

(** * Scheduler: [intervalToCron] *)

Section IntervalToCron.

Lemma minutes_eq (ms k : Z) :
  Qeq_bool (inject_Z ms / inject_Z 60000) (inject_Z k) = (ms =? k * 60000).
Proof.
  unfold Qeq_bool, Qdiv, Qmult, Qinv, inject_Z. cbn [Qnum Qden].
  change (Z.pos (1 * 60000)) with 60000.
  now rewrite !Z.mul_1_r.
Qed.

Lemma minutes_le0 (ms : Z) :
  Qle_bool (inject_Z ms / inject_Z 60000) (inject_Z 0) = (ms <=? 0).
Proof.
  unfold Qle_bool, Qdiv, Qmult, Qinv, inject_Z. cbn [Qnum Qden].
  now rewrite !Z.mul_1_r.
Qed.

(** Rounding the quotient by 60000 to the nearest integer, a tie going
    up, in integer arithmetic. *)
Lemma round_minutes (ms : Z) :
  Math_round (inject_Z ms / inject_Z 60000) = (ms + 30000) / 60000.
Proof.
  unfold Math_round, Qfloor, Qplus, Qdiv, Qmult, Qinv, inject_Z. cbn [Qnum Qden].
  change (Z.pos (1 * 60000 * 2)) with (60000 * 2).
  change (Z.pos (1 * 60000)) with 60000.
  replace (ms * 1 * 2 + 1 * 60000) with ((ms + 30000) * 2) by lia.
  apply Z.div_mul_cancel_r; lia.
Qed.

(** [intervalToCron] on an integer number of milliseconds, without
    rationals. *)
Lemma intervalToCron_integer (ms : Z) :
  intervalToCron ms =
    if ms <=? 0 then None
    else match List.find (fun row => ms =? fst row * 60000) cron_table with
         | Some row => Some (snd row)
         | None => Some (every_n_minutes (Z.max 1 ((ms + 30000) / 60000)))
         end.
Proof.
  unfold intervalToCron. cbv zeta.
  rewrite minutes_le0, !minutes_eq, round_minutes.
  destruct (ms <=? 0); [reflexivity|].
  unfold cron_table, List.find, fst, snd.
  repeat (match goal with |- context [ms =? ?k] => destruct (ms =? k) end;
          [reflexivity|]).
  reflexivity.
Qed.




(** A positive interval always yields an expression. *)
Lemma intervalToCron_positive (ms : Z) :
  0 < ms -> exists e, intervalToCron ms = Some e.
Proof.
  intros H. rewrite intervalToCron_integer.
  destruct (Z.leb_spec ms 0); [lia|].
  destruct (List.find _ cron_table); eauto.
Qed.

End IntervalToCron.




(** * VersionParser: the header expression *)

Section Regex.

Context {R : Type}.

Lemma span_app (p : N -> bool) (s : list N) : fst (span p s) ++ snd (span p s) = s.
Proof.
  induction s as [|c rest IH]; [reflexivity|]. cbn [span].
  destruct (p c); [|reflexivity]. destruct (span p rest) as [run tl]. cbn in *. now rewrite IH.
Qed.

(** A greedy run gives nothing back when the continuation fails on every
    input that starts inside the run, or succeeds after the whole run. *)
Lemma greedy_star_span (class : N -> bool) (s : list N) (k : list N -> option R) :
  (forall c rest, class c = true -> k (c :: rest) = None)
  \/ is_Some (k (snd (span class s))) ->
  greedy_star class s k = k (snd (span class s)).
Proof.
  intros Hk. induction s as [|c rest IH]; [reflexivity|].
  cbn [greedy_star span] in *. destruct (class c) eqn:Hc; [|reflexivity].
  destruct (span class rest) as [run tl] eqn:Hspan. cbn [snd] in *.
  rewrite IH by assumption.
  destruct (k tl) as [m|] eqn:Hm; [reflexivity|].
  destruct Hk as [Hfail|[m Hsome]]; [now apply Hfail | discriminate].
Qed.

Lemma exec_plus (class : N -> bool) (s : list N) (cap : option (list N))
    (k : list N -> option (list N) -> option R) :
  (forall c rest, class c = true -> k (c :: rest) cap = None)
  \/ is_Some (k (snd (span class s)) cap) ->
  exec (Plus class) s cap k
  = match many1 class s with
    | Some (_, tl) => k tl cap
    | None => None
    end.
Proof.
  intros Hk. unfold many1. cbn [exec]. destruct s as [|c rest]; [reflexivity|].
  cbn [span]. destruct (class c) eqn:Hc; [|reflexivity].
  destruct (span class rest) as [run tl] eqn:Hspan. cbn [truthy].
  rewrite greedy_star_span; [now rewrite Hspan|].
  destruct Hk as [Hfail|Hsome]; [left; intros; now apply Hfail|].
  right. cbn [span] in Hsome. rewrite Hc, Hspan in Hsome. now rewrite Hspan.
Qed.

End Regex.

Section HeaderRegex.

Ltac class_facts :=
  repeat match goal with
    | H : (_ || _) = true |- _ => apply orb_true_iff in H as [H|H]
    | H : (_ && _) = true |- _ => apply andb_true_iff in H as [? ?]
    | H : (_ <=? _)%N = true |- _ => apply N.leb_le in H
    | H : N.eqb _ _ = true |- _ => apply N.eqb_eq in H
    end.

Lemma space_not_bracket (c : N) : is_space c = true -> N.eqb 91 c = false.
Proof. unfold is_space. intros H. apply N.eqb_neq. class_facts; lia. Qed.

Lemma space_not_digit (c : N) : is_space c = true -> is_digit c = false.
Proof.
  unfold is_space, is_digit. intros H. apply not_true_is_false. intros Hd.
  class_facts; lia.
Qed.

Lemma digit_not_dot (c : N) : is_digit c = true -> N.eqb 46 c = false.
Proof. unfold is_digit. intros H. apply N.eqb_neq. class_facts; lia. Qed.

Lemma many1_app (p : N -> bool) (s run tl : list N) :
  many1 p s = Some (run, tl) -> s = run ++ tl.
Proof.
  unfold many1. pose proof (span_app p s) as Happ.
  destruct (span p s) as [r t]. destruct (truthy r); [|discriminate].
  intros [= <- <-]. now symmetry.
Qed.

Lemma many1_fails (p : N -> bool) (c : N) (s : list N) :
  p c = false -> many1 p (c :: s) = None.
Proof. intros H. unfold many1. cbn [span]. now rewrite H. Qed.

Lemma take_consumed (consumed tl : list N) :
  take (length (consumed ++ tl) - length tl) (consumed ++ tl) = consumed.
Proof.
  rewrite length_app. replace (length consumed + length tl - length tl)%nat
    with (length consumed) by lia.
  now rewrite take_app_length.
Qed.

Lemma exec_seq {R} (r1 r2 : regex) (s : list N) (cap : option (list N))
    (k : list N -> option (list N) -> option R) :
  exec (r1 · r2)%regex s cap k = exec r1 s cap (fun s' cap' => exec r2 s' cap' k).
Proof. reflexivity. Qed.

Lemma exec_group {R} (r : regex) (s : list N) (cap : option (list N))
    (k : list N -> option (list N) -> option R) :
  exec (Group r) s cap k
  = exec r s cap (fun s' _ => k s' (Some (take (length s - length s') s))).
Proof. reflexivity. Qed.

Lemma exec_opt {R} (r : regex) (s : list N) (cap : option (list N))
    (k : list N -> option (list N) -> option R) :
  exec (Opt r) s cap k
  = match exec r s cap k with Some m => Some m | None => k s cap end.
Proof. reflexivity. Qed.

Lemma exec_chr {R} (c : N) (s : list N) (cap : option (list N))
    (k : list N -> option (list N) -> option R) :
  exec (Chr c) s cap k
  = match s with
    | c' :: rest => if N.eqb c c' then k rest cap else None
    | [] => None
    end.
Proof. reflexivity. Qed.

Lemma close_bracket (s : list N) (x : list N) :
  exec (Opt (Chr 93)) s (Some x) (fun _ cap => Some (default [] cap)) = Some x.
Proof.
  rewrite exec_opt, exec_chr. destruct s as [|c rest]; [reflexivity|].
  now destruct (N.eqb 93 c).
Qed.

Lemma exec_after_bracket (s : list N) :
  exec after_bracket s None (fun _ cap => Some (default [] cap)) = token_after_bracket s.
Proof.
  unfold after_bracket, token_after_bracket.
  rewrite exec_seq, exec_group, exec_seq, exec_plus.
  2:{ left. intros c rest Hc. cbn [exec]. now rewrite (digit_not_dot c Hc). }
  destruct (many1 is_digit s) as [[major r2]|] eqn:Hmajor; [|reflexivity].
  apply many1_app in Hmajor as ->. cbn [mbind option_bind].
  rewrite exec_seq, exec_chr.
  destruct r2 as [|dot1 r3]; [reflexivity|].
  cbn [strip_prefix js list_ascii_of_string map].
  change (N_of_ascii ".") with 46%N.
  destruct (N.eqb 46 dot1) eqn:Hdot1; [|reflexivity].
  apply N.eqb_eq in Hdot1 as <-. cbn [mbind option_bind].
  rewrite exec_seq, exec_plus.
  2:{ left. intros c rest Hc. cbn [exec]. now rewrite (digit_not_dot c Hc). }
  destruct (many1 is_digit r3) as [[minor r4]|] eqn:Hminor; [|reflexivity].
  apply many1_app in Hminor as ->. cbn [mbind option_bind].
  rewrite exec_seq, exec_chr.
  destruct r4 as [|dot2 r5]; [reflexivity|].
  destruct (N.eqb 46 dot2) eqn:Hdot2; [|reflexivity].
  apply N.eqb_eq in Hdot2 as <-. cbn [mbind option_bind].
  rewrite exec_seq, exec_plus.
  2:{ right. rewrite exec_opt.
      match goal with |- is_Some (match ?x with _ => _ end) => destruct x end;
        [eauto|]. rewrite exec_opt.
      match goal with |- is_Some (match ?x with _ => _ end) => destruct x end; eauto. }
  destruct (many1 is_digit r5) as [[patch r6]|] eqn:Hpatch; [|reflexivity].
  apply many1_app in Hpatch as ->. cbn [mbind option_bind].
  set (consumed := major ++ [46%N] ++ minor ++ [46%N] ++ patch).
  assert (Hsplit : forall tl, major ++ 46%N :: minor ++ 46%N :: patch ++ tl = consumed ++ tl).
  { intros tl. unfold consumed. now rewrite <- !app_assoc. }
  assert (Htoken : forall pre, major ++ [46%N] ++ minor ++ [46%N] ++ patch ++ pre
                               = consumed ++ pre).
  { intros pre. unfold consumed. now rewrite <- !app_assoc. }
  rewrite Hsplit, Htoken.
  rewrite exec_opt, exec_seq, exec_chr. unfold prerelease.
  destruct r6 as [|dash tl].
  { rewrite close_bracket, take_consumed. cbn [strip_prefix js list_ascii_of_string map].
    now rewrite app_nil_r. }
  cbn [strip_prefix js list_ascii_of_string map]. change (N_of_ascii "-") with 45%N.
  destruct (N.eqb 45 dash) eqn:Hdash.
  - apply N.eqb_eq in Hdash as <-.
    rewrite exec_plus.
    2:{ right. rewrite close_bracket. eauto. }
    destruct (many1 is_prerelease_char tl) as [[run rest]|] eqn:Hrun.
    + apply many1_app in Hrun as ->. rewrite close_bracket.
      replace (consumed ++ 45%N :: run ++ rest) with ((consumed ++ 45%N :: run) ++ rest)
        by now rewrite <- app_assoc.
      now rewrite take_consumed.
    + now rewrite close_bracket, take_consumed, app_nil_r.
  - now rewrite close_bracket, take_consumed, app_nil_r.
Qed.

Lemma versionMatch_header_token (line : list N) : versionMatch line = header_token line.
Proof.
  unfold header_token, versionMatch.
  change VERSION_HEADER
    with (Chr 35 · Chr 35 · Plus is_space · Opt (Chr 91) · after_bracket)%regex.
  rewrite exec_seq, exec_chr.
  destruct line as [|c1 line]; [reflexivity|].
  cbn [strip_prefix js list_ascii_of_string map]. change (N_of_ascii "#") with 35%N.
  destruct (N.eqb 35 c1); [|reflexivity].
  rewrite exec_seq, exec_chr.
  destruct line as [|c2 r0]; [reflexivity|].
  destruct (N.eqb 35 c2); [|reflexivity].
  cbn [mbind option_bind].
  rewrite exec_seq, exec_plus.
  2:{ left. intros c rest Hc. rewrite exec_seq, exec_opt, exec_chr.
      rewrite (space_not_bracket c Hc). rewrite exec_after_bracket.
      unfold token_after_bracket. now rewrite many1_fails by now apply space_not_digit. }
  destruct (many1 is_space r0) as [[ws r1]|]; [|reflexivity].
  cbn [mbind option_bind].
  rewrite exec_seq, exec_opt, exec_chr. unfold optional.
  destruct r1 as [|bracket r1']; [now rewrite exec_after_bracket|].
  cbn [strip_prefix js list_ascii_of_string map]. change (N_of_ascii "[") with 91%N.
  destruct (N.eqb 91 bracket) eqn:Hb.
  - apply N.eqb_eq in Hb as <-. rewrite !exec_after_bracket.
    destruct (token_after_bracket r1') as [v|] eqn:Hv; [reflexivity|].
    unfold token_after_bracket. now rewrite many1_fails.
  - now rewrite exec_after_bracket.
Qed.

End HeaderRegex.

(** The header expression on some lines. *)
Example versionMatch_plain : versionMatch (js "## 2.0.74") = Some (js "2.0.74").
Proof. reflexivity. Qed.

Example versionMatch_bracketed :
  versionMatch (js "## [1.2.3-beta.1] - 2024-01-01") = Some (js "1.2.3-beta.1").
Proof. reflexivity. Qed.

Example versionMatch_dangling_dash : versionMatch (js "## 1.0.0-") = Some (js "1.0.0").
Proof. reflexivity. Qed.

Example versionMatch_needs_space : versionMatch (js "##1.0.0") = None.
Proof. reflexivity. Qed.

Example versionMatch_not_h3 : versionMatch (js "### 1.0.0") = None.
Proof. reflexivity. Qed.

Example versionMatch_needs_patch : versionMatch (js "## 1.0") = None.
Proof. reflexivity. Qed.

(** * VersionParser: [parseLatestVersion] *)

Section VersionParser.

(** A line that is no version header. *)
Local Abbreviation no_header := (fun line => versionMatch line = None).

Lemma many1_truthy (p : N -> bool) (s run tl : list N) :
  many1 p s = Some (run, tl) -> truthy run = true.
Proof.
  unfold many1. destruct (span p s) as [r t].
  destruct (truthy r) eqn:Hr; [|discriminate].
  now intros [= <- <-].
Qed.

(** The token of a header is never empty, so [version ? ... : null] tells
    whether a header was seen. *)
Lemma versionMatch_truthy (line v : list N) :
  versionMatch line = Some v -> truthy v = true.
Proof.
  rewrite versionMatch_header_token. unfold header_token. intros H.
  destruct (strip_prefix (js "##") line) as [r0|]; [|discriminate].
  cbn [mbind option_bind] in H.
  destruct (many1 is_space r0) as [[ws r1]|]; [|discriminate].
  cbn [mbind option_bind] in H. unfold token_after_bracket in H.
  destruct (many1 is_digit (optional (js "[") r1)) as [[major r2]|] eqn:Hmajor;
    [|discriminate].
  cbn [mbind option_bind] in H.
  destruct (strip_prefix (js ".") r2) as [r3|]; [|discriminate].
  cbn [mbind option_bind] in H.
  destruct (many1 is_digit r3) as [[minor r4]|]; [|discriminate].
  cbn [mbind option_bind] in H.
  destruct (strip_prefix (js ".") r4) as [r5|]; [|discriminate].
  cbn [mbind option_bind] in H.
  destruct (many1 is_digit r5) as [[patch r6]|]; [|discriminate].
  cbn [mbind option_bind] in H.
  injection H as <-.
  apply many1_truthy in Hmajor.
  destruct major; [discriminate | reflexivity].
Qed.

(** Before the first header nothing is captured. *)
Lemma parse_loop_skip (lines : list (list N)) (st : ParseState) :
  ps_capturing st = false ->
  Forall no_header lines ->
  parse_loop lines st = st.
Proof.
  intros Hcap Hall. induction Hall as [|line rest Hline _ IH]; [reflexivity|].
  cbn [parse_loop]. now rewrite Hline, Hcap.
Qed.

(** While capturing, the lines that are no header are appended. *)
Lemma parse_loop_capture (block after : list (list N)) (v : list N)
    (content : list (list N)) :
  Forall no_header block ->
  parse_loop (block ++ after)
    {| ps_version := v; ps_content := content; ps_capturing := true |}
  = parse_loop after
      {| ps_version := v; ps_content := content ++ block; ps_capturing := true |}.
Proof.
  intros Hall. revert content.
  induction Hall as [|line rest Hline _ IH]; intros content.
  - now rewrite app_nil_r.
  - cbn [app parse_loop ps_capturing ps_version ps_content]. rewrite Hline.
    rewrite IH. now rewrite <- app_assoc.
Qed.

(** While capturing, a header or the end of the document ends the loop. *)
Lemma parse_loop_stop (after : list (list N)) (st : ParseState) :
  ps_capturing st = true ->
  after = [] \/ (exists second rest, after = second :: rest
                                      /\ is_Some (versionMatch second)) ->
  parse_loop after st = st.
Proof.
  intros Hcap [->|(second & rest & -> & [v2 Hv2])]; [reflexivity|].
  cbn [parse_loop]. now rewrite Hv2, Hcap.
Qed.

Lemma parseLatestVersion_none (markdown : list N) :
  Forall no_header (split LF markdown) -> parseLatestVersion markdown = None.
Proof.
  intros Hall. unfold parseLatestVersion. cbv zeta.
  now rewrite parse_loop_skip.
Qed.

Lemma parseLatestVersion_some (markdown : list N)
    (before : list (list N)) (header v : list N) (block after : list (list N)) :
  split LF markdown = before ++ header :: block ++ after ->
  Forall no_header before ->
  versionMatch header = Some v ->
  Forall no_header block ->
  after = [] \/ (exists second rest, after = second :: rest
                                      /\ is_Some (versionMatch second)) ->
  parseLatestVersion markdown
  = Some {| entry_version := v; entry_content := join [LF] (header :: block) |}.
Proof.
  intros Hlines Hbefore Hheader Hblock Hafter.
  unfold parseLatestVersion. cbv zeta. rewrite Hlines.
  set (st0 := {| ps_version := []; ps_content := []; ps_capturing := false |}).
  assert (Hloop : parse_loop (before ++ header :: block ++ after) st0
                  = {| ps_version := v; ps_content := header :: block;
                       ps_capturing := true |}).
  { clear Hlines. induction Hbefore as [|line rest Hline _ IH].
    - cbn [app parse_loop]. rewrite Hheader. cbn [ps_capturing st0 ps_content app].
      rewrite parse_loop_capture by assumption.
      now apply parse_loop_stop.
    - cbn [app parse_loop]. now rewrite Hline. }
  rewrite Hloop. cbn [ps_version ps_content].
  now rewrite (versionMatch_truthy _ _ Hheader).
Qed.

(** Every document is of one of the two kinds: without a header, or with a
    first header, its block, and a second header or the end. *)
Lemma header_decomposition (lines : list (list N)) :
  Forall no_header lines
  \/ exists before header v block after,
       lines = before ++ header :: block ++ after
       /\ Forall no_header before
       /\ versionMatch header = Some v
       /\ Forall no_header block
       /\ (after = [] \/ exists second rest, after = second :: rest
                                              /\ is_Some (versionMatch second)).
Proof.
  assert (Hblock : forall ls : list (list N), exists block after,
             ls = block ++ after /\ Forall no_header block
             /\ (after = [] \/ exists second rest, after = second :: rest
                                                    /\ is_Some (versionMatch second))).
  { induction ls as [|l ls (block & after & -> & Hb & Ha)].
    - exists [], []. repeat split; auto.
    - destruct (versionMatch l) as [v|] eqn:Hl.
      + exists [], (l :: block ++ after). repeat split; auto.
        right. exists l, (block ++ after). split; [reflexivity|]. rewrite Hl. eauto.
      + exists (l :: block), after. repeat split; auto. }
  induction lines as [|l ls IH].
  - left. constructor.
  - destruct (versionMatch l) as [v|] eqn:Hl.
    + right. destruct (Hblock ls) as (block & after & -> & Hb & Ha).
      exists [], l, v, block, after. repeat split; auto.
    + destruct IH as [IH|(before & header & v & block & after & -> & Hb & Hh & Hbl & Ha)].
      * left. now constructor.
      * right. exists (l :: before), header, v, block, after. repeat split; auto.
Qed.

End VersionParser.

(** C2: a document without a version header parses to [null]; a document
    whose lines are some lines without header, a first header with token
    [v], a block of lines without header, and then either nothing or a
    second header and whatever follows it, parses to [{version: v,
    content}] where [content] is the first header and its block joined by
    newlines. *)
Theorem parseLatestVersion_spec (markdown : list N) :
  (Forall (fun line => versionMatch line = None) (split LF markdown) ->
   parseLatestVersion markdown = None)
  /\ (forall before header v block after,
        split LF markdown = before ++ header :: block ++ after ->
        Forall (fun line => versionMatch line = None) before ->
        versionMatch header = Some v ->
        Forall (fun line => versionMatch line = None) block ->
        after = [] \/ (exists second rest, after = second :: rest
                                            /\ is_Some (versionMatch second)) ->
        parseLatestVersion markdown
        = Some {| entry_version := v;
                  entry_content := join [LF] (header :: block) |}).
Proof.
  split.
  - apply parseLatestVersion_none.
  - intros. eapply parseLatestVersion_some; eauto.
Qed.

(** The scenario of the specification: the block of 2.0.74 stops before the
    header of 2.0.73, and the text before the first header is dropped. *)
Lemma parseLatestVersion_spec_witness :
  parseLatestVersion (js "# Changelog" ++ [LF] ++ js "## 2.0.74" ++ [LF]
                        ++ js "Fix: bar" ++ [LF] ++ js "## 2.0.73" ++ [LF] ++ js "...")
  = Some {| entry_version := js "2.0.74";
            entry_content := js "## 2.0.74" ++ [LF] ++ js "Fix: bar" |}
  /\ parseLatestVersion (js "no release yet") = None.
Proof.
  split.
  - apply (proj2 (parseLatestVersion_spec _)
             [js "# Changelog"] (js "## 2.0.74") (js "2.0.74") [js "Fix: bar"]
             [js "## 2.0.73"; js "..."]).
    + reflexivity.
    + repeat constructor.
    + reflexivity.
    + repeat constructor.
    + right. exists (js "## 2.0.73"), [js "..."]. split; [reflexivity|].
      exists (js "2.0.73"). reflexivity.
  - apply (proj1 (parseLatestVersion_spec _)). repeat constructor.
Defined.

(** * AudioCodec: [pcmToWav] *)

(** The header of an empty file, byte for byte. *)
Example pcmToWav_empty :
  pcmToWav []
  = Some [82; 73; 70; 70; 36; 0; 0; 0; 87; 65; 86; 69;       (* RIFF 36 WAVE *)
          102; 109; 116; 32; 16; 0; 0; 0; 1; 0; 1; 0;        (* fmt  16 1 1 *)
          192; 93; 0; 0; 128; 187; 0; 0; 2; 0; 16; 0;        (* 24000 48000 2 16 *)
          100; 97; 116; 97; 0; 0; 0; 0].                     (* data 0 *)
Proof. reflexivity. Qed.

Example base64_three_bytes : base64 (ascii_bytes (js "Man")) = js "TWFu".
Proof. reflexivity. Qed.

Example base64_padding : base64 (ascii_bytes (js "Ma")) = js "TWE=".
Proof. reflexivity. Qed.

Section AudioCodec.

Lemma writeUInt32LE_ok (v : Z) (off : nat) (buf : list Z) :
  0 <= v <= 4294967295 -> (off + 4 <= length buf)%nat ->
  writeUInt32LE v off buf = Some (overwrite off (le_bytes 4 v) buf).
Proof.
  intros Hv Hoff. unfold writeUInt32LE.
  destruct (Z.leb_spec 0 v); [|lia].
  destruct (Z.leb_spec v 4294967295); [|lia].
  destruct (Nat.leb_spec (off + 4) (length buf)); [|lia].
  reflexivity.
Qed.

Lemma writeUInt16LE_ok (v : Z) (off : nat) (buf : list Z) :
  0 <= v <= 65535 -> (off + 2 <= length buf)%nat ->
  writeUInt16LE v off buf = Some (overwrite off (le_bytes 2 v) buf).
Proof.
  intros Hv Hoff. unfold writeUInt16LE.
  destruct (Z.leb_spec 0 v); [|lia].
  destruct (Z.leb_spec v 65535); [|lia].
  destruct (Nat.leb_spec (off + 2) (length buf)); [|lia].
  reflexivity.
Qed.

Lemma Buffer_write_ok (s : list N) (off : nat) (buf : list Z) :
  (off <= length buf)%nat ->
  Buffer_write s off buf = Some (overwrite off (ascii_bytes s) buf).
Proof.
  intros Hoff. unfold Buffer_write.
  destruct (Nat.leb_spec off (length buf)); [reflexivity|lia].
Qed.

(** Within the range of the 32-bit size fields, the result is the header
    followed by the samples. *)
Lemma pcmToWav_header (pcm : list Z) :
  36 + Z.of_nat (length pcm) <= 4294967295 ->
  pcmToWav pcm = Some (wav_header (Z.of_nat (length pcm)) ++ pcm).
Proof.
  intros Hsize. unfold pcmToWav. cbv zeta.
  change (24000 * 1 * (16 / 8)) with 48000.
  change (1 * (16 / 8)) with 2.
  unfold Buffer_alloc.
  replace (Z.to_nat (44 + Z.of_nat (length pcm))) with (44 + length pcm)%nat by lia.
  rewrite replicate_add.
  assert (Hlen : length (replicate (length pcm) 0) = length pcm)
    by apply length_replicate.
  revert Hlen. generalize (replicate (length pcm) 0). intros tl Hlen.
  assert (Hpos : 0 <= Z.of_nat (length pcm)) by lia.
  revert Hsize Hpos. generalize (Z.of_nat (length pcm)). intros dataSize Hsize Hpos.
  cbn [replicate].
  repeat first
    [ rewrite Buffer_write_ok by (cbn [length]; lia)
    | rewrite writeUInt32LE_ok by (cbn [length]; lia)
    | rewrite writeUInt16LE_ok by (cbn [length]; lia)
    | rewrite take_nil
    | progress cbn [mbind option_bind overwrite take drop length app Nat.sub Nat.add
                    le_bytes ascii_bytes js map list_ascii_of_string] ].
  unfold Buffer_copy, overwrite. change (Z.to_nat 44) with 44%nat.
  cbn [take drop length app Nat.sub Nat.add].
  rewrite !drop_0, take_0, Nat.sub_0_r, Hlen, take_ge, drop_ge by lia.
  rewrite app_nil_r. reflexivity.
Qed.

Lemma writeUInt32LE_out_of_range (v : Z) (off : nat) (buf : list Z) :
  4294967295 < v -> writeUInt32LE v off buf = None.
Proof.
  intros Hv. unfold writeUInt32LE.
  destruct (Z.leb_spec v 4294967295); [lia|].
  now rewrite andb_false_r.
Qed.

(** Beyond that range the first size field cannot be written. *)
Lemma pcmToWav_overflow (pcm : list Z) :
  4294967295 < 36 + Z.of_nat (length pcm) -> pcmToWav pcm = None.
Proof.
  intros Hsize. unfold pcmToWav. cbv zeta.
  rewrite Buffer_write_ok by lia. cbn [mbind option_bind].
  now rewrite writeUInt32LE_out_of_range.
Qed.

(** Little-endian bytes decode to the value they were made from. *)
Lemma uint_le_le_bytes (n : nat) (v : Z) :
  0 <= v -> uint_le (le_bytes n v) = v mod 256 ^ Z.of_nat n.
Proof.
  revert v. induction n as [|n IH]; intros v Hv.
  - cbn. now rewrite Z.mod_1_r.
  - cbn [le_bytes uint_le].
    rewrite IH by (apply Z.shiftr_nonneg; lia).
    change 255 with (Z.ones 8). rewrite Z.land_ones by lia.
    rewrite Z.shiftr_div_pow2 by lia.
    change (2 ^ 8) with 256.
    rewrite Nat2Z.inj_succ, Z.pow_succ_r by lia.
    now rewrite Z.rem_mul_r by lia.
Qed.

Lemma uint_le_le_bytes_4 (v : Z) :
  0 <= v <= 4294967295 -> uint_le (le_bytes 4 v) = v.
Proof.
  intros Hv. rewrite uint_le_le_bytes by lia.
  change (256 ^ Z.of_nat 4) with 4294967296. apply Z.mod_small. lia.
Qed.

End AudioCodec.

(** C7, as the claim states it, fails for an input of 2^32 - 36 bytes: the
    RIFF chunk size 36 + N is then 2^32, which four bytes cannot encode, and
    [pcmToWav] returns no buffer (the write of the size field throws). *)
Lemma pcmToWav_4GiB_input_throws :
  Z.of_nat (length (replicate (Z.to_nat 4294967260) 0)) = 4294967260
  /\ pcmToWav (replicate (Z.to_nat 4294967260) 0) = None.
Proof.
  assert (Hlen : Z.of_nat (length (replicate (Z.to_nat 4294967260) 0)) = 4294967260).
  { rewrite length_replicate. apply Z2Nat.id. lia. }
  split; [exact Hlen|].
  apply pcmToWav_overflow. rewrite Hlen. lia.
Qed.

(** C7, amended: for every PCM input of N bytes with 36 + N at most
    2^32 - 1 (the range of the header's size fields), [pcmToWav] returns a
    buffer of exactly 44 + N bytes in which bytes [0:4] are "RIFF", bytes
    [4:8] encode 36 + N little-endian, bytes [8:12] are "WAVE", the fmt
    subchunk (of declared size 16) declares PCM format code 1, 1 channel,
    24000 Hz, byte rate 48000, block align 2 and 16 bits per sample, the
    data-chunk size at bytes [40:44] is N, and the final N bytes are the
    input unmodified. *)
Theorem pcmToWav_spec (pcm : list Z) :
  36 + Z.of_nat (length pcm) <= 4294967295 ->
  exists wav,
    pcmToWav pcm = Some wav
    /\ length wav = (44 + length pcm)%nat
    /\ slice 0 4 wav = ascii_bytes (js "RIFF")
    /\ uint_le (slice 4 8 wav) = 36 + Z.of_nat (length pcm)
    /\ slice 8 12 wav = ascii_bytes (js "WAVE")
    /\ slice 12 16 wav = ascii_bytes (js "fmt ")
    /\ uint_le (slice 16 20 wav) = 16
    /\ uint_le (slice 20 22 wav) = 1
    /\ uint_le (slice 22 24 wav) = 1
    /\ uint_le (slice 24 28 wav) = 24000
    /\ uint_le (slice 28 32 wav) = 48000
    /\ uint_le (slice 32 34 wav) = 2
    /\ uint_le (slice 34 36 wav) = 16
    /\ slice 36 40 wav = ascii_bytes (js "data")
    /\ uint_le (slice 40 44 wav) = Z.of_nat (length pcm)
    /\ drop 44 wav = pcm.
Proof.
  intros Hsize. exists (wav_header (Z.of_nat (length pcm)) ++ pcm).
  split; [now apply pcmToWav_header|].
  split; [rewrite length_app; reflexivity|].
  split; [reflexivity|].
  split.
  { change (slice 4 8 (wav_header (Z.of_nat (length pcm)) ++ pcm))
      with (le_bytes 4 (36 + Z.of_nat (length pcm))).
    apply uint_le_le_bytes_4. lia. }
  do 10 (split; [reflexivity|]).
  split; [|reflexivity].
  change (slice 40 44 (wav_header (Z.of_nat (length pcm)) ++ pcm))
    with (le_bytes 4 (Z.of_nat (length pcm))).
  apply uint_le_le_bytes_4. lia.
Qed.

(** A four-byte input: the header announces 40 and 4, and the samples
    follow it. *)
Lemma pcmToWav_spec_witness :
  exists wav,
    pcmToWav [1; 2; 254; 255] = Some wav
    /\ length wav = 48%nat
    /\ slice 0 4 wav = ascii_bytes (js "RIFF")
    /\ uint_le (slice 4 8 wav) = 40
    /\ slice 8 12 wav = ascii_bytes (js "WAVE")
    /\ slice 12 16 wav = ascii_bytes (js "fmt ")
    /\ uint_le (slice 16 20 wav) = 16
    /\ uint_le (slice 20 22 wav) = 1
    /\ uint_le (slice 22 24 wav) = 1
    /\ uint_le (slice 24 28 wav) = 24000
    /\ uint_le (slice 28 32 wav) = 48000
    /\ uint_le (slice 32 34 wav) = 2
    /\ uint_le (slice 34 36 wav) = 16
    /\ slice 36 40 wav = ascii_bytes (js "data")
    /\ uint_le (slice 40 44 wav) = 4
    /\ drop 44 wav = [1; 2; 254; 255].
Proof.
  apply (pcmToWav_spec [1; 2; 254; 255]). cbn. lia.
Defined.

(** * History store: [saveVersion] *)

Section HistoryStore.

Lemma str_eqb_eq (a b : list N) : str_eqb a b = true <-> a = b.
Proof. unfold str_eqb. apply bool_decide_eq_true. Qed.

Lemma str_eqb_refl (a : list N) : str_eqb a a = true.
Proof. now apply str_eqb_eq. Qed.

Lemma of_source_eq (sid : list N) (r : HistoryRow) :
  of_source sid r = true <-> hist_source_id r = Some sid.
Proof. unfold of_source. apply bool_decide_eq_true. Qed.

(** Recording a version the history knows, for any source, changes no row
    of the history: the insert is keyed on the version alone. *)
Lemma saveVersion_known (v sid : list N) (now : N) (d : Db) :
  known_version v (changelog_history d) = true ->
  changelog_history (saveVersion v sid now d) = changelog_history d.
Proof.
  intros Hk. unfold saveVersion, insert_or_ignore_history. cbn.
  unfold known_version in Hk. now rewrite Hk.
Qed.

(** Recording a version the history does not know appends its row. *)
Lemma saveVersion_fresh (v sid : list N) (now : N) (d : Db) :
  known_version v (changelog_history d) = false ->
  changelog_history (saveVersion v sid now d)
  = changelog_history d
      ++ [{| hist_version := v; hist_detected_at := now;
             hist_notified := false; hist_source_id := Some sid |}].
Proof.
  intros Hk. unfold saveVersion, insert_or_ignore_history. cbn.
  unfold known_version in Hk. now rewrite Hk.
Qed.

Lemma has_row_known (v sid : list N) (h : list HistoryRow) :
  has_row v sid h = true -> known_version v h = true.
Proof.
  unfold has_row, known_version. rewrite !existsb_exists.
  intros (r & Hin & Hr). exists r. split; [assumption|].
  now apply andb_true_iff in Hr as [Hr _].
Qed.

(** The part of C1 that holds: re-inserting a pair that is present leaves
    the history as it is. *)
Lemma saveVersion_again (v sid : list N) (now : N) (d : Db) :
  has_row v sid (changelog_history d) = true ->
  changelog_history (saveVersion v sid now d) = changelog_history d.
Proof. intros H. apply saveVersion_known. exact (has_row_known v sid _ H). Qed.

(** The part of C1 that fails: once a version is recorded for one source,
    recording it for another source adds nothing, so the second pair never
    gets a row. *)
Lemma saveVersion_second_source (v s1 s2 : list N) (t1 t2 : N) (d : Db) :
  s1 <> s2 ->
  known_version v (changelog_history d) = false ->
  let d1 := saveVersion v s1 t1 d in
  let d2 := saveVersion v s2 t2 d1 in
  changelog_history d2 = changelog_history d1
  /\ has_row v s1 (changelog_history d2) = true
  /\ has_row v s2 (changelog_history d2) = false.
Proof.
  intros Hne Hfresh d1 d2.
  assert (H1 : changelog_history d1
               = changelog_history d
                   ++ [{| hist_version := v; hist_detected_at := t1;
                          hist_notified := false; hist_source_id := Some s1 |}])
    by exact (saveVersion_fresh v s1 t1 d Hfresh).
  assert (Hk1 : known_version v (changelog_history d1) = true).
  { rewrite H1. unfold known_version. rewrite existsb_app. cbn.
    rewrite str_eqb_refl. now rewrite orb_true_r. }
  assert (H2 : changelog_history d2 = changelog_history d1)
    by exact (saveVersion_known v s2 t2 d1 Hk1).
  split; [assumption|]. rewrite H2, H1. unfold has_row. rewrite !existsb_app. cbn.
  rewrite str_eqb_refl. cbn.
  split.
  - replace (of_source s1 _) with true; [now rewrite orb_true_r|].
    symmetry. now apply of_source_eq.
  - replace (of_source s2 _) with false.
    + rewrite !orb_false_r.
      apply not_true_is_false. intros Hex. apply existsb_exists in Hex as (r & Hin & Hr).
      apply andb_true_iff in Hr as [Hr _].
      assert (known_version v (changelog_history d) = true); [|congruence].
      unfold known_version. apply existsb_exists. eauto.
    + symmetry. apply not_true_is_false. intros Hs. apply of_source_eq in Hs.
      cbn in Hs. congruence.
Qed.

End HistoryStore.

(** C1 at its failing input: on an empty history, version 1.0.0 is recorded
    for source [src_a] and then for source [src_b]. The second call changes
    no row: the history holds the row of [(1.0.0, src_a)] and no row for
    [(1.0.0, src_b)], and [src_b] still has no last known version. *)
Theorem saveVersion_one_row_per_version :
  let d1 := saveVersion (js "1.0.0") (js "src_a") 100 empty_db in
  let d2 := saveVersion (js "1.0.0") (js "src_b") 200 d1 in
  changelog_history d2
  = [{| hist_version := js "1.0.0"; hist_detected_at := 100%N;
        hist_notified := false; hist_source_id := Some (js "src_a") |}]
  /\ has_row (js "1.0.0") (js "src_a") (changelog_history d2) = true
  /\ has_row (js "1.0.0") (js "src_b") (changelog_history d2) = false
  /\ getLastKnownVersion (Some (js "src_b")) d2 = None.
Proof. repeat split. Qed.

(** * Audio cache *)

Section AudioCacheFacts.

Variable Buffer_from_base64 : list N -> list Z.

(** A save under an id the cache does not hold adds a row and replaces
    none, also when the pair [(textHash, voice)] already has rows. *)
Lemma post_audio_appends (Date_now : Z) (now : N) (textHash voice audioData : list N)
    (d : Db) :
  truthy textHash = true -> truthy voice = true -> truthy audioData = true ->
  let id := textHash ++ js "_" ++ voice ++ js "_" ++ number_to_string Date_now in
  existsb (fun r => str_eqb (audio_id r) id) (audio_cache d) = false ->
  audio_cache (snd (post_audio Buffer_from_base64 Date_now now
                      {| post_textHash := Some textHash; post_voice := Some voice;
                         post_audioData := Some audioData |} d))
  = audio_cache d
      ++ [{| audio_id := id; audio_text_hash := textHash; audio_voice := voice;
             audio_data := Buffer_from_base64 audioData; audio_created_at := now |}].
Proof.
  intros Hh Hv Ha id Hfresh. unfold post_audio.
  cbn [post_textHash post_voice post_audioData].
  rewrite Hh, Hv, Ha. cbn [andb snd audio_cache set_audio_cache].
  unfold insert_or_replace_audio. cbn [audio_id]. fold id. f_equal.
  clear -Hfresh. induction (audio_cache d) as [|r rows IH]; [reflexivity|].
  cbn [existsb List.filter] in *. apply orb_false_iff in Hfresh as [Hr Hrows].
  rewrite Hr. cbn [negb]. now rewrite IH.
Qed.

(** The lookup keeps answering with the oldest row of the pair. *)
Lemma get_audio_oldest (textHash voice : list N) (row : AudioRow) (d : Db) (data : list Z) :
  get_audio textHash voice d = Some data ->
  get_audio textHash voice (set_audio_cache (audio_cache d ++ [row]) d) = Some data.
Proof.
  unfold get_audio, audio_rows. cbn. rewrite List.filter_app.
  destruct (List.filter _ (audio_cache d)); [discriminate|]. now cbn.
Qed.

End AudioCacheFacts.

(** C9 at its failing input: audio is saved for the pair [(h, Charon)] at
    time 1000 and saved again, with another payload, at time 2000. The
    second save adds a row under a new id instead of overwriting: the pair
    has two entries, and the lookup still returns the first payload, not
    the most recently saved one. *)
Theorem post_audio_keeps_both (Buffer_from_base64 : list N -> list Z) :
  let first := {| post_textHash := Some (js "h"); post_voice := Some (js "Charon");
                  post_audioData := Some (js "AAAA") |} in
  let second := {| post_textHash := Some (js "h"); post_voice := Some (js "Charon");
                   post_audioData := Some (js "BBBB") |} in
  let d1 := snd (post_audio Buffer_from_base64 1000 1 first empty_db) in
  let d2 := snd (post_audio Buffer_from_base64 2000 2 second d1) in
  map audio_id (audio_rows (js "h") (js "Charon") d2)
  = [js "h_Charon_1000"; js "h_Charon_2000"]
  /\ map audio_data (audio_rows (js "h") (js "Charon") d2)
     = [Buffer_from_base64 (js "AAAA"); Buffer_from_base64 (js "BBBB")]
  /\ get_audio (js "h") (js "Charon") d2 = Some (Buffer_from_base64 (js "AAAA")).
Proof. repeat split. Qed.

(** * Scheduler state and the settings endpoint *)

(** [parseInt] on some stored values. *)
Example parseInt_decimal : parseInt (js "3600000") = Some 3600000.
Proof. reflexivity. Qed.

Example parseInt_prefix : parseInt (js "  42px") = Some 42.
Proof. reflexivity. Qed.

Example parseInt_hex : parseInt (js "0x10") = Some 16.
Proof. reflexivity. Qed.

Example parseInt_negative : parseInt (js "-5") = Some (-5).
Proof. reflexivity. Qed.

Example parseInt_NaN : parseInt (js "true") = None.
Proof. reflexivity. Qed.

Section Scheduler.








End Scheduler.



(** * Reasoning about computations *)

Section Ensures.

Context {A B : Type}.

Lemma ensures_ret (a : A) (w : World) (Q : outcome A -> World -> Prop) :
  Q (Returned a) w -> ensures (mret a) w Q.
Proof. exact id. Qed.

Lemma ensures_throw (e : list N) (w : World) (Q : outcome A -> World -> Prop) :
  Q (Thrown e) w -> ensures (throw e) w Q.
Proof. exact id. Qed.

Lemma ensures_bind (m : M A) (f : A -> M B) (w : World) (Q : outcome B -> World -> Prop) :
  ensures m w (fun r w' => match r with
                           | Returned a => ensures (f a) w' Q
                           | Thrown e => Q (Thrown e) w'
                           end) ->
  ensures (m ≫= f) w Q.
Proof.
  unfold ensures, mbind, M_bind. destruct (m w) as [[a|e] w']; exact id.
Qed.

Lemma ensures_try_catch (body : M A) (handler : list N -> M A) (w : World)
    (Q : outcome A -> World -> Prop) :
  ensures body w (fun r w' => match r with
                              | Returned a => Q (Returned a) w'
                              | Thrown e => ensures (handler e) w' Q
                              end) ->
  ensures (try_catch body handler) w Q.
Proof.
  unfold ensures, try_catch. destruct (body w) as [[a|e] w']; exact id.
Qed.

Lemma ensures_query (q : Db -> A) (w : World) (Q : outcome A -> World -> Prop) :
  Q (Returned (q (db w))) w -> ensures (query q) w Q.
Proof. exact id. Qed.

Lemma ensures_request (answer : list call -> outcome A) (record : outcome A -> call)
    (w : World) (Q : outcome A -> World -> Prop) :
  Q (answer (calls w)) (add_call (record (answer (calls w))) w) ->
  ensures (request answer record) w Q.
Proof. exact id. Qed.

End Ensures.

Lemma ensures_log (l : logline) (w : World) (Q : outcome unit -> World -> Prop) :
  Q (Returned tt) (add_log l w) -> ensures (log l) w Q.
Proof. exact id. Qed.

Lemma ensures_run_stmt (u : Db -> Db) (w : World) (Q : outcome unit -> World -> Prop) :
  Q (Returned tt) (update_db u w) -> ensures (run_stmt u) w Q.
Proof. exact id. Qed.

Lemma ensures_timestamp (env : Env) (w : World) (Q : outcome N -> World -> Prop) :
  Q (Returned (CURRENT_TIMESTAMP env (calls w))) w -> ensures (timestamp env) w Q.
Proof. exact id. Qed.

Ltac run_det :=
  lazymatch goal with
  | |- ensures (_ ≫= _) _ _ => apply ensures_bind
  | |- ensures (mret _) _ _ => apply ensures_ret
  | |- ensures (throw _) _ _ => apply ensures_throw
  | |- ensures (log _) _ _ => apply ensures_log
  | |- ensures (query _) _ _ => apply ensures_query
  | |- ensures (run_stmt _) _ _ => apply ensures_run_stmt
  | |- ensures (timestamp _) _ _ => apply ensures_timestamp
  | |- ensures (request _ _) _ _ => apply ensures_request
  | |- ensures (try_catch _ _) _ _ => apply ensures_try_catch
  end.

Ltac run_step :=
  first
    [ run_det
    | lazymatch goal with
      | |- ensures (if ?b then _ else _) _ _ => destruct b eqn:?
      | |- ensures (match ?x with _ => _ end) _ _ => destruct x eqn:?
      | |- match ?x with _ => _ end => destruct x eqn:?
      end ].

Ltac unfold_pipeline :=
  unfold checkSourceForNewChangelog, checkSource, notify, fetchChangelog,
    analyzeChangelog, generateTTSAudio, sendEmailWithAttachment.

Ltac world_simpl :=
  cbn [db calls console add_log add_call update_db] in *.


(** * The notification pipeline *)

Section Pipeline.

Variable env : Env.

Lemma new_calls_app (w w' : World) (l : list call) :
  calls w' = calls w ++ l -> new_calls w w' = l.
Proof. intros H. unfold new_calls. rewrite H. apply drop_app_length. Qed.

Lemma new_lines_app (w w' : World) (l : list logline) :
  console w' = console w ++ l -> new_lines w w' = l.
Proof. intros H. unfold new_lines. rewrite H. apply drop_app_length. Qed.

(** A cycle never throws: what its body throws, the handler logs. *)
Lemma checkSourceForNewChangelog_returns (source : ChangelogSource) (w : World) :
  fst (checkSourceForNewChangelog env source w) = Returned tt.
Proof.
  unfold checkSourceForNewChangelog, try_catch.
  destruct (checkSource env source w) as [[[]|e] w1]; reflexivity.
Qed.

Lemma checkSourceForNewChangelog_catches (source : ChangelogSource) (w w1 : World)
    (e : list N) :
  checkSource env source w = (Thrown e, w1) ->
  checkSourceForNewChangelog env source w
  = (Returned tt, add_log (LogError (src_name source) e) w1).
Proof. intros H. unfold checkSourceForNewChangelog, try_catch. now rewrite H. Qed.

(** The loop over the sources is the composition of their cycles. *)
Lemma for_of_cycles (sources : list ChangelogSource) (w : World) :
  for_of sources (checkSourceForNewChangelog env) w = (Returned tt, cycles env sources w).
Proof.
  revert w. induction sources as [|source rest IH]; intros w; [reflexivity|].
  cbn [for_of cycles fold_left]. unfold mbind, M_bind.
  pose proof (checkSourceForNewChangelog_returns source w) as Hret.
  destruct (checkSourceForNewChangelog env source w) as [r w1]. cbn [fst snd] in *.
  subst r. apply IH.
Qed.

Lemma checkForNewChangelog_run (w : World) :
  checkForNewChangelog env w = (Returned tt, batch_end env w).
Proof.
  unfold checkForNewChangelog, batch_end. cbv zeta.
  unfold mbind, M_bind, log, query. world_simpl.
  destruct (getActiveSources (db w)) as [|source rest] eqn:Hs; [reflexivity|].
  unfold mbind, M_bind, log. world_simpl.
  now rewrite for_of_cycles.
Qed.

(** A cycle writes its checking line first, and no other checking line. *)
Lemma cycle_lines (source : ChangelogSource) (w : World) :
  ensures (checkSourceForNewChangelog env source) w (fun _ w' =>
    exists rest, console w' = console w ++ checking_line source :: rest
                 /\ List.filter is_checking rest = []).
Proof.
  unfold_pipeline. repeat run_step.
  all: world_simpl; rewrite <- ?app_assoc; cbn [app].
  all: eexists; split; [reflexivity | reflexivity].
Qed.

Lemma cycles_lines (sources : list ChangelogSource) (w : World) :
  exists lines, console (cycles env sources w) = console w ++ lines
                /\ List.filter is_checking lines = map checking_line sources.
Proof.
  revert w. induction sources as [|source rest IH]; intros w.
  - exists []. now rewrite app_nil_r.
  - cbn [cycles fold_left].
    destruct (cycle_lines source w) as (l1 & H1 & Hf1).
    destruct (IH (snd (checkSourceForNewChangelog env source w))) as (l2 & H2 & Hf2).
    exists (checking_line source :: l1 ++ l2). split.
    + unfold cycles in H2. rewrite H2, H1. now rewrite <- app_assoc.
    + cbn [List.filter is_checking checking_line map]. rewrite List.filter_app, Hf1, Hf2.
      reflexivity.
Qed.

End Pipeline.


Section Notified.

(** Recording a version sets no flag. *)
Lemma is_notified_insert (v sid v0 s0 : list N) (now : N) (h : list HistoryRow) :
  is_notified v sid (insert_or_ignore_history v0 s0 now h) = is_notified v sid h.
Proof.
  unfold insert_or_ignore_history.
  destruct (existsb _ h); [reflexivity|].
  unfold is_notified. rewrite existsb_app. cbn. now rewrite andb_false_r, !orb_false_r.
Qed.

Lemma has_row_mark (v sid v0 s0 : list N) (h : list HistoryRow) :
  has_row v sid (map (mark_row v0 s0) h) = has_row v sid h.
Proof.
  unfold has_row. induction h as [|r h IH]; [reflexivity|].
  cbn [map existsb]. rewrite IH. f_equal.
  unfold mark_row. now destruct (str_eqb (hist_version r) v0 && of_source s0 r).
Qed.

(** Marking the pair [(v0, s0)] sets its flag, when it has a row, and no
    other flag. *)
Lemma is_notified_mark (v sid v0 s0 : list N) (h : list HistoryRow) :
  is_notified v sid (map (mark_row v0 s0) h)
  = is_notified v sid h || (bool_decide (v = v0 /\ sid = s0) && has_row v0 s0 h).
Proof.
  unfold is_notified, has_row. induction h as [|r h IH].
  - cbn [map existsb orb]. now destruct (bool_decide (v = v0 /\ sid = s0)).
  - cbn [map existsb]. rewrite IH. clear IH.
    set (rest := existsb _ h). set (rest0 := existsb _ h).
    unfold mark_row.
    destruct (str_eqb (hist_version r) v0 && of_source s0 r) eqn:Hm.
    + cbn [hist_version hist_notified].
      apply andb_true_iff in Hm as [Hv Hs].
      apply str_eqb_eq in Hv. apply of_source_eq in Hs.
      replace (of_source sid {| hist_version := hist_version r;
                                hist_detected_at := hist_detected_at r;
                                hist_notified := true;
                                hist_source_id := hist_source_id r |})
        with (of_source sid r) by reflexivity.
      destruct (bool_decide (v = v0 /\ sid = s0)) eqn:Hd.
      * apply bool_decide_eq_true in Hd as [-> ->].
        replace (str_eqb (hist_version r) v0) with true
          by (symmetry; now apply str_eqb_eq).
        replace (of_source s0 r) with true by (symmetry; now apply of_source_eq).
        cbn. now rewrite !orb_true_r.
      * apply bool_decide_eq_false in Hd.
        assert (Hno : str_eqb (hist_version r) v && of_source sid r = false).
        { apply not_true_is_false. intros Hb. apply andb_true_iff in Hb as [Hb1 Hb2].
          apply str_eqb_eq in Hb1. apply of_source_eq in Hb2.
          apply Hd. split; congruence. }
        rewrite Hno. reflexivity.
    + destruct (bool_decide (v = v0 /\ sid = s0)); cbn [andb];
        [|now rewrite !orb_false_r].
      cbn [orb].
      destruct (str_eqb (hist_version r) v && of_source sid r && hist_notified r);
        cbn [orb]; reflexivity.
Qed.

End Notified.

Section Cycle.

Variable env : Env.

(** What a cycle does to the history, and whether a send succeeded. *)
Lemma cycle_history (source : ChangelogSource) (w : World) :
  ensures (checkSourceForNewChangelog env source) w (fun _ w' =>
    let h := changelog_history (db w) in
    let h' := changelog_history (db w') in
    let sent := existsb mail_sent (new_calls w w') in
    (h' = h /\ sent = false)
    \/ exists v now,
         fetched_version env source w = Some v
         /\ ((h' = insert_or_ignore_history v (src_id source) now h /\ sent = false)
             \/ (h' = map (mark_row v (src_id source))
                        (insert_or_ignore_history v (src_id source) now h)
                 /\ sent = true))).
Proof.
  unfold_pipeline. repeat run_step; cbv zeta.
  all: world_simpl.
  all: match goal with
       | |- context [new_calls ?w ?w'] =>
           erewrite (new_calls_app w w') by (world_simpl; rewrite <- ?app_assoc; reflexivity)
       end.
  all: cbn [app existsb mail_sent orb].
  all: try (left; split; reflexivity).
  all: right.
  all: match goal with
       | H : parseLatestVersion _ = Some ?latest |- _ =>
           exists (entry_version latest)
       end.
  all: eexists.
  all: (split; [unfold fetched_version;
         repeat match goal with H : _ = _ |- _ => rewrite H end | ]).
  all: try (destruct (resp_ok _); [reflexivity | discriminate]).
  all: first [left; split; reflexivity | right; split; reflexivity].
Qed.

(** No cycle, and so no sequence of cycles, clears a flag. *)
Lemma cycle_keeps_notified (source : ChangelogSource) (w : World) (v sid : list N) :
  is_notified v sid (changelog_history (db w)) = true ->
  is_notified v sid
    (changelog_history (db (snd (checkSourceForNewChangelog env source w)))) = true.
Proof.
  intros Hn. pose proof (cycle_history source w) as Hc. unfold ensures in Hc.
  cbv zeta in Hc.
  destruct Hc as [[Hh _]|(v0 & now & _ & [[Hh _]|[Hh _]])]; rewrite Hh.
  - assumption.
  - now rewrite is_notified_insert.
  - now rewrite is_notified_mark, is_notified_insert, Hn.
Qed.

Lemma cycles_keep_notified (sources : list ChangelogSource) (w : World) (v sid : list N) :
  is_notified v sid (changelog_history (db w)) = true ->
  is_notified v sid (changelog_history (db (cycles env sources w))) = true.
Proof.
  revert w. induction sources as [|source rest IH]; intros w Hn; [assumption|].
  cbn [cycles fold_left]. apply IH. now apply cycle_keeps_notified.
Qed.

Lemma generateEmailHtml_heading (data : ChangelogEmailRequest) :
  occurs_in (heading_for (sentimentEmoji (sentiment data)) (version data))
    (generateEmailHtml data).
Proof.
  unfold generateEmailHtml, occurs_in. cbv zeta.
  eexists html_head, _. unfold html_heading, heading_for.
  rewrite <- !app_assoc. reflexivity.
Qed.

Lemma subject_for_label (label : list N) :
  occurs_in (js "Claude Code") (subject_for label).
Proof.
  exists (EMOJI_NEW ++ js " "), (js " " ++ label ++ js " Released"). reflexivity.
Qed.

Lemma cycle_mail (source : ChangelogSource) (w : World) :
  ensures (checkSourceForNewChangelog env source) w (fun _ w' =>
    Forall (mail_form source (fetched_version env source w)) (new_calls w w')).
Proof.
  unfold_pipeline. repeat run_step.
  all: world_simpl.
  all: match goal with
       | |- context [new_calls ?w ?w'] =>
           erewrite (new_calls_app w w') by (world_simpl; rewrite <- ?app_assoc; reflexivity)
       end.
  all: cbn [app].
  all: repeat (apply List.Forall_cons; [try exact I|]); try apply List.Forall_nil.
  all: unfold mail_form.
  all: match goal with
       | H : parseLatestVersion _ = Some ?latest |- _ =>
           exists (entry_version latest)
       end.
  all: eexists.
  all: (split; [unfold fetched_version;
         repeat match goal with H : _ = _ |- _ => rewrite H end;
         destruct (resp_ok _); [reflexivity | discriminate] | ]).
  all: (split; [reflexivity|]).
  all: cbn [mail_html mail_subject emailPayload].
  all: (split; [|apply subject_for_label]).
  all: match goal with
       | |- occurs_in _ (generateEmailHtml ?data) =>
           exact (generateEmailHtml_heading data)
       end.
Qed.

End Cycle.

(** C3: every cycle returns normally, a fault thrown in its body being
    caught and logged by the cycle itself; the batch returns normally and is
    the sequence of the cycles of the active sources, in order, each run
    from the world the one before it left; and each active source has its
    checking line on the console, in order, whatever happened to the
    sources before it. *)
Theorem checkForNewChangelog_contains_faults (env : Env) (w : World) :
  (forall source w0, fst (checkSourceForNewChangelog env source w0) = Returned tt)
  /\ (forall source w0 e w1,
        checkSource env source w0 = (Thrown e, w1) ->
        checkSourceForNewChangelog env source w0
        = (Returned tt, add_log (LogError (src_name source) e) w1))
  /\ checkForNewChangelog env w = (Returned tt, batch_end env w)
  /\ List.filter is_checking (new_lines w (snd (checkForNewChangelog env w)))
     = map checking_line (getActiveSources (db w)).
Proof.
  split; [apply checkSourceForNewChangelog_returns|].
  split; [intros source w0 e w1 H; now apply checkSourceForNewChangelog_catches|].
  split; [apply checkForNewChangelog_run|].
  rewrite checkForNewChangelog_run. cbn [snd]. unfold batch_end. cbv zeta.
  destruct (getActiveSources (db w)) as [|source rest] eqn:Hs.
  - erewrite new_lines_app by (world_simpl; rewrite <- ?app_assoc; reflexivity).
    reflexivity.
  - destruct (cycles_lines env (source :: rest)
                (add_log (LogCount (length (source :: rest))) (add_log LogStarting w)))
      as (lines & Hl & Hf).
    erewrite new_lines_app
      by (world_simpl; rewrite Hl; world_simpl; rewrite <- ?app_assoc; reflexivity).
    cbn [app List.filter is_checking]. rewrite List.filter_app, Hf. cbn.
    now rewrite app_nil_r.
Qed.

(** A batch over two sources whose first cannot be fetched: the fault is
    logged, and the second source is checked and its version recorded. *)
Lemma checkForNewChangelog_contains_faults_witness :
  let w := demo_world (js "false") in
  let w' := snd (checkForNewChangelog demo_env w) in
  fst (checkForNewChangelog demo_env w) = Returned tt
  /\ List.filter is_checking (new_lines w w')
     = [checking_line offline_source; checking_line demo_source]
  /\ In (LogError (js "Offline") (js "fetch failed")) (console w')
  /\ known_version (js "2.0.74") (changelog_history (db w')) = true.
Proof.
  intros w w'.
  destruct (checkForNewChangelog_contains_faults demo_env w) as (_ & _ & Hrun & Hlines).
  split; [now rewrite Hrun|]. split; [exact Hlines|].
  split; [|reflexivity].
  vm_compute. do 3 right. left. reflexivity.
Defined.



(** C6: over a cycle no [notified] flag is cleared; a flag is set only when
    the Mailer reported a successful send in this cycle, and then for the
    version the cycle detected and for its source; when no send succeeded
    (it failed or was never attempted) every flag is as before; and when a
    send succeeded the flag of the detected version, for the source, is set
    if that pair has a row. A flag therefore goes from false to true at most
    once, in a cycle whose send succeeded, and stays true. *)
Theorem notified_only_after_successful_send (env : Env) (source : ChangelogSource)
    (w : World) :
  let w' := snd (checkSourceForNewChangelog env source w) in
  let h := changelog_history (db w) in
  let h' := changelog_history (db w') in
  let sent := existsb mail_sent (new_calls w w') in
  (forall v sid, is_notified v sid h = true -> is_notified v sid h' = true)
  /\ (forall v sid, is_notified v sid h = false -> is_notified v sid h' = true ->
        sent = true /\ sid = src_id source /\ fetched_version env source w = Some v)
  /\ (sent = false -> forall v sid, is_notified v sid h' = is_notified v sid h)
  /\ (sent = true ->
      exists v, fetched_version env source w = Some v
                /\ (has_row v (src_id source) h' = true ->
                    is_notified v (src_id source) h' = true)).
Proof.
  intros w' h h' sent.
  pose proof (cycle_history env source w) as Hc. unfold ensures in Hc. cbv zeta in Hc.
  fold w' in Hc. fold h h' sent in Hc.
  destruct Hc as [[Hh Hs]|(v0 & now & Hv0 & [[Hh Hs]|[Hh Hs]])]; rewrite Hh, Hs.
  - repeat split; try congruence; discriminate.
  - repeat split; intros; rewrite ?is_notified_insert in *; try congruence; discriminate.
  - split; [|split; [|split]].
    + intros v sid Hn. rewrite is_notified_mark, is_notified_insert, Hn. reflexivity.
    + intros v sid Hn Hn'. rewrite is_notified_mark, is_notified_insert, Hn in Hn'.
      cbn [orb] in Hn'. apply andb_true_iff in Hn' as [Hd _].
      apply bool_decide_eq_true in Hd as [-> ->]. repeat split; assumption.
    + discriminate.
    + intros _. exists v0. split; [assumption|].
      rewrite has_row_mark. intros Hrow.
      rewrite is_notified_mark. rewrite Hrow.
      rewrite bool_decide_eq_true_2 by (split; reflexivity). apply orb_true_r.
Qed.

(** With the notifications on and a mail service that accepts the mail, the
    cycle of the demo source sets the flag of (2.0.74, src_claude_code),
    which was not set before; with a mail service that refuses, it does
    not. *)
Lemma notified_only_after_successful_send_witness :
  let w := demo_world (js "true") in
  let w' := snd (checkSourceForNewChangelog demo_env demo_source w) in
  is_notified (js "2.0.74") (js "src_claude_code") (changelog_history (db w)) = false
  /\ is_notified (js "2.0.74") (js "src_claude_code") (changelog_history (db w')) = true
  /\ existsb mail_sent (new_calls w w') = true
  /\ fetched_version demo_env demo_source w = Some (js "2.0.74").
Proof.
  intros w w'.
  assert (Hbefore : is_notified (js "2.0.74") (js "src_claude_code")
                      (changelog_history (db w)) = false) by reflexivity.
  assert (Hafter : is_notified (js "2.0.74") (js "src_claude_code")
                     (changelog_history (db w')) = true) by (vm_compute; reflexivity).
  destruct (notified_only_after_successful_send demo_env demo_source w)
    as (_ & Honly & _ & _).
  destruct (Honly _ _ Hbefore Hafter) as (Hsent & _ & Hversion).
  repeat split; assumption.
Defined.

(** C10: every mail a cycle sends has the subject
    [<NEW emoji> Claude Code <label> Released] and, in its page, the top
    heading [<h1><emoji> Claude Code <label> Released</h1>], where [label]
    is what the cycle wrote into [analysis.version]: the source name, a
    space, and the detected version. The literal "Claude Code" is thus in
    every notification mail, whatever the source. *)
Theorem notification_mail_says_claude_code (env : Env) (source : ChangelogSource)
    (w : World) :
  Forall
    (fun c =>
       match c with
       | CallMailer payload _ =>
           exists version emoji,
             fetched_version env source w = Some version
             /\ mail_subject payload
                = EMOJI_NEW ++ js " Claude Code "
                    ++ (src_name source ++ js " " ++ version) ++ js " Released"
             /\ occurs_in
                  (js "<h1>" ++ emoji ++ js " Claude Code "
                     ++ (src_name source ++ js " " ++ version) ++ js " Released</h1>")
                  (mail_html payload)
             /\ occurs_in (js "Claude Code") (mail_subject payload)
       | _ => True
       end)
    (new_calls w (snd (checkSourceForNewChangelog env source w))).
Proof. exact (cycle_mail env source w). Qed.

(** The mail of the demo cycle: for the source named "Offline Docs" the
    subject still starts with the label "Claude Code". *)
Lemma notification_mail_says_claude_code_witness :
  let source := {| src_id := js "src_docs"; src_name := js "Offline Docs";
                   src_url := src_url demo_source; src_is_active := true;
                   src_last_version := None; src_last_checked_at := None |} in
  let w := demo_world (js "true") in
  Forall
    (fun c =>
       match c with
       | CallMailer payload _ =>
           mail_subject payload
           = EMOJI_NEW ++ js " Claude Code Offline Docs 2.0.74 Released"
       | _ => True
       end)
    (new_calls w (snd (checkSourceForNewChangelog demo_env source w)))
  /\ existsb mail_sent (new_calls w (snd (checkSourceForNewChangelog demo_env source w)))
     = true.
Proof.
  intros source w. split; [|vm_compute; reflexivity].
  eapply Forall_impl; [exact (notification_mail_says_claude_code demo_env source w)|].
  intros [url a|text a|text voice a|payload a]; try exact id.
  intros (version & emoji & Hv & Hsubject & _). rewrite Hsubject.
  assert (version = js "2.0.74") as ->
    by (vm_compute in Hv; injection Hv as <-; reflexivity).
  reflexivity.
Defined.

(** * Further properties: the parser *)

(** [split] and [join] on lines: joining the lines of a text gives the text
    back, and splitting joined lines gives the lines back when none holds
    the separator. *)
Section SplitJoin.

Variable sep : N.

Lemma split_cons_inv (s : list N) : exists line lines, split sep s = line :: lines.
Proof.
  induction s as [|c s (line & lines & IH)]; cbn [split]; [eauto|].
  destruct (N.eqb c sep); [eauto|]. rewrite IH. eauto.
Qed.

Lemma join_cons (p : list N) (rest : list (list N)) :
  rest <> [] -> join [sep] (p :: rest) = p ++ sep :: join [sep] rest.
Proof. destruct rest; [congruence | reflexivity]. Qed.

Lemma join_split (s : list N) : join [sep] (split sep s) = s.
Proof.
  induction s as [|c s IH]; [reflexivity|]. cbn [split].
  destruct (N.eqb_spec c sep) as [->|Hc].
  - destruct (split_cons_inv s) as (line & lines & Hs). rewrite Hs in *.
    rewrite join_cons by discriminate. cbn [app]. now rewrite IH.
  - destruct (split_cons_inv s) as (line & lines & Hs). rewrite Hs in *.
    destruct lines as [|l2 lines].
    + cbn [join] in *. now rewrite IH.
    + rewrite !join_cons in * by discriminate. cbn [app]. now rewrite IH.
Qed.

Lemma split_sep_free (s : list N) : Forall (sep_free sep) (split sep s).
Proof.
  induction s as [|c s IH]; cbn [split].
  - repeat constructor.
  - destruct (N.eqb_spec c sep) as [->|Hc].
    + constructor; [constructor | assumption].
    + destruct (split sep s) as [|line lines]; [repeat constructor; assumption|].
      inversion IH; subst. constructor; [constructor|]; assumption.
Qed.

Lemma split_sep_free_line (line : list N) : sep_free sep line -> split sep line = [line].
Proof.
  induction 1 as [|c line Hc _ IH]; [reflexivity|]. cbn [split].
  destruct (N.eqb_spec c sep); [contradiction|]. now rewrite IH.
Qed.

Lemma split_app_sep (line rest : list N) :
  sep_free sep line -> split sep (line ++ sep :: rest) = line :: split sep rest.
Proof.
  induction 1 as [|c line Hc _ IH]; cbn [app split].
  - now rewrite N.eqb_refl.
  - destruct (N.eqb_spec c sep); [contradiction|]. now rewrite IH.
Qed.

Lemma split_join (lines : list (list N)) :
  lines <> [] -> Forall (sep_free sep) lines -> split sep (join [sep] lines) = lines.
Proof.
  intros Hne Hall. induction Hall as [|line rest Hline Hrest IH]; [congruence|].
  destruct rest as [|l2 rest].
  - cbn [join]. now apply split_sep_free_line.
  - rewrite join_cons by discriminate. rewrite split_app_sep by assumption.
    now rewrite IH.
Qed.

Lemma join_app (a b : list (list N)) :
  a <> [] -> b <> [] -> join [sep] (a ++ b) = join [sep] a ++ sep :: join [sep] b.
Proof.
  intros Ha Hb. induction a as [|p a IH]; [congruence|].
  destruct a as [|p2 a].
  - cbn [app]. now rewrite join_cons.
  - change ((p :: p2 :: a) ++ b) with (p :: (p2 :: a) ++ b).
    rewrite join_cons by discriminate.
    rewrite IH by discriminate. rewrite (join_cons p (p2 :: a)) by discriminate.
    now rewrite <- app_assoc.
Qed.

End SplitJoin.

Section Reader.

Lemma strip_prefix_Some (lit s tl : list N) :
  strip_prefix lit s = Some tl -> s = lit ++ tl.
Proof.
  revert s. induction lit as [|a lit IH]; intros s H.
  - now injection H as <-.
  - destruct s as [|c s]; [discriminate|]. cbn [strip_prefix] in H.
    destruct (N.eqb_spec a c) as [->|]; [|discriminate].
    cbn [app]. f_equal. now apply IH.
Qed.

Lemma span_Some (p : N -> bool) (s run tl : list N) :
  span p s = (run, tl) -> s = run ++ tl /\ Forall (fun c => p c = true) run.
Proof.
  revert run tl. induction s as [|c s IH]; intros run tl H; cbn [span] in H.
  - injection H as <- <-. split; [reflexivity | constructor].
  - destruct (p c) eqn:Hc.
    + destruct (span p s) as [r t]. injection H as <- <-.
      destruct (IH r t eq_refl) as [-> Hall]. split; [reflexivity|].
      now constructor.
    + injection H as <- <-. split; [reflexivity | constructor].
Qed.

Lemma many1_Some (p : N -> bool) (s run tl : list N) :
  many1 p s = Some (run, tl) ->
  s = run ++ tl /\ run <> [] /\ Forall (fun c => p c = true) run.
Proof.
  unfold many1. destruct (span p s) as [r t] eqn:Hs.
  destruct r as [|c r]; [discriminate|]. cbn [truthy]. intros [= <- <-].
  destruct (span_Some _ _ _ _ Hs) as [-> Hall]. repeat split; [discriminate | assumption].
Qed.

Lemma optional_Some (lit s : list N) :
  s = optional lit s \/ s = lit ++ optional lit s.
Proof.
  unfold optional. destruct (strip_prefix lit s) as [tl|] eqn:H; [|now left].
  right. now apply strip_prefix_Some.
Qed.

Lemma prerelease_Some (s : list N) :
  (exists rest, s = prerelease s ++ rest)
  /\ (prerelease s = []
      \/ exists run, prerelease s = js "-" ++ run /\ run <> []
                     /\ Forall (fun c => is_prerelease_char c = true) run).
Proof.
  unfold prerelease.
  destruct (strip_prefix (js "-") s) as [tl|] eqn:Hd; [|split; [now exists s | now left]].
  apply strip_prefix_Some in Hd as ->.
  destruct (many1 is_prerelease_char tl) as [[run t]|] eqn:Hm.
  - apply many1_Some in Hm as (-> & Hne & Hall). split.
    + exists t. now rewrite <- app_assoc.
    + right. now exists run.
  - split; [now exists (js "-" ++ tl) | now left].
Qed.

(** What a header line is made of. *)
Lemma header_token_Some (line v : list N) :
  header_token line = Some v ->
  semver_shaped v
  /\ exists ws bracket rest,
       line = js "##" ++ ws ++ bracket ++ v ++ rest
       /\ ws <> [] /\ Forall (fun c => is_space c = true) ws
       /\ (bracket = [] \/ bracket = js "[").
Proof.
  unfold header_token, token_after_bracket. intros H.
  destruct (strip_prefix (js "##") line) as [r0|] eqn:H0; [|discriminate].
  cbn [mbind option_bind] in H.
  destruct (many1 is_space r0) as [[ws r1]|] eqn:H1; [|discriminate].
  cbn [mbind option_bind] in H.
  destruct (many1 is_digit (optional (js "[") r1)) as [[major r2]|] eqn:H2; [|discriminate].
  cbn [mbind option_bind] in H.
  destruct (strip_prefix (js ".") r2) as [r3|] eqn:H3; [|discriminate].
  cbn [mbind option_bind] in H.
  destruct (many1 is_digit r3) as [[minor r4]|] eqn:H4; [|discriminate].
  cbn [mbind option_bind] in H.
  destruct (strip_prefix (js ".") r4) as [r5|] eqn:H5; [|discriminate].
  cbn [mbind option_bind] in H.
  destruct (many1 is_digit r5) as [[patch r6]|] eqn:H6; [|discriminate].
  cbn [mbind option_bind] in H. injection H as <-.
  apply strip_prefix_Some in H0 as ->, H3 as ->, H5 as ->.
  apply many1_Some in H1 as (-> & Hws & Hsp), H2 as (Hr1 & Hmaj & Hmajd),
    H4 as (-> & Hmin & Hmind), H6 as (-> & Hpat & Hpatd).
  destruct (prerelease_Some r6) as [[rest Hrest] Hpre].
  split.
  - exists major, minor, patch, (prerelease r6). repeat split; assumption.
  - destruct (optional_Some (js "[") r1) as [Ho|Ho].
    + exists ws, [], rest. rewrite Ho, Hr1. rewrite Hrest at 1.
      split; [|auto]. repeat (rewrite <- app_assoc || rewrite <- app_comm_cons).
      reflexivity.
    + exists ws, (js "["), rest. rewrite Ho, Hr1. rewrite Hrest at 1.
      split; [|auto]. repeat (rewrite <- app_assoc || rewrite <- app_comm_cons).
      reflexivity.
Qed.

End Reader.

Section ParserFacts.

Local Abbreviation no_header := (fun line => versionMatch line = None).

(** What a successful parse tells about the document. *)
Lemma parseLatestVersion_inv (markdown : list N) (e : ParsedChangelogEntry) :
  parseLatestVersion markdown = Some e ->
  exists before header block after,
    split LF markdown = before ++ header :: block ++ after
    /\ Forall no_header before
    /\ versionMatch header = Some (entry_version e)
    /\ Forall no_header block
    /\ (after = [] \/ exists second rest, after = second :: rest
                                           /\ is_Some (versionMatch second))
    /\ entry_content e = join [LF] (header :: block).
Proof.
  intros H.
  destruct (header_decomposition (split LF markdown))
    as [Hnone|(before & header & v & block & after & Hl & Hb & Hh & Hbl & Ha)].
  - rewrite parseLatestVersion_none in H by assumption. discriminate.
  - rewrite (parseLatestVersion_some _ _ _ _ _ _ Hl Hb Hh Hbl Ha) in H.
    injection H as <-. exists before, header, block, after. auto 10.
Qed.

End ParserFacts.

(** X1: the entry [parseLatestVersion] returns parses to itself: its
    content is a document whose first header is the entry's, and whose
    block is the whole of it. *)
Theorem parseLatestVersion_idempotent (markdown : list N) (e : ParsedChangelogEntry) :
  parseLatestVersion markdown = Some e ->
  parseLatestVersion (entry_content e) = Some e.
Proof.
  intros H.
  destruct (parseLatestVersion_inv _ _ H)
    as (before & header & block & after & Hl & _ & Hh & Hbl & _ & Hc).
  pose proof (split_sep_free LF markdown) as Hfree. rewrite Hl in Hfree.
  apply Forall_app in Hfree as [_ Hfree].
  change (header :: block ++ after) with ((header :: block) ++ after) in Hfree.
  apply Forall_app in Hfree as [Hfree _].
  destruct e as [v content]. cbn [entry_version entry_content] in *. subst content.
  apply (parseLatestVersion_some _ [] header v block []); auto.
  rewrite app_nil_r. cbn [app]. now apply split_join.
Qed.

(** The entry of the demo changelog parses to itself. *)
Lemma parseLatestVersion_idempotent_witness :
  parseLatestVersion (js "## 2.0.74" ++ [LF] ++ js "Fix: bar")
  = Some {| entry_version := js "2.0.74";
            entry_content := js "## 2.0.74" ++ [LF] ++ js "Fix: bar" |}.
Proof.
  apply (parseLatestVersion_idempotent demo_markdown
           {| entry_version := js "2.0.74";
              entry_content := js "## 2.0.74" ++ [LF] ++ js "Fix: bar" |}).
  reflexivity.
Defined.

(** X2: the content [parseLatestVersion] returns is a piece of the document,
    unchanged: it starts at the start of the document or right after a line
    feed, and ends at the end of the document or right before a line
    feed. *)
Theorem parseLatestVersion_content_verbatim (markdown : list N)
    (e : ParsedChangelogEntry) :
  parseLatestVersion markdown = Some e ->
  exists before after,
    markdown = before ++ entry_content e ++ after
    /\ (before = [] \/ exists text, before = text ++ [LF])
    /\ (after = [] \/ exists text, after = LF :: text).
Proof.
  intros H.
  destruct (parseLatestVersion_inv _ _ H)
    as (before & header & block & after & Hl & _ & _ & _ & _ & Hc).
  rewrite Hc. rewrite <- (join_split LF markdown), Hl.
  change (header :: block ++ after) with ((header :: block) ++ after).
  destruct before as [|b0 before], after as [|a0 after].
  - exists [], []. rewrite !app_nil_r, !app_nil_l. auto.
  - exists [], (LF :: join [LF] (a0 :: after)). rewrite !app_nil_l.
    rewrite (join_app LF (header :: block) (a0 :: after)) by discriminate.
    split; [reflexivity|]. split; [now left | right; eauto].
  - exists (join [LF] (b0 :: before) ++ [LF]), []. rewrite !app_nil_r.
    rewrite (join_app LF (b0 :: before) (header :: block)) by discriminate.
    rewrite <- app_assoc.
    split; [reflexivity|]. split; [right; eauto | now left].
  - exists (join [LF] (b0 :: before) ++ [LF]), (LF :: join [LF] (a0 :: after)).
    rewrite (join_app LF (b0 :: before)) by discriminate.
    rewrite (join_app LF (header :: block)) by discriminate.
    rewrite <- !app_assoc.
    split; [reflexivity|]. split; right; eauto.
Qed.

(** The entry of the demo changelog lies between the title line and the
    header of 2.0.73. *)
Lemma parseLatestVersion_content_verbatim_witness :
  exists before after,
    demo_markdown = before ++ (js "## 2.0.74" ++ [LF] ++ js "Fix: bar") ++ after
    /\ (before = [] \/ exists text, before = text ++ [LF])
    /\ (after = [] \/ exists text, after = LF :: text).
Proof.
  apply (parseLatestVersion_content_verbatim demo_markdown
           {| entry_version := js "2.0.74";
              entry_content := js "## 2.0.74" ++ [LF] ++ js "Fix: bar" |}).
  reflexivity.
Defined.

(** X3: the version [parseLatestVersion] returns has the shape
    [digits.digits.digits], optionally followed by [-] and a run of letters,
    digits and dots; and the content starts with [##], white space, an
    optional opening bracket, and that version. *)
Theorem parseLatestVersion_version_shape (markdown : list N)
    (e : ParsedChangelogEntry) :
  parseLatestVersion markdown = Some e ->
  semver_shaped (entry_version e)
  /\ exists ws bracket rest,
       entry_content e = js "##" ++ ws ++ bracket ++ entry_version e ++ rest
       /\ ws <> [] /\ Forall (fun c => is_space c = true) ws
       /\ (bracket = [] \/ bracket = js "[").
Proof.
  intros H.
  destruct (parseLatestVersion_inv _ _ H)
    as (before & header & block & after & _ & _ & Hh & _ & _ & Hc).
  rewrite versionMatch_header_token in Hh.
  apply header_token_Some in Hh as (Hshape & ws & bracket & rest & -> & Hws & Hsp & Hbr).
  split; [assumption|].
  exists ws, bracket. rewrite Hc.
  destruct block as [|b block].
  - exists rest. cbn [join]. auto.
  - exists (rest ++ LF :: join [LF] (b :: block)).
    rewrite join_cons by discriminate. rewrite <- !app_assoc. auto.
Qed.

(** The version of the demo changelog, and how its content starts. *)
Lemma parseLatestVersion_version_shape_witness :
  semver_shaped (js "2.0.74")
  /\ exists ws bracket rest,
       js "## 2.0.74" ++ [LF] ++ js "Fix: bar"
       = js "##" ++ ws ++ bracket ++ js "2.0.74" ++ rest
       /\ ws <> [] /\ Forall (fun c => is_space c = true) ws
       /\ (bracket = [] \/ bracket = js "[").
Proof.
  apply (parseLatestVersion_version_shape demo_markdown
           {| entry_version := js "2.0.74";
              entry_content := js "## 2.0.74" ++ [LF] ++ js "Fix: bar" |}).
  reflexivity.
Defined.

(** * Further properties: settings and monitor *)

Section ParseIntToString.

Lemma is_digit_cases (c : N) :
  is_digit c = true ->
  (c = 48 \/ c = 49 \/ c = 50 \/ c = 51 \/ c = 52 \/ c = 53 \/ c = 54 \/ c = 55
   \/ c = 56 \/ c = 57)%N.
Proof.
  unfold is_digit. intros H. apply andb_true_iff in H as [H1 H2].
  apply N.leb_le in H1, H2. lia.
Qed.

(** A string of decimal digits, with or without a minus sign, is read by
    [parseInt] in radix 10 and in full. *)
Lemma parseInt_digit_string (s : list N) :
  s <> [] -> Forall (fun c => is_digit c = true) s ->
  parseInt s = Some (parse_digits 10 0 s)
  /\ parseInt (45%N :: s) = Some (- parse_digits 10 0 s).
Proof.
  intros Hne Hall. destruct Hall as [|c rest Hc Hrest]; [congruence|].
  apply is_digit_cases in Hc.
  destruct Hrest as [|c2 rest Hc2 _].
  - repeat (destruct Hc as [->|Hc]; [split; reflexivity|]). subst c. split; reflexivity.
  - apply is_digit_cases in Hc2.
    repeat (destruct Hc as [->|Hc]);
      repeat (destruct Hc2 as [->|Hc2]); subst;
      (split; unfold parseInt; cbn -[parse_digits Z.mul]; f_equal; lia).
Qed.

Lemma string_of_uint_digits (d : Decimal.uint) :
  Forall (fun c => is_digit c = true) (js (NilEmpty.string_of_uint d)).
Proof. induction d; constructor; solve [reflexivity | assumption]. Qed.

Lemma parse_digits_of_uint_acc (d : Decimal.uint) (acc : positive) :
  parse_digits 10 (Z.pos acc) (js (NilEmpty.string_of_uint d))
  = Z.pos (Pos.of_uint_acc d acc).
Proof.
  revert acc. induction d; intros acc; [reflexivity|..];
    cbn [NilEmpty.string_of_uint Pos.of_uint_acc]; rewrite <- IHd;
    unfold js; cbn [list_ascii_of_string map parse_digits];
    (match goal with |- context [digit_value 10 ?c] =>
       let v := eval vm_compute in (digit_value 10 c) in
       change (digit_value 10 c) with v end);
    cbv beta iota; f_equal; lia.
Qed.

Lemma parse_digits_of_uint (d : Decimal.uint) :
  parse_digits 10 0 (js (NilEmpty.string_of_uint d)) = Z.of_N (Pos.of_uint d).
Proof.
  induction d; [reflexivity|..];
    cbn [NilEmpty.string_of_uint Pos.of_uint];
    unfold js; cbn [list_ascii_of_string map parse_digits];
    (match goal with |- context [digit_value 10 ?c] =>
       let v := eval vm_compute in (digit_value 10 c) in
       change (digit_value 10 c) with v end);
    cbv beta iota; [exact IHd|..];
    cbn [Z.mul Z.add Z.of_N]; apply parse_digits_of_uint_acc.
Qed.

Lemma to_uint_digits (p : positive) :
  NilZero.string_of_uint (Pos.to_uint p) = NilEmpty.string_of_uint (Pos.to_uint p)
  /\ js (NilEmpty.string_of_uint (Pos.to_uint p)) <> []
  /\ parse_digits 10 0 (js (NilEmpty.string_of_uint (Pos.to_uint p))) = Z.pos p.
Proof.
  pose proof (DecimalPos.Unsigned.of_to p) as Hp.
  rewrite parse_digits_of_uint, Hp.
  destruct (Pos.to_uint p); [discriminate|..]; repeat split; discriminate.
Qed.

End ParseIntToString.

Lemma parseInt_to_string (n : Z) : parseInt (number_to_string n) = Some n.
Proof.
  unfold number_to_string.
  destruct n as [|p|p]; [reflexivity|..]; cbn [Z.to_int NilZero.string_of_int];
    destruct (to_uint_digits p) as (-> & Hne & Hval);
    pose proof (parseInt_digit_string _ Hne (string_of_uint_digits _)) as [Hpos Hneg].
  - now rewrite Hpos, Hval.
  - change (js (String "-" ?s)) with (45%N :: js s). now rewrite Hneg, Hval.
Qed.

Lemma number_to_string_truthy (n : Z) : truthy (number_to_string n) = true.
Proof.
  pose proof (parseInt_to_string n) as H.
  destruct (number_to_string n); [discriminate H | reflexivity].
Qed.

Section Server.







End Server.



Section SavedInterval.

Lemma monitoring_keys_differ :
  js "notificationCheckInterval" <> js "emailNotificationsEnabled".
Proof. intros H. vm_compute in H. discriminate H. Qed.

Lemma stored_interval_saved (n : Z) (d : Db) :
  stored_interval
    (set_settings (<[js "notificationCheckInterval" := number_to_string n]> (settings d)) d)
  = n.
Proof.
  unfold stored_interval, get_setting. cbn [settings set_settings].
  rewrite lookup_insert_eq. unfold or_default.
  now rewrite number_to_string_truthy, parseInt_to_string.
Qed.

Lemma stored_enabled_saved (value : list N) (d : Db) :
  stored_enabled
    (set_settings (<[js "notificationCheckInterval" := value]> (settings d)) d)
  = stored_enabled d.
Proof.
  unfold stored_enabled, get_setting. cbn [settings set_settings].
  now rewrite lookup_insert_ne by apply monitoring_keys_differ.
Qed.

Lemma post_interval (n : Z) (d : Db) (m : Monitor) :
  post_setting (js "notificationCheckInterval") (number_to_string n) (d, m)
  = (set_settings (<[js "notificationCheckInterval" := number_to_string n]> (settings d)) d,
     if stored_enabled d && (0 <? n) then startMonitoring n m else stopMonitoring m).
Proof.
  unfold post_setting. cbv zeta.
  rewrite stored_interval_saved, stored_enabled_saved.
  replace (str_eqb (js "notificationCheckInterval") (js "notificationCheckInterval"))
    with true by (symmetry; apply str_eqb_refl).
  rewrite orb_true_r. now destruct (stored_enabled d && (0 <? n)).
Qed.

Lemma startMonitoring_started (n : Z) (m : Monitor) :
  0 < n ->
  isRunning (startMonitoring n m) = true
  /\ currentCronExpression (startMonitoring n m) = intervalToCron n.
Proof.
  intros Hpos. destruct (intervalToCron_positive n Hpos) as [e He].
  unfold startMonitoring. cbv zeta. rewrite He. now split.
Qed.

Lemma stopMonitoring_not_running (m : Monitor) : isRunning (stopMonitoring m) = false.
Proof.
  unfold stopMonitoring, isRunning. destruct (cronJob m) eqn:Hc; [reflexivity|].
  now rewrite Hc.
Qed.

End SavedInterval.

(** X4: an interval the panel saves as [interval.toString()] (an integer up
    to [Number.MAX_SAFE_INTEGER] in absolute value) is read back by
    [parseInt] as the same number, so after the request the stored interval
    is that number; the monitor then runs exactly when the stored flag is
    "true" and the number is positive, with the expression of that
    number. *)
Theorem saved_interval_read_back (n : Z) (d : Db) (m : Monitor) :
  Z.abs n <= MAX_SAFE_INTEGER ->
  let s' := post_setting (js "notificationCheckInterval") (number_to_string n) (d, m) in
  parseInt (number_to_string n) = Some n
  /\ stored_interval (fst s') = n
  /\ (isRunning (snd s') = true <-> stored_enabled d = true /\ 0 < n)
  /\ (isRunning (snd s') = true -> currentCronExpression (snd s') = intervalToCron n).
Proof.
  intros _ s'. subst s'. rewrite post_interval. cbn [fst snd].
  split; [apply parseInt_to_string|]. split; [apply stored_interval_saved|].
  destruct (stored_enabled d); cbn [andb].
  - destruct (Z.ltb_spec 0 n) as [Hpos|Hle].
    + destruct (startMonitoring_started n m Hpos) as [-> ->]. now split.
    + rewrite stopMonitoring_not_running. split; [|discriminate].
      split; [discriminate | intros [_ H]; lia].
  - rewrite stopMonitoring_not_running. split; [|discriminate].
    split; [discriminate | intros [H _]; discriminate].
Qed.

(** Two hours, an interval the table does not have: it is read back, and
    the monitor runs every 120 minutes. *)
Lemma saved_interval_read_back_witness :
  let d := set_settings {[ js "emailNotificationsEnabled" := js "true" ]} empty_db in
  let s' := post_setting (js "notificationCheckInterval") (js "7200000")
              (d, initial_monitor) in
  stored_interval (fst s') = 7200000
  /\ currentCronExpression (snd s') = Some (js "*/120 * * * *").
Proof.
  intros d s'.
  destruct (saved_interval_read_back 7200000 d initial_monitor) as (_ & Hi & Hrun & Hexpr).
  - unfold MAX_SAFE_INTEGER. cbn. lia.
  - split; [exact Hi|].
    transitivity (intervalToCron 7200000); [|reflexivity].
    apply Hexpr, Hrun. split; [reflexivity | lia].
Defined.

(** X5: with the notifications enabled, saving any interval the settings
    panel offers either stops the monitor (the interval 0) or starts it with
    an expression of the lookup table of [intervalToCron]: no interval of
    the panel falls to the every-N-minutes fallback. *)
Theorem panel_intervals_in_table (n : Z) (d : Db) (m : Monitor) :
  In n NOTIFICATION_INTERVALS ->
  stored_enabled d = true ->
  let s' := post_setting (js "notificationCheckInterval") (number_to_string n) (d, m) in
  (n = 0 /\ isRunning (snd s') = false)
  \/ (exists k e, In (k, e) cron_table /\ n = k * 60000
                 /\ isRunning (snd s') = true
                 /\ currentCronExpression (snd s') = Some e).
Proof.
  intros Hin Hen s'. subst s'. rewrite post_interval, Hen. cbn [fst snd andb].
  unfold NOTIFICATION_INTERVALS in Hin. cbn [In] in Hin.
  destruct Hin as [<-|Hin]; [left; split; [reflexivity | apply stopMonitoring_not_running]|].
  right.
  repeat (destruct Hin as [<-|Hin];
    [match goal with
     | |- context [startMonitoring ?n m] =>
         let k := eval vm_compute in (n / 60000) in
         destruct (startMonitoring_started n m eq_refl) as [Hrun Hexpr];
         change (0 <? n) with true; cbv iota;
         exists k; eexists; split; [|split; [reflexivity|split; [exact Hrun|]]];
         [|rewrite Hexpr; reflexivity]; unfold cron_table; cbn [In]; auto 20
     end|]).
  destruct Hin.
Qed.

(** Every 12 hours, the seventh interval of the panel. *)
Lemma panel_intervals_in_table_witness :
  let d := set_settings {[ js "emailNotificationsEnabled" := js "true" ]} empty_db in
  let s' := post_setting (js "notificationCheckInterval") (js "43200000")
              (d, initial_monitor) in
  exists k e, In (k, e) cron_table /\ 43200000 = k * 60000
              /\ isRunning (snd s') = true
              /\ currentCronExpression (snd s') = Some e.
Proof.
  intros d s'.
  destruct (panel_intervals_in_table 43200000 d initial_monitor) as [[H0 _]|H].
  - unfold NOTIFICATION_INTERVALS. cbn [In]. auto 20.
  - reflexivity.
  - discriminate H0.
  - exact H.
Defined.

(** * Further properties: the pipeline *)

Section CycleCalls.

Variable env : Env.

Lemma cycle_calls_shape (source : ChangelogSource) (w : World) :
  ensures (checkSourceForNewChangelog env source) w (fun _ w' =>
    exists rest n, calls w' = calls w ++ fetch_call env source w :: rest
                   /\ map kind_of rest = take n [KAnalyzer; KTTS; KMailer]).
Proof.
  unfold_pipeline. repeat run_step.
  all: world_simpl; rewrite <- ?app_assoc; cbn [app].
  all: unfold fetch_call.
  all: match goal with H : http_get _ _ _ = _ |- _ => rewrite H end.
  all: eexists.
  all: first [ exists 0%nat; split; reflexivity
             | exists 1%nat; split; reflexivity
             | exists 2%nat; split; reflexivity
             | exists 3%nat; split; reflexivity ].
Qed.

Lemma cycle_noop (source : ChangelogSource) (w : World) :
  fetched_version env source w = None
  \/ fetched_version env source w = getLastKnownVersion (Some (src_id source)) (db w) ->
  ensures (checkSourceForNewChangelog env source) w (fun r w' =>
    db w' = db w
    /\ calls w' = calls w ++ [fetch_call env source w]).
Proof.
  intros H. unfold fetched_version in H. unfold fetch_call.
  unfold checkSourceForNewChangelog, checkSource, fetchChangelog.
  repeat run_det. world_simpl.
  destruct (http_get env (calls w) (src_url source)) as [response|e] eqn:Hget;
    [|repeat run_det; world_simpl; auto].
  destruct (resp_ok response) eqn:Hok; cbn [negb];
    [|repeat run_det; world_simpl; auto].
  repeat run_det. cbv beta iota.
  destruct (parseLatestVersion (resp_body response)) as [latest|] eqn:Hparse;
    [|repeat run_det; world_simpl; auto].
  cbn [fmap option_fmap option_map] in H.
  destruct H as [H|H]; [discriminate|].
  repeat run_det. world_simpl.
  rewrite bool_decide_eq_true_2 by (symmetry; exact H).
  repeat run_det. world_simpl. auto.
Qed.

End CycleCalls.

Section LastKnown.

Lemma latest_row_app (rows : list HistoryRow) (r : HistoryRow) :
  latest_row (rows ++ [r]) = later (latest_row rows) r.
Proof. unfold latest_row. now rewrite fold_left_app. Qed.

Lemma fold_later_In (rows : list HistoryRow) (best b : HistoryRow) :
  fold_left later rows (Some best) = Some b -> b = best \/ In b rows.
Proof.
  revert best. induction rows as [|r rows IH]; intros best H; cbn [fold_left] in H.
  - left. congruence.
  - cbn [later] in H. destruct (hist_detected_at best <? hist_detected_at r)%N.
    + destruct (IH _ H) as [->|Hin]; [right; now left | right; now right].
    + destruct (IH _ H) as [->|Hin]; [now left | right; now right].
Qed.

Lemma latest_row_In (rows : list HistoryRow) (b : HistoryRow) :
  latest_row rows = Some b -> In b rows.
Proof.
  unfold latest_row. destruct rows as [|r rows]; [discriminate|].
  cbn [fold_left]. intros H. change (fold_left later rows (Some r) = Some b) in H.
  destruct (fold_later_In _ _ _ H) as [->|Hin]; [now left | now right].
Qed.

(** Rows that agree on version and timestamp have the same latest version. *)
Lemma latest_row_version (rows rows' : list HistoryRow) :
  Forall2 (fun r r' => hist_version r = hist_version r'
                       /\ hist_detected_at r = hist_detected_at r') rows rows' ->
  hist_version <$> latest_row rows = hist_version <$> latest_row rows'.
Proof.
  unfold latest_row.
  assert (Hgen : forall best best' : option HistoryRow,
    (match best, best' with
     | Some b, Some b' => hist_version b = hist_version b'
                          /\ hist_detected_at b = hist_detected_at b'
     | None, None => True
     | _, _ => False
     end) ->
    Forall2 (fun r r' => hist_version r = hist_version r'
                         /\ hist_detected_at r = hist_detected_at r') rows rows' ->
    hist_version <$> fold_left later rows best
    = hist_version <$> fold_left later rows' best').
  { intros best best' Hb Hall. revert best best' Hb.
    induction Hall as [|r r' rows rows' [Hv Ht] _ IH]; intros best best' Hb.
    - destruct best as [b|], best' as [b'|]; try contradiction; [|reflexivity].
      cbn. f_equal. apply Hb.
    - cbn [fold_left]. apply IH.
      destruct best as [b|], best' as [b'|]; try contradiction; cbn [later].
      + destruct Hb as [Hbv Hbt]. rewrite Hbt, Ht.
        destruct (hist_detected_at b' <? hist_detected_at r')%N; auto.
      + auto. }
  intros Hall. now apply Hgen.
Qed.

Lemma filter_map_mark (v0 s0 sid : list N) (h : list HistoryRow) :
  Forall2 (fun r r' => hist_version r = hist_version r'
                       /\ hist_detected_at r = hist_detected_at r')
    (List.filter (of_source sid) (map (mark_row v0 s0) h))
    (List.filter (of_source sid) h).
Proof.
  induction h as [|r h IH]; [constructor|]. cbn [map List.filter].
  assert (Hs : of_source sid (mark_row v0 s0 r) = of_source sid r).
  { unfold mark_row. now destruct (str_eqb (hist_version r) v0 && of_source s0 r). }
  rewrite Hs. destruct (of_source sid r); [|exact IH].
  constructor; [|exact IH].
  unfold mark_row. now destruct (str_eqb (hist_version r) v0 && of_source s0 r).
Qed.

Lemma map_mark_same (v0 s0 : list N) (h : list HistoryRow) :
  Forall2 (fun r r' => hist_version r = hist_version r'
                       /\ hist_detected_at r = hist_detected_at r')
    (map (mark_row v0 s0) h) h.
Proof.
  induction h as [|r h IH]; constructor; [|exact IH].
  unfold mark_row. now destruct (str_eqb (hist_version r) v0 && of_source s0 r).
Qed.

(** Marking a pair as notified never changes which version is the last
    known one, of a source or overall. *)
Lemma getLastKnownVersion_mark (s : option (list N)) (v0 s0 : list N) (d : Db) :
  getLastKnownVersion s (markVersionNotified v0 s0 d) = getLastKnownVersion s d.
Proof.
  unfold getLastKnownVersion, markVersionNotified. cbn [changelog_history set_history].
  destruct s as [sid|]; [destruct (truthy sid)|].
  - apply latest_row_version, filter_map_mark.
  - apply latest_row_version, map_mark_same.
  - apply latest_row_version, map_mark_same.
Qed.

(** A version recorded for the first time, later than every row of the
    source, becomes the last known version of the source. *)
Lemma getLastKnownVersion_fresh (v sid : list N) (now : N) (h : list HistoryRow) :
  sid <> [] ->
  known_version v h = false ->
  detected_before now sid h ->
  hist_version <$> latest_row
     (List.filter (of_source sid) (insert_or_ignore_history v sid now h)) = Some v.
Proof.
  intros Hsid Hfresh Hbefore.
  unfold insert_or_ignore_history. unfold known_version in Hfresh. rewrite Hfresh.
  rewrite List.filter_app. cbn [List.filter].
  assert (Hself : forall t n, of_source sid {| hist_version := v; hist_detected_at := t;
                            hist_notified := n; hist_source_id := Some sid |} = true)
    by (intros; now apply of_source_eq).
  rewrite Hself. rewrite latest_row_app.
  destruct (latest_row (List.filter (of_source sid) h)) as [b|] eqn:Hb; [|reflexivity].
  cbn [later hist_detected_at].
  apply latest_row_In in Hb. apply filter_In in Hb as [Hin Hsrc].
  unfold detected_before in Hbefore. rewrite List.Forall_forall in Hbefore.
  specialize (Hbefore b Hin Hsrc).
  apply N.ltb_lt in Hbefore. now rewrite Hbefore.
Qed.

Lemma getLastKnownVersion_saveVersion (v sid : list N) (now : N) (d : Db) :
  sid <> [] ->
  known_version v (changelog_history d) = false ->
  detected_before now sid (changelog_history d) ->
  getLastKnownVersion (Some sid) (saveVersion v sid now d) = Some v.
Proof.
  intros Hsid Hfresh Hbefore. unfold getLastKnownVersion, saveVersion.
  cbn [changelog_history set_history set_sources].
  destruct sid as [|c sid]; [congruence|]. cbn [truthy].
  now apply getLastKnownVersion_fresh.
Qed.

(** A last known version of a source has a row for the pair. *)
Lemma getLastKnownVersion_has_row (v sid : list N) (d : Db) :
  sid <> [] ->
  getLastKnownVersion (Some sid) d = Some v ->
  has_row v sid (changelog_history d) = true.
Proof.
  intros Hsid. unfold getLastKnownVersion.
  destruct sid as [|c sid]; [congruence|]. cbn [truthy].
  destruct (latest_row _) as [b|] eqn:Hb; [|discriminate].
  cbn. intros [= <-]. apply latest_row_In in Hb. apply filter_In in Hb as [Hin Hsrc].
  unfold has_row. apply existsb_exists. exists b. split; [assumption|].
  now rewrite str_eqb_refl, Hsrc.
Qed.

Lemma mark_row_absent (v sid : list N) (h : list HistoryRow) :
  has_row v sid h = false -> map (mark_row v sid) h = h.
Proof.
  unfold has_row. induction h as [|r h IH]; [reflexivity|]. cbn [existsb map].
  intros H. apply orb_false_iff in H as [Hr Hh].
  unfold mark_row at 1. rewrite Hr. now rewrite IH.
Qed.

End LastKnown.

Section Flow.

Variable env : Env.

Lemma cycle_flow (source : ChangelogSource) (w : World) :
  ensures (checkSourceForNewChangelog env source) w (fun _ w' =>
    exists l, calls w' = calls w ++ l
    /\ (existsb is_mailer l = false
        \/ exists response latest analysis tts to answer,
             parseLatestVersion (resp_body response) = Some latest
             /\ NOTIFY_EMAIL env = Some to
             /\ (tts = None \/ exists pcm wav, tts = Some pcm /\ pcmToWav pcm = Some wav)
             /\ l = [ CallFetch (src_url source) (Returned response);
                      CallAnalyzer (entry_content latest) (Returned (Some analysis));
                      CallTTS (tldr analysis)
                        (or_default (get_setting (js "notificationVoice") (db w)) (js "Charon"))
                        (Returned tts);
                      CallMailer
                        (emailPayload to
                           (set_version (src_name source ++ js " " ++ entry_version latest)
                              analysis)
                           (audio_of tts))
                        answer ])).
Proof.
  unfold_pipeline. repeat run_step.
  all: world_simpl; rewrite <- ?app_assoc; cbn [app].
  all: eexists; (split; [reflexivity|]).
  all: try (left; reflexivity).
  all: right.
  all: match goal with
       | Hp : parseLatestVersion (resp_body ?a) = Some ?p,
         Hn : NOTIFY_EMAIL env = Some ?to
         |- context [CallAnalyzer _ (Returned (Some ?c))] =>
           match goal with
           | |- context [CallTTS _ _ (Returned ?tts)] =>
               match goal with
               | |- context [CallMailer _ ?ans] => exists a, p, c, tts, to, ans
               end
           end
       end.
  all: (split; [assumption|]); (split; [reflexivity|]).
  all: unfold audio_of; cbn [mbind option_bind].
  all: repeat match goal with H : pcmToWav _ = _ |- _ => rewrite H end.
  all: split; [first [left; reflexivity | right; eauto] | reflexivity].
Qed.

End Flow.

Section Recorded.

Variable env : Env.

(** What the fetched version says about the fetch. *)
Lemma fetched_version_Some (source : ChangelogSource) (w : World) (v : list N) :
  fetched_version env source w = Some v ->
  exists response latest,
    http_get env (calls w) (src_url source) = Returned response
    /\ resp_ok response = true
    /\ parseLatestVersion (resp_body response) = Some latest
    /\ entry_version latest = v.
Proof.
  unfold fetched_version.
  destruct (http_get env (calls w) (src_url source)) as [response|e]; [|discriminate].
  destruct (resp_ok response) eqn:Hok; [|discriminate].
  destruct (parseLatestVersion (resp_body response)) as [latest|] eqn:Hparse;
    [|discriminate].
  cbn. intros [= <-]. now exists response, latest.
Qed.

(** A cycle that detects a new version records it, whatever happens
    afterwards: the database is that of [saveVersion], with at most the flag
    of the pair set on top. *)
Lemma cycle_records (source : ChangelogSource) (w : World) (v : list N) :
  fetched_version env source w = Some v ->
  getLastKnownVersion (Some (src_id source)) (db w) <> Some v ->
  ensures (checkSourceForNewChangelog env source) w (fun _ w' =>
    let now := CURRENT_TIMESTAMP env (calls w ++ [fetch_call env source w]) in
    db w' = saveVersion v (src_id source) now (db w)
    \/ db w' = markVersionNotified v (src_id source)
                 (saveVersion v (src_id source) now (db w))).
Proof.
  intros Hv Hnew.
  destruct (fetched_version_Some _ _ _ Hv) as (response & latest & Hget & Hok & Hparse & <-).
  unfold fetch_call. unfold checkSourceForNewChangelog, checkSource, fetchChangelog.
  repeat run_det. world_simpl. rewrite Hget. cbv beta iota.
  rewrite Hok. cbn [negb]. repeat run_det. cbv beta iota.
  rewrite Hparse. repeat run_det. world_simpl.
  rewrite bool_decide_eq_false_2 by assumption.
  repeat run_det. world_simpl.
  unfold notify, analyzeChangelog, generateTTSAudio, sendEmailWithAttachment.
  repeat run_step.
  all: world_simpl; cbv zeta; auto.
Qed.

End Recorded.

Section Batch.

Variable env : Env.

Lemma notification_calls_no_fetch (rest : list call) (n : nat) :
  map kind_of rest = take n [KAnalyzer; KTTS; KMailer] ->
  omap fetched_url rest = [] /\ existsb notification_call rest = negb (bool_decide (rest = [])).
Proof.
  intros H.
  assert (Hall : Forall (fun k => k <> KFetch) (map kind_of rest)).
  { rewrite H. apply Forall_take. repeat constructor; discriminate. }
  clear H. induction rest as [|c rest IH]; [split; reflexivity|].
  inversion Hall as [|k ks Hc Hrest]; subst.
  destruct c; try (now contradiction Hc); cbn; split; try reflexivity; apply IH; assumption.
Qed.

Lemma cycles_fetches (sources : list ChangelogSource) (w : World) :
  exists l, calls (cycles env sources w) = calls w ++ l
            /\ omap fetched_url l = map src_url sources.
Proof.
  revert w. induction sources as [|source rest IH]; intros w.
  - exists []. now rewrite app_nil_r.
  - cbn [cycles fold_left].
    destruct (cycle_calls_shape env source w) as (l1 & n & H1 & Hk).
    destruct (IH (snd (checkSourceForNewChangelog env source w))) as (l2 & H2 & Hf2).
    exists ((fetch_call env source w :: l1) ++ l2). split.
    + unfold cycles in H2. rewrite H2, H1. now rewrite <- app_assoc.
    + change ((fetch_call env source w :: l1) ++ l2)
        with ([fetch_call env source w] ++ l1 ++ l2).
      rewrite !omap_app, Hf2, (proj1 (notification_calls_no_fetch _ _ Hk)).
      reflexivity.
Qed.

End Batch.

(** X7: the calls of a cycle are the fetch of the source's URL, then at most
    one request to the Analyzer, at most one to the TTS service and at most
    one to the Mailer, in this order and none without the one before it. *)
Theorem cycle_calls_in_order (env : Env) (source : ChangelogSource) (w : World) :
  let cs := new_calls w (snd (checkSourceForNewChangelog env source w)) in
  exists rest n,
    cs = fetch_call env source w :: rest
    /\ map kind_of rest = take n [KAnalyzer; KTTS; KMailer].
Proof.
  intros cs.
  destruct (cycle_calls_shape env source w) as (rest & n & Hl & Hk).
  exists rest, n. split; [now apply new_calls_app | assumption].
Qed.

(** X8: the URLs a batch fetches are those of the sources that were active
    when it started, each once and in the order of the table: an inactive
    source is never fetched, and a failure in one cycle costs no other
    source its fetch. *)
Theorem batch_fetches_active_sources (env : Env) (w : World) :
  omap fetched_url (new_calls w (snd (checkForNewChangelog env w)))
  = map src_url (getActiveSources (db w)).
Proof.
  rewrite checkForNewChangelog_run. cbn [snd]. unfold batch_end. cbv zeta.
  destruct (getActiveSources (db w)) as [|source rest] eqn:Hs.
  - erewrite new_calls_app by (world_simpl; now rewrite app_nil_r). reflexivity.
  - destruct (cycles_fetches env (source :: rest)
                (add_log (LogCount (length (source :: rest))) (add_log LogStarting w)))
      as (l & Hl & Hf).
    erewrite new_calls_app by (world_simpl; exact Hl). exact Hf.
Qed.

(** X9: a cycle whose fetch fails, or answers with a non-success status or
    with a document without a version header, or yields the version that is
    already the last known one of the source, leaves the database as it was
    (also [last_checked_at] of the source) and calls nothing but the
    fetch. *)
Theorem cycle_without_new_version (env : Env) (source : ChangelogSource) (w : World) :
  fetched_version env source w = None
  \/ fetched_version env source w
     = getLastKnownVersion (Some (src_id source)) (db w) ->
  let w' := snd (checkSourceForNewChangelog env source w) in
  db w' = db w /\ new_calls w w' = [fetch_call env source w].
Proof.
  intros H w'. destruct (cycle_noop env source w H) as [Hdb Hcalls].
  split; [assumption | now apply new_calls_app].
Qed.

(** The source that cannot be fetched: the fetch is the only call, and the
    database is as before. *)
Lemma cycle_without_new_version_witness :
  let w := demo_world (js "true") in
  let w' := snd (checkSourceForNewChangelog demo_env offline_source w) in
  db w' = db w
  /\ new_calls w w' = [CallFetch (src_url offline_source) (Thrown (js "fetch failed"))].
Proof.
  intros w w'.
  apply (cycle_without_new_version demo_env offline_source w). left. reflexivity.
Defined.

(** X10: a cycle either makes no call to the Mailer, or makes exactly four
    calls: the fetch, which answered with a document that parses; the
    Analyzer on the content of the parsed entry, which answered with an
    analysis; the TTS service on the [tldr] of that analysis, with the
    stored [notificationVoice] or "Charon" when none is stored or it is
    empty; and the Mailer with the payload built from the analysis under the
    label [<source name> <version>], to the configured recipient, with the
    WAV of the audio as attachment when the TTS service answered with audio
    and with no attachment when it answered with none. *)
Theorem cycle_notification_flow (env : Env) (source : ChangelogSource) (w : World) :
  let cs := new_calls w (snd (checkSourceForNewChangelog env source w)) in
  existsb is_mailer cs = false
  \/ exists response latest analysis tts to answer,
       parseLatestVersion (resp_body response) = Some latest
       /\ NOTIFY_EMAIL env = Some to
       /\ (tts = None \/ exists pcm wav, tts = Some pcm /\ pcmToWav pcm = Some wav)
       /\ cs = [ CallFetch (src_url source) (Returned response);
                 CallAnalyzer (entry_content latest) (Returned (Some analysis));
                 CallTTS (tldr analysis)
                   (or_default (get_setting (js "notificationVoice") (db w)) (js "Charon"))
                   (Returned tts);
                 CallMailer
                   (emailPayload to
                      (set_version (src_name source ++ js " " ++ entry_version latest)
                         analysis)
                      (audio_of tts))
                   answer ].
Proof.
  intros cs. destruct (cycle_flow env source w) as (l & Hl & H).
  assert (Hcs : cs = l) by now apply new_calls_app. rewrite Hcs. exact H.
Qed.

Section Once.

Variable env : Env.

Lemma cycle_flags_without_mail (source : ChangelogSource) (w : World) :
  let w' := snd (checkSourceForNewChangelog env source w) in
  existsb is_mailer (new_calls w w') = false ->
  forall v sid, is_notified v sid (changelog_history (db w'))
                = is_notified v sid (changelog_history (db w)).
Proof.
  intros w' Hno v sid.
  pose proof (cycle_history env source w) as Hc. unfold ensures in Hc. cbv zeta in Hc.
  fold w' in Hc.
  assert (Hsent : existsb mail_sent (new_calls w w') = false).
  { revert Hno. generalize (new_calls w w'). intros cs.
    induction cs as [|c cs IH]; [reflexivity|]. cbn [existsb].
    intros H. apply orb_false_iff in H as [Hc0 Hcs]. rewrite (IH Hcs).
    destruct c as [| | |payload [[]|]]; try reflexivity; discriminate. }
  rewrite Hsent in Hc.
  destruct Hc as [[Hh _]|(v0 & now & _ & [[Hh _]|[_ Habs]])];
    [now rewrite Hh | rewrite Hh; apply is_notified_insert | discriminate].
Qed.

End Once.

(** X11: without the Gemini key a cycle calls nothing but the fetch; without
    the mail key or the recipient it never calls the Mailer and changes no
    [notified] flag. *)
Theorem notification_needs_configuration (env : Env) (source : ChangelogSource)
    (w : World) :
  let w' := snd (checkSourceForNewChangelog env source w) in
  (present (GEMINI_API_KEY env) = false -> new_calls w w' = [fetch_call env source w])
  /\ (present (RESEND_API_KEY env) && present (NOTIFY_EMAIL env) = false ->
      existsb is_mailer (new_calls w w') = false
      /\ forall v sid, is_notified v sid (changelog_history (db w'))
                       = is_notified v sid (changelog_history (db w))).
Proof.
  intros w'. split.
  - intros Hkey.
    assert (Hrun : ensures (checkSourceForNewChangelog env source) w (fun _ w1 =>
              calls w1 = calls w ++ [fetch_call env source w])).
    { unfold_pipeline. rewrite Hkey. cbn [negb]. repeat run_step.
      all: world_simpl; rewrite <- ?app_assoc; cbn [app]; unfold fetch_call.
      all: match goal with H : http_get _ _ _ = _ |- _ => rewrite H end.
      all: reflexivity. }
    now apply new_calls_app.
  - intros Hmail.
    assert (Hrun : ensures (checkSourceForNewChangelog env source) w (fun _ w1 =>
              exists l, calls w1 = calls w ++ l /\ existsb is_mailer l = false)).
    { unfold_pipeline. unfold present in Hmail.
      repeat run_step.
      all: world_simpl; rewrite <- ?app_assoc; cbn [app].
      all: try (eexists; split; [reflexivity | reflexivity]).
      all: exfalso.
      all: repeat match goal with
             | H : RESEND_API_KEY _ = _ |- _ => rewrite H in Hmail
             | H : NOTIFY_EMAIL _ = _ |- _ => rewrite H in Hmail
             end.
      all: congruence. }
    destruct Hrun as (l & Hl & Hno).
    assert (Hcs : new_calls w w' = l) by now apply new_calls_app.
    split; [now rewrite Hcs|].
    apply cycle_flags_without_mail. fold w'. now rewrite Hcs.
Qed.

(** The demo source without the mail key: the analysis and the audio are
    still requested, no mail is sent, and the version is recorded with its
    flag unset. *)
Lemma notification_needs_configuration_witness :
  let w := demo_world (js "true") in
  let w' := snd (checkSourceForNewChangelog demo_env_no_mail demo_source w) in
  map kind_of (new_calls w w') = [KFetch; KAnalyzer; KTTS]
  /\ is_notified (js "2.0.74") (js "src_claude_code") (changelog_history (db w')) = false
  /\ known_version (js "2.0.74") (changelog_history (db w')) = true.
Proof.
  intros w w'.
  destruct (notification_needs_configuration demo_env_no_mail demo_source w)
    as [_ Hmail].
  destruct (Hmail eq_refl) as [_ Hflags].
  split; [vm_compute; reflexivity|]. split; [|vm_compute; reflexivity].
  fold w' in Hflags. rewrite Hflags. reflexivity.
Defined.

(** X12: when a cycle detects a version the history does not know, at a
    time later than every row of the source, that version is the last known
    one of the source afterwards, whatever became of the notification; and
    from any later state with the same database, a cycle that fetches the
    same version changes nothing and calls nothing but the fetch. A version
    is thus notified at most once, and a notification that failed is not
    retried. *)
Theorem new_version_processed_once (env : Env) (source : ChangelogSource)
    (w : World) (v : list N) :
  src_id source <> [] ->
  fetched_version env source w = Some v ->
  known_version v (changelog_history (db w)) = false ->
  detected_before (CURRENT_TIMESTAMP env (calls w ++ [fetch_call env source w]))
    (src_id source) (changelog_history (db w)) ->
  let w1 := snd (checkSourceForNewChangelog env source w) in
  getLastKnownVersion (Some (src_id source)) (db w1) = Some v
  /\ forall w2,
       db w2 = db w1 ->
       fetched_version env source w2 = Some v ->
       let w3 := snd (checkSourceForNewChangelog env source w2) in
       db w3 = db w2 /\ new_calls w2 w3 = [fetch_call env source w2].
Proof.
  intros Hsid Hv Hfresh Hbefore w1.
  assert (Hnew : getLastKnownVersion (Some (src_id source)) (db w) <> Some v).
  { intros Hlast. apply getLastKnownVersion_has_row in Hlast; [|assumption].
    apply has_row_known in Hlast. congruence. }
  assert (Hlast : getLastKnownVersion (Some (src_id source)) (db w1) = Some v).
  { destruct (cycle_records env source w v Hv Hnew) as [Hdb|Hdb];
      fold w1 in Hdb; rewrite Hdb; rewrite ?getLastKnownVersion_mark;
      now apply getLastKnownVersion_saveVersion. }
  split; [assumption|].
  intros w2 Hdb2 Hv2 w3.
  destruct (cycle_noop env source w2) as [Hdb3 Hcalls].
  { right. now rewrite Hv2, Hdb2, Hlast. }
  split; [assumption | now apply new_calls_app].
Qed.

(** Two cycles of the demo source in a row: the first notifies, the second
    only fetches. *)
Lemma new_version_processed_once_witness :
  let w := demo_world (js "true") in
  let w1 := snd (checkSourceForNewChangelog demo_env demo_source w) in
  let w2 := snd (checkSourceForNewChangelog demo_env demo_source w1) in
  map kind_of (new_calls w w1) = [KFetch; KAnalyzer; KTTS; KMailer]
  /\ getLastKnownVersion (Some (src_id demo_source)) (db w1) = Some (js "2.0.74")
  /\ db w2 = db w1
  /\ map kind_of (new_calls w1 w2) = [KFetch].
Proof.
  intros w w1 w2.
  destruct (new_version_processed_once demo_env demo_source w (js "2.0.74"))
    as [Hlast Hnext].
  - discriminate.
  - reflexivity.
  - reflexivity.
  - constructor.
  - fold w1 in Hlast, Hnext.
    destruct (Hnext w1 eq_refl) as [Hdb Hcalls]; [vm_compute; reflexivity|].
    fold w2 in Hdb, Hcalls.
    split; [vm_compute; reflexivity|]. split; [assumption|]. split; [assumption|].
    now rewrite Hcalls.
Defined.

(** X13: when a cycle detects a version the history holds, but not for this
    source (for another source, or from before the sources existed), the
    history is left as it was: the version does not become the last known
    one of the source, so the next cycle detects it again, and its
    [notified] flag for the source stays unset even after a successful
    send. *)
Theorem shadowed_version_stays_new (env : Env) (source : ChangelogSource)
    (w : World) (v : list N) :
  src_id source <> [] ->
  fetched_version env source w = Some v ->
  known_version v (changelog_history (db w)) = true ->
  has_row v (src_id source) (changelog_history (db w)) = false ->
  let w' := snd (checkSourceForNewChangelog env source w) in
  changelog_history (db w') = changelog_history (db w)
  /\ getLastKnownVersion (Some (src_id source)) (db w') <> Some v
  /\ is_notified v (src_id source) (changelog_history (db w')) = false.
Proof.
  intros Hsid Hv Hknown Hrow w'.
  assert (Hnew : forall d, changelog_history d = changelog_history (db w) ->
                 getLastKnownVersion (Some (src_id source)) d <> Some v).
  { intros d Hd Hlast. apply getLastKnownVersion_has_row in Hlast; [|assumption].
    rewrite Hd in Hlast. congruence. }
  assert (Hh : changelog_history (db w') = changelog_history (db w)).
  { destruct (cycle_records env source w v Hv (Hnew _ eq_refl)) as [Hdb|Hdb];
      fold w' in Hdb; rewrite Hdb.
    - now apply saveVersion_known.
    - unfold markVersionNotified. cbn [changelog_history set_history].
      rewrite saveVersion_known by assumption. now apply mark_row_absent. }
  split; [assumption|]. split; [now apply Hnew|].
  rewrite Hh. unfold is_notified. unfold has_row in Hrow.
  apply not_true_is_false. intros Hn. apply existsb_exists in Hn as (r & Hin & Hr).
  apply andb_true_iff in Hr as [Hr _].
  assert (Hex : existsb (fun r => str_eqb (hist_version r) v && of_source (src_id source) r)
                  (changelog_history (db w)) = true)
    by (apply existsb_exists; eauto).
  congruence.
Qed.

(** The demo source when 2.0.74 is on record for another source: two cycles
    in a row both send the mail, and the history never changes. *)
Lemma shadowed_version_stays_new_witness :
  let w := shadowed_world in
  let w1 := snd (checkSourceForNewChangelog demo_env demo_source w) in
  let w2 := snd (checkSourceForNewChangelog demo_env demo_source w1) in
  changelog_history (db w1) = changelog_history (db w)
  /\ existsb mail_sent (new_calls w w1) = true
  /\ is_notified (js "2.0.74") (src_id demo_source) (changelog_history (db w1)) = false
  /\ existsb mail_sent (new_calls w1 w2) = true.
Proof.
  intros w w1 w2.
  destruct (shadowed_version_stays_new demo_env demo_source w (js "2.0.74"))
    as (Hh & _ & Hflag).
  - discriminate.
  - reflexivity.
  - reflexivity.
  - reflexivity.
  - fold w1 in Hh, Hflag. split; [assumption|].
    split; [vm_compute; reflexivity|]. split; [assumption | vm_compute; reflexivity].
Defined.

(** * Further properties: the other endpoints *)



Section Demo.

Variable env : Env.


End Demo.



Section Preview.

Lemma preview_length (content : list N) : (length (preview content) <= 503)%nat.
Proof.
  unfold preview. rewrite length_app, length_take.
  destruct (500 <? length content)%nat;
    [change (length (js "...")) with 3%nat | cbn [length]]; lia.
Qed.

Lemma preview_short (content : list N) :
  (length content <= 500)%nat -> preview content = content.
Proof.
  intros H. unfold preview.
  destruct (Nat.ltb_spec 500 (length content)); [lia|].
  rewrite take_ge by lia. apply app_nil_r.
Qed.

Lemma preview_long (content : list N) :
  (500 < length content)%nat ->
  preview content = take 500 content ++ js "..." /\ length (preview content) = 503%nat.
Proof.
  intros H. unfold preview.
  destruct (Nat.ltb_spec 500 (length content)); [|lia].
  split; [reflexivity|]. rewrite length_app, length_take.
  change (length (js "...")) with 3%nat. lia.
Qed.

End Preview.

(** X15: testing a URL writes nothing to the database or to the console,
    calls no service but at most the fetch, and always answers; it answers
    that the URL is valid only when the fetch of that URL succeeded and the
    document parsed, then with the version of the parsed entry and a
    preview of at most 503 units, which is the content itself when that has
    at most 500 units. *)
Theorem test_source_reads_only (URL_valid : list N -> bool) (env : Env)
    (url : option (list N)) (w : World) :
  let r := fst (test_source URL_valid env url w) in
  let w' := snd (test_source URL_valid env url w) in
  db w' = db w
  /\ console w' = console w
  /\ existsb notification_call (new_calls w w') = false
  /\ exists response,
       r = Returned response
       /\ forall v p, response = TestValid v p ->
            exists u answer latest,
              url = Some u
              /\ new_calls w w' = [CallFetch u (Returned answer)]
              /\ resp_ok answer = true
              /\ parseLatestVersion (resp_body answer) = Some latest
              /\ v = entry_version latest
              /\ p = preview (entry_content latest)
              /\ (length p <= 503)%nat
              /\ ((length (entry_content latest) <= 500)%nat -> p = entry_content latest).
Proof.
  intros r w'. subst r w'. unfold test_source, fetchChangelog.
  destruct url as [u|]; [|cbn; unfold new_calls; rewrite drop_all; repeat split; eauto;
                          eexists; split; [reflexivity | discriminate]].
  destruct (truthy u); cbn [negb];
    [|cbn; unfold new_calls; rewrite drop_all; repeat split; eauto;
      eexists; split; [reflexivity | discriminate]].
  destruct (URL_valid u); cbn [negb];
    [|cbn; unfold new_calls; rewrite drop_all; repeat split; eauto;
      eexists; split; [reflexivity | discriminate]].
  unfold try_catch, mbind, M_bind, request, throw, mret, M_ret.
  destruct (http_get env (calls w) u) as [answer|e] eqn:Hget; cbn [fst snd].
  2: { cbn. erewrite new_calls_app by (cbn; reflexivity). repeat split.
       eexists; split; [reflexivity | discriminate]. }
  destruct (resp_ok answer) eqn:Hok; cbn [negb fst snd].
  2: { cbn. erewrite new_calls_app by (cbn; reflexivity). repeat split.
       eexists; split; [reflexivity | discriminate]. }
  destruct (parseLatestVersion (resp_body answer)) as [latest|] eqn:Hparse; cbn [fst snd].
  2: { cbn. erewrite new_calls_app by (cbn; reflexivity). repeat split.
       eexists; split; [reflexivity | discriminate]. }
  cbn [db console add_call]. erewrite new_calls_app by (cbn; reflexivity).
  split; [reflexivity|]. split; [reflexivity|]. split; [reflexivity|].
  eexists. split; [reflexivity|]. intros v p [= <- <-].
  exists u, answer, latest. repeat split; auto using preview_length, preview_short.
Qed.

(** The URL of the demo source passes the test, and the test leaves the
    database alone. *)
Lemma test_source_reads_only_witness :
  let w := demo_world (js "true") in
  let w' := snd (test_source (fun _ => true) demo_env (Some (src_url demo_source)) w) in
  fst (test_source (fun _ => true) demo_env (Some (src_url demo_source)) w)
  = Returned (TestValid (js "2.0.74") (js "## 2.0.74" ++ [LF] ++ js "Fix: bar"))
  /\ db w' = db w.
Proof.
  intros w w'.
  destruct (test_source_reads_only (fun _ => true) demo_env
              (Some (src_url demo_source)) w) as (Hdb & _).
  split; [vm_compute; reflexivity | exact Hdb].
Defined.

Section DeleteSource.

Lemma filter_length_all {A} (f : A -> bool) (l : list A) :
  (length l - length (List.filter f l) = 0)%nat <-> List.filter f l = l.
Proof.
  induction l as [|x l IH]; [easy|]. cbn [List.filter].
  pose proof (List.filter_length_le f l) as Hle.
  destruct (f x).
  - change (length (x :: l) - length (x :: List.filter f l))%nat
      with (length l - length (List.filter f l))%nat.
    rewrite IH. split; [now intros -> | now intros [= ->]].
  - cbn [length]. split; [lia|]. intros H. exfalso.
    assert (length (List.filter f l) = S (length l)) by now rewrite H.
    lia.
Qed.

Lemma filter_of_source_ne (id sid : list N) (h : list HistoryRow) :
  sid <> id ->
  List.filter (of_source sid) (List.filter (fun r => negb (of_source id r)) h)
  = List.filter (of_source sid) h.
Proof.
  intros Hne. induction h as [|r h IH]; [reflexivity|]. cbn [List.filter].
  destruct (of_source id r) eqn:Hid; cbn [negb List.filter].
  - destruct (of_source sid r) eqn:Hsid; [|exact IH].
    apply of_source_eq in Hid, Hsid. congruence.
  - destruct (of_source sid r); [now rewrite IH | exact IH].
Qed.

Lemma filter_of_source_self (id : list N) (h : list HistoryRow) :
  List.filter (of_source id) (List.filter (fun r => negb (of_source id r)) h) = [].
Proof.
  induction h as [|r h IH]; [reflexivity|]. cbn [List.filter].
  destruct (of_source id r) eqn:Hid; cbn [negb List.filter]; [exact IH|].
  now rewrite Hid.
Qed.

Lemma find_filter_ne (id sid : list N) (sources : list ChangelogSource) :
  sid <> id ->
  List.find (fun s => str_eqb (src_id s) sid)
    (List.filter (fun s => negb (str_eqb (src_id s) id)) sources)
  = List.find (fun s => str_eqb (src_id s) sid) sources.
Proof.
  intros Hne. induction sources as [|s sources IH]; [reflexivity|].
  cbn [List.filter List.find].
  destruct (str_eqb (src_id s) id) eqn:Hid; cbn [negb List.find].
  - destruct (str_eqb (src_id s) sid) eqn:Hsid; [|exact IH].
    apply str_eqb_eq in Hid, Hsid. congruence.
  - now destruct (str_eqb (src_id s) sid).
Qed.

Lemma find_filter_self (id : list N) (sources : list ChangelogSource) :
  List.find (fun s => str_eqb (src_id s) id)
    (List.filter (fun s => negb (str_eqb (src_id s) id)) sources) = None.
Proof.
  induction sources as [|s sources IH]; [reflexivity|]. cbn [List.filter].
  destruct (str_eqb (src_id s) id) eqn:Hid; cbn [negb List.find]; [exact IH|].
  now rewrite Hid.
Qed.

Lemma filter_all_find (id : list N) (sources : list ChangelogSource) :
  List.filter (fun s => negb (str_eqb (src_id s) id)) sources = sources
  <-> List.find (fun s => str_eqb (src_id s) id) sources = None.
Proof.
  induction sources as [|s sources IH]; [easy|]. cbn [List.filter List.find].
  destruct (str_eqb (src_id s) id); cbn [negb].
  - split; [|discriminate]. intros H. exfalso.
    pose proof (List.filter_length_le (fun s => negb (str_eqb (src_id s) id)) sources).
    assert (length (List.filter (fun s => negb (str_eqb (src_id s) id)) sources)
            = S (length sources)) by now rewrite H. lia.
  - rewrite <- IH. split; [now intros [= ->] | now intros ->].
Qed.

Lemma filter_filter_active (id : list N) (sources : list ChangelogSource) :
  List.filter src_is_active (List.filter (fun s => negb (str_eqb (src_id s) id)) sources)
  = List.filter (fun s => negb (str_eqb (src_id s) id)) (List.filter src_is_active sources).
Proof.
  induction sources as [|s sources IH]; [reflexivity|]. cbn [List.filter].
  destruct (str_eqb (src_id s) id) eqn:Hid, (src_is_active s) eqn:Ha;
    cbn [negb List.filter]; rewrite ?Hid, ?Ha; cbn [negb]; now rewrite IH.
Qed.

End DeleteSource.

(** X16: deleting a source answers 404 exactly when no source has the id;
    either way, afterwards no source has the id, the id has no last known
    version, the active sources are those of before without the deleted
    one, and every other source is as before, with its last known
    version; the settings and the audio cache are untouched. *)
Theorem delete_source_forgets (id : list N) (d : Db) :
  id <> [] ->
  let r := fst (delete_source id d) in
  let d' := snd (delete_source id d) in
  (r = SourceNotFound <-> get_source id d = None)
  /\ get_source id d' = None
  /\ getLastKnownVersion (Some id) d' = None
  /\ getActiveSources d'
     = List.filter (fun s => negb (str_eqb (src_id s) id)) (getActiveSources d)
  /\ (forall sid, sid <> [] -> sid <> id ->
        get_source sid d' = get_source sid d
        /\ getLastKnownVersion (Some sid) d' = getLastKnownVersion (Some sid) d)
  /\ settings d' = settings d /\ audio_cache d' = audio_cache d.
Proof.
  intros Hid r d'. subst r d'. unfold delete_source. cbv zeta.
  cbn [changelog_sources set_history].
  set (kept := List.filter (fun s => negb (str_eqb (src_id s) id)) (changelog_sources d)).
  assert (Hres : forall (a b : SourceDeleteResponse) (x : Db) (c : bool),
             snd (if c then (a, x) else (b, x)) = x) by (intros; now destruct c).
  rewrite Hres.
  split; [|split; [|split; [|split; [|split; [|split; reflexivity]]]]].
  - destruct (Nat.eqb_spec (length (changelog_sources d) - length kept) 0) as [H0|H0];
      cbn [fst]; unfold get_source; rewrite <- filter_all_find; fold kept.
    + split; [intros _; now apply filter_length_all | reflexivity].
    + split; [discriminate|]. intros H. rewrite H in H0. lia.
  - unfold get_source. cbn [changelog_sources set_sources]. apply find_filter_self.
  - unfold getLastKnownVersion. cbn [changelog_history set_sources set_history].
    destruct id as [|c id]; [congruence|]. cbn [truthy].
    now rewrite filter_of_source_self.
  - unfold getActiveSources. cbn [changelog_sources set_sources]. apply filter_filter_active.
  - intros sid Hsid Hne. split.
    + unfold get_source. cbn [changelog_sources set_sources]. now apply find_filter_ne.
    + unfold getLastKnownVersion. cbn [changelog_history set_sources set_history].
      destruct sid as [|c sid]; [congruence|]. cbn [truthy].
      now rewrite filter_of_source_ne.
Qed.

(** The demo installation after a cycle of the demo source: deleting the
    source removes its history with it. *)
Lemma delete_source_forgets_witness :
  let d := db (snd (checkSourceForNewChangelog demo_env demo_source
                      (demo_world (js "false")))) in
  let d' := snd (delete_source (js "src_claude_code") d) in
  getLastKnownVersion (Some (js "src_claude_code")) d = Some (js "2.0.74")
  /\ fst (delete_source (js "src_claude_code") d) = SourceDeleted
  /\ getLastKnownVersion (Some (js "src_claude_code")) d' = None
  /\ map src_id (getActiveSources d') = [js "src_offline"].
Proof.
  intros d d'.
  destruct (delete_source_forgets (js "src_claude_code") d)
    as (_ & _ & Hlast & Hactive & _); [discriminate|].
  split; [vm_compute; reflexivity|]. split; [vm_compute; reflexivity|].
  split; [exact Hlast|]. fold d' in Hactive. rewrite Hactive.
  vm_compute. reflexivity.
Defined.

Section SourceKeys.

Variable URL_valid : list N -> bool.

Lemma existsb_false_notin {A} (key : A -> list N) (k : list N) (l : list A) :
  existsb (fun s => str_eqb (key s) k) l = false -> k ∉ map key l.
Proof.
  intros H Hin. apply list_elem_of_fmap in Hin as (s & -> & Hs).
  apply list_elem_of_In in Hs.
  assert (existsb (fun s0 => str_eqb (key s0) (key s)) l = true)
    by (apply existsb_exists; exists s; split; [assumption | apply str_eqb_refl]).
  congruence.
Qed.

Lemma patch_row_absent (id : list N) (body : SourcePatch) (l : list ChangelogSource) :
  id ∉ map src_id l -> map (patch_row id body) l = l.
Proof.
  induction l as [|s l IH]; [reflexivity|]. cbn [map]. intros Hnot.
  apply not_elem_of_cons in Hnot as [Hne Hnot].
  unfold patch_row at 1.
  destruct (str_eqb (src_id s) id) eqn:Hs; [apply str_eqb_eq in Hs; congruence|].
  now rewrite IH.
Qed.

Lemma patch_row_id (id : list N) (body : SourcePatch) (l : list ChangelogSource) :
  map src_id (map (patch_row id body) l) = map src_id l.
Proof.
  induction l as [|s l IH]; [reflexivity|]. cbn [map]. rewrite IH. f_equal.
  unfold patch_row. now destruct (str_eqb (src_id s) id).
Qed.

Lemma patch_row_urls (id : list N) (body : SourcePatch) (l : list ChangelogSource) :
  NoDup (map src_id l) -> NoDup (map src_url l) ->
  match patch_url body with Some url => url_taken id url l | None => false end = false ->
  NoDup (map src_url (map (patch_row id body) l))
  /\ forall u, u ∈ map src_url (map (patch_row id body) l) ->
       u ∈ map src_url l \/ patch_url body = Some u.
Proof.
  induction l as [|s l IH]; intros Hids Hurls Hfree.
  - split; [constructor | intros u Hu; now left].
  - cbn [map] in *. apply NoDup_cons in Hids as [Hid Hids], Hurls as [Hurl Hurls].
    assert (Hfree' : match patch_url body with
                     | Some url => url_taken id url l | None => false end = false).
    { destruct (patch_url body) as [u|]; [|reflexivity].
      unfold url_taken in *. cbn [existsb] in Hfree.
      now apply orb_false_iff in Hfree as [_ Hfree]. }
    destruct (IH Hids Hurls Hfree') as [IHnodup IHin]. clear IH.
    unfold patch_row at 1 3.
    destruct (str_eqb (src_id s) id) eqn:Hs; cbn [src_url].
    + apply str_eqb_eq in Hs. rewrite <- Hs in *.
      rewrite !patch_row_absent by assumption.
      split.
      * apply NoDup_cons. split; [|assumption].
        destruct (patch_url body) as [u|]; cbn [default from_option Datatypes.id]; [|assumption].
        intros Hin. apply list_elem_of_fmap in Hin as (s' & -> & Hs').
        unfold url_taken in Hfree'.
        assert (Hex : existsb (fun s0 => negb (str_eqb (src_id s0) (src_id s))
                                         && str_eqb (src_url s0) (src_url s')) l = true).
        { apply existsb_exists. exists s'. split; [now apply list_elem_of_In|].
          rewrite str_eqb_refl, andb_true_r. apply negb_true_iff.
          apply not_true_is_false. intros Heq. apply str_eqb_eq in Heq.
          apply Hid. rewrite <- Heq. apply list_elem_of_fmap. eauto. }
        congruence.
      * intros u Hu. apply elem_of_cons in Hu as [->|Hu].
        -- destruct (patch_url body) as [u'|]; cbn [default from_option Datatypes.id];
             [now right | left; apply elem_of_cons; now left].
        -- left. apply elem_of_cons. now right.
    + split.
      * apply NoDup_cons. split; [|assumption].
        intros Hin. destruct (IHin _ Hin) as [Hold|Hnew]; [contradiction|].
        rewrite Hnew in Hfree. unfold url_taken in Hfree. cbn [existsb] in Hfree.
        apply orb_false_iff in Hfree as [Hfree _].
        now rewrite Hs, str_eqb_refl in Hfree.
      * intros u Hu. apply elem_of_cons in Hu as [->|Hu].
        -- left. apply elem_of_cons. now left.
        -- destruct (IHin _ Hu) as [Hold|Hnew]; [left; apply elem_of_cons|]; auto.
Qed.

Lemma NoDup_filter_map {A} (key : A -> list N) (f : A -> bool) (l : list A) :
  NoDup (map key l) -> NoDup (map key (List.filter f l)).
Proof.
  induction l as [|x l IH]; [now intros|]. cbn [map List.filter]. intros Hn.
  apply NoDup_cons in Hn as [Hx Hn].
  destruct (f x); [|now apply IH]. cbn [map]. apply NoDup_cons. split; [|now apply IH].
  intros Hin. apply Hx. apply list_elem_of_fmap in Hin as (y & -> & Hy).
  apply list_elem_of_In, filter_In in Hy as [Hy _]. apply list_elem_of_fmap.
  exists y. split; [reflexivity | now apply list_elem_of_In].
Qed.

Lemma update_last_version_keys (v sid : list N) (now : N) (l : list ChangelogSource) :
  map src_id (map (update_last_version v sid now) l) = map src_id l
  /\ map src_url (map (update_last_version v sid now) l) = map src_url l.
Proof.
  induction l as [|s l [IH1 IH2]]; [now split|]. cbn [map]. rewrite IH1, IH2.
  unfold update_last_version. now destruct (str_eqb (src_id s) sid).
Qed.

End SourceKeys.

(** X17: when no two sources share an id or a URL, the same holds after a
    request to create, to update or to delete a source, whatever its answer,
    and after the pipeline records a version or marks it as notified. *)
Theorem sources_stay_keyed (URL_valid : list N -> bool) (d : Db) :
  sources_keyed d ->
  (forall Date_now random body,
     sources_keyed (snd (post_source URL_valid Date_now random body d)))
  /\ (forall id body, sources_keyed (snd (patch_source URL_valid id body d)))
  /\ (forall id, sources_keyed (snd (delete_source id d)))
  /\ (forall v sid now, sources_keyed (saveVersion v sid now d))
  /\ (forall v sid, sources_keyed (markVersionNotified v sid d)).
Proof.
  intros [Hids Hurls]. split; [|split; [|split; [|split]]].
  - intros Date_now random body. unfold post_source.
    destruct (new_name body) as [name|], (new_url body) as [url|]; try (now split).
    destruct (negb (truthy name) || negb (truthy url)); [now split|].
    destruct (negb (URL_valid url)); [now split|]. cbv zeta.
    destruct (existsb (fun s => str_eqb (src_url s) url) _) eqn:Hu; [now split|].
    destruct (existsb (fun s => str_eqb (src_id s) _) _) eqn:Hi; [now split|].
    unfold sources_keyed. cbn [snd changelog_sources set_sources].
    rewrite !map_app. cbn [map src_id src_url].
    split; apply NoDup_app; (split; [assumption|]);
      (split; [|apply NoDup_singleton]); intros x Hx Hin;
      apply list_elem_of_singleton in Hin; subst x;
      revert Hx; now apply existsb_false_notin.
  - intros id body. unfold patch_source.
    destruct (match patch_url body with Some url => negb (URL_valid url) | None => false end);
      [now split|].
    assert (Hgo : sources_keyed
              (snd (if negb (existsb (fun s => str_eqb (src_id s) id) (changelog_sources d))
                    then (PatchNotFound, d)
                    else if match patch_url body with
                            | Some url => url_taken id url (changelog_sources d)
                            | None => false
                            end
                    then (PatchUrlExists, d)
                    else (PatchOk,
                          set_sources (map (patch_row id body) (changelog_sources d)) d)))).
    { destruct (negb (existsb _ _)); [now split|].
      destruct (match patch_url body with Some url => _ | None => false end) eqn:Hfree;
        [now split|].
      unfold sources_keyed. cbn [snd changelog_sources set_sources].
      rewrite patch_row_id. split; [assumption|].
      now apply patch_row_urls. }
    destruct (patch_name body), (patch_url body), (patch_is_active body);
      solve [exact Hgo | now split].
  - intros id. unfold delete_source. cbv zeta.
    assert (Hres : forall (a b : SourceDeleteResponse) (x : Db) (c : bool),
               snd (if c then (a, x) else (b, x)) = x) by (intros; now destruct c).
    rewrite Hres. unfold sources_keyed. cbn [changelog_sources set_sources set_history].
    split; now apply NoDup_filter_map.
  - intros v sid now. unfold sources_keyed, saveVersion.
    cbn [changelog_sources set_sources set_history].
    destruct (update_last_version_keys v sid now (changelog_sources d)) as [-> ->].
    now split.
  - intros v sid. now split.
Qed.

(** A source added to the demo installation. *)
Lemma sources_stay_keyed_witness :
  let body := {| new_name := Some (js "Docs");
                 new_url := Some (js "https://example.com/docs.md") |} in
  let r := post_source (fun _ => true) 1700000000000 (js "k3j2h1g0f") body
             (db (demo_world (js "true"))) in
  fst r = SourceCreated (js "src_1700000000000_k3j2h1g0f") (js "Docs")
            (js "https://example.com/docs.md")
  /\ sources_keyed (snd r).
Proof.
  intros body r. split; [vm_compute; reflexivity|].
  destruct (sources_stay_keyed (fun _ => true) (db (demo_world (js "true"))))
    as (Hpost & _).
  - split; cbn [changelog_sources db demo_world map];
      (apply NoDup_cons; split; [|apply NoDup_singleton]);
      intros Hin; apply list_elem_of_singleton in Hin; vm_compute in Hin; discriminate Hin.
  - apply Hpost.
Defined.

Section Caches.

Lemma filter_negb_nil {A} (f : A -> bool) (l : list A) :
  List.filter f (List.filter (fun x => negb (f x)) l) = [].
Proof.
  induction l as [|x l IH]; [reflexivity|]. cbn [List.filter].
  destruct (f x) eqn:Hx; cbn [negb List.filter]; [exact IH | now rewrite Hx].
Qed.

Lemma filter_other {A} (f g : A -> bool) (l : list A) :
  (forall x, g x = true -> f x = false) ->
  List.filter g (List.filter (fun x => negb (f x)) l) = List.filter g l.
Proof.
  intros Hfg. induction l as [|x l IH]; [reflexivity|]. cbn [List.filter].
  destruct (f x) eqn:Hx; cbn [negb List.filter].
  - destruct (g x) eqn:Hg; [|exact IH]. apply Hfg in Hg. congruence.
  - destruct (g x); [now rewrite IH | exact IH].
Qed.

Lemma filter_absent {A} (f : A -> bool) (l : list A) :
  existsb f l = false -> List.filter (fun x => negb (f x)) l = l.
Proof.
  induction l as [|x l IH]; [reflexivity|]. cbn [existsb List.filter].
  intros H. apply orb_false_iff in H as [Hx Hl]. rewrite Hx. cbn [negb].
  now rewrite IH.
Qed.

Lemma number_to_string_inj (a b : Z) : number_to_string a = number_to_string b -> a = b.
Proof.
  intros H. pose proof (parseInt_to_string a) as Ha.
  rewrite H, parseInt_to_string in Ha. congruence.
Qed.

Lemma audio_key_inj (textHash voice : list N) (t1 t2 : Z) :
  audio_key textHash voice t1 = audio_key textHash voice t2 -> t1 = t2.
Proof.
  unfold audio_key. intros H. repeat apply app_inv_head in H.
  now apply number_to_string_inj.
Qed.

End Caches.

(** X18: after an analysis is saved for a version, the cache holds exactly
    one row for that version, the one just saved, and the lookup of the
    version answers with it, whatever the cache held before; the rows and
    the lookups of every other version are as before; and a request without
    an analysis saves nothing. *)
Theorem analysis_cache_last_write_wins (J : Type) (JSON_stringify : J -> list N)
    (JSON_parse : list N -> option J) (version : list N) (a : J) (now : N)
    (rows : list AnalysisRow) :
  let rows' := snd (post_analysis J JSON_stringify version (Some a) now rows) in
  analysis_rows version rows'
  = [{| cached_version := version; cached_json := JSON_stringify a; cached_at := now |}]
  /\ get_analysis J JSON_parse version rows'
     = match JSON_parse (JSON_stringify a) with
       | Some analysis => AnalysisCached analysis now
       | None => AnalysisError
       end
  /\ (forall other, other <> version ->
        analysis_rows other rows' = analysis_rows other rows
        /\ get_analysis J JSON_parse other rows' = get_analysis J JSON_parse other rows)
  /\ (forall other, snd (post_analysis J JSON_stringify other None now rows) = rows).
Proof.
  intros rows'. subst rows'. unfold post_analysis. cbn [snd].
  unfold insert_or_replace_analysis, analysis_rows, get_analysis, analysis_rows.
  cbn [cached_version].
  assert (Hself : List.filter (fun r => str_eqb (cached_version r) version)
            (List.filter (fun r => negb (str_eqb (cached_version r) version)) rows
               ++ [{| cached_version := version; cached_json := JSON_stringify a;
                      cached_at := now |}])
          = [{| cached_version := version; cached_json := JSON_stringify a;
                cached_at := now |}]).
  { rewrite List.filter_app, filter_negb_nil. cbn [List.filter cached_version app].
    now rewrite str_eqb_refl. }
  split; [exact Hself|]. split; [now rewrite Hself|]. split; [|reflexivity].
  intros other Hne.
  assert (Hother : List.filter (fun r => str_eqb (cached_version r) other)
            (List.filter (fun r => negb (str_eqb (cached_version r) version)) rows
               ++ [{| cached_version := version; cached_json := JSON_stringify a;
                      cached_at := now |}])
          = List.filter (fun r => str_eqb (cached_version r) other) rows).
  { rewrite List.filter_app. cbn [List.filter cached_version].
    replace (str_eqb version other) with false
      by (symmetry; apply bool_decide_eq_false; congruence).
    rewrite app_nil_r. apply filter_other.
    intros r Hr. apply str_eqb_eq in Hr. apply bool_decide_eq_false. congruence. }
  split; [exact Hother | now rewrite Hother].
Qed.

(** X19: a save to the audio cache, under an id no row has, answers with the
    id built from the hash, the voice and [Date.now()], and ids built at
    different times differ. The lookup of the pair then answers with what it
    answered before when the pair had a row, and with the saved payload only
    when it had none; deleting the row of the returned id restores the
    cache. *)
Theorem audio_cache_first_write_wins (Buffer_from_base64 : list N -> list Z)
    (textHash voice audioData : list N) (Date_now : Z) (now : N) (d : Db) :
  truthy textHash = true -> truthy voice = true -> truthy audioData = true ->
  audio_id_free (audio_key textHash voice Date_now) d = true ->
  let body := {| post_textHash := Some textHash; post_voice := Some voice;
                 post_audioData := Some audioData |} in
  let r := fst (post_audio Buffer_from_base64 Date_now now body d) in
  let d' := snd (post_audio Buffer_from_base64 Date_now now body d) in
  r = AudioSaved (audio_key textHash voice Date_now)
  /\ (forall t, t <> Date_now ->
        audio_key textHash voice t <> audio_key textHash voice Date_now)
  /\ get_audio textHash voice d'
     = Some (default (Buffer_from_base64 audioData) (get_audio textHash voice d))
  /\ audio_cache (delete_audio (audio_key textHash voice Date_now) d') = audio_cache d.
Proof.
  intros Hh Hv Ha Hfree body r d'.
  unfold audio_id_free in Hfree. apply negb_true_iff in Hfree.
  pose proof (post_audio_appends Buffer_from_base64 Date_now now textHash voice
                audioData d Hh Hv Ha Hfree) as Hrows.
  fold body d' in Hrows. fold (audio_key textHash voice Date_now) in Hrows.
  split; [|split; [|split]].
  - subst r body. unfold post_audio. cbn [post_textHash post_voice post_audioData].
    now rewrite Hh, Hv, Ha.
  - intros t Hne Heq. apply Hne. now apply audio_key_inj in Heq.
  - unfold get_audio, audio_rows. rewrite Hrows, List.filter_app.
    cbn [List.filter audio_text_hash audio_voice]. rewrite !str_eqb_refl. cbn [andb].
    destruct (List.filter _ (audio_cache d)); reflexivity.
  - unfold delete_audio. cbn [audio_cache set_audio_cache]. rewrite Hrows.
    rewrite List.filter_app. cbn [List.filter audio_id]. rewrite str_eqb_refl.
    cbn [negb]. rewrite app_nil_r. now apply filter_absent.
Qed.

(** The two saves of C9: the lookup still answers with the first payload,
    and deleting the second row gives the cache of before the second
    save. *)
Lemma audio_cache_first_write_wins_witness :
  let first := {| post_textHash := Some (js "h"); post_voice := Some (js "Charon");
                  post_audioData := Some (js "AAAA") |} in
  let second := {| post_textHash := Some (js "h"); post_voice := Some (js "Charon");
                   post_audioData := Some (js "BBBB") |} in
  let d1 := snd (post_audio (fun _ => [0]) 1000 1 first empty_db) in
  let d2 := snd (post_audio (fun _ => [1]) 2000 2 second d1) in
  get_audio (js "h") (js "Charon") d2 = Some [0]
  /\ audio_cache (delete_audio (js "h_Charon_2000") d2) = audio_cache d1.
Proof.
  intros first second d1 d2.
  destruct (audio_cache_first_write_wins (fun _ => [1]) (js "h") (js "Charon")
              (js "BBBB") 2000 2 d1 eq_refl eq_refl eq_refl eq_refl)
    as (_ & _ & Hget & Hdel).
  split; [exact Hget | exact Hdel].
Defined.

Section Html.

Lemma occurs_in_at (k : nat) (needle s : list N) :
  take (length needle) (drop k s) = needle -> occurs_in needle s.
Proof.
  intros H. exists (take k s), (drop (length needle) (drop k s)).
  rewrite <- H at 1. now rewrite !take_drop.
Qed.

Lemma occurs_in_refl (s : list N) : occurs_in s s.
Proof. exists [], []. now rewrite app_nil_r. Qed.

Lemma occurs_in_app_l (needle a s : list N) : occurs_in needle s -> occurs_in needle (a ++ s).
Proof.
  intros (b & c & ->). exists (a ++ b), c. now rewrite <- app_assoc.
Qed.

Lemma occurs_in_app_r (needle s a : list N) : occurs_in needle s -> occurs_in needle (s ++ a).
Proof.
  intros (b & c & ->). exists b, (c ++ a). now rewrite <- !app_assoc.
Qed.

Lemma occurs_in_join {A} (f : A -> list N) (x : A) (xs : list A) :
  In x xs -> occurs_in (f x) (join [] (map f xs)).
Proof.
  induction xs as [|y xs IH]; [easy|]. intros [->|Hin].
  - destruct xs as [|z xs]; cbn [map join]; [apply occurs_in_refl|].
    apply occurs_in_app_r, occurs_in_refl.
  - destruct xs as [|z xs]; [easy|].
    change (join [] (map f (y :: z :: xs)))
      with (f y ++ [] ++ join [] (map f (z :: xs))).
    apply occurs_in_app_l, occurs_in_app_l, IH, Hin.
Qed.

Lemma occurs_in_section {A} (needle class title html : list N) (items : list A) (x : A) :
  In x items -> occurs_in needle html ->
  occurs_in needle (when_nonempty items (html_section class title html)).
Proof.
  intros Hin Hocc. destruct items as [|y items]; [easy|]. cbn [when_nonempty].
  unfold html_section.
  do 5 apply occurs_in_app_l. now apply occurs_in_app_r.
Qed.

End Html.

(** X20: the page of the mail holds the [tldr] and, inside a list item,
    every critical breaking change, major feature, important fix, action
    item and removal of the analysis, each as given (nothing is escaped); it
    always says that an audio summary is attached; and it does not depend on
    the new slash commands, the terminal improvements and the API changes of
    the analysis, which it leaves out. *)
Theorem generateEmailHtml_shows (data : ChangelogEmailRequest) :
  let c := categories data in
  let html := generateEmailHtml data in
  occurs_in (tldr data) html
  /\ (forall item,
        In item (critical_breaking_changes c) \/ In item (major_features c)
        \/ In item (important_fixes c) \/ In item (action_items data) ->
        occurs_in (js "<li>" ++ item ++ js "</li>") html)
  /\ (forall r, In r (removals c) -> occurs_in (removal_item r) html)
  /\ occurs_in (js "Audio summary attached!") html
  /\ (forall new_slash terminal api,
        generateEmailHtml (with_unrendered new_slash terminal api data) = html).
Proof.
  intros c html. subst c html. unfold generateEmailHtml. cbv zeta.
  split; [|split; [|split; [|split]]].
  - apply occurs_in_app_l, occurs_in_app_l, occurs_in_app_l, occurs_in_app_r, occurs_in_refl.
  - intros item Hin.
    pose proof (occurs_in_join (fun item => js "<li>" ++ item ++ js "</li>") item) as Hj.
    fold list_items in Hj.
    do 5 apply occurs_in_app_l.
    destruct Hin as [Hin|[Hin|[Hin|Hin]]].
    + apply occurs_in_app_r. eapply occurs_in_section; [exact Hin | apply Hj, Hin].
    + do 2 apply occurs_in_app_l. apply occurs_in_app_r.
      eapply occurs_in_section; [exact Hin | apply Hj, Hin].
    + do 3 apply occurs_in_app_l. apply occurs_in_app_r.
      eapply occurs_in_section; [exact Hin | apply Hj, Hin].
    + do 4 apply occurs_in_app_l. apply occurs_in_app_r.
      eapply occurs_in_section; [exact Hin | apply Hj, Hin].
  - intros r Hin. do 6 apply occurs_in_app_l. apply occurs_in_app_r.
    eapply occurs_in_section; [exact Hin|].
    unfold removal_items. apply (occurs_in_join removal_item r _ Hin).
  - do 12 apply occurs_in_app_l. apply (occurs_in_at 9). vm_compute. reflexivity.
  - reflexivity.
Qed.

(** * What a batch leaves alone *)

Section Frame.

Variable env : Env.

Lemma pipeline_frame_refl (d : Db) : pipeline_frame d d.
Proof. repeat split. exists []. now rewrite app_nil_r. Qed.

Lemma pipeline_frame_trans (d1 d2 d3 : Db) :
  pipeline_frame d1 d2 -> pipeline_frame d2 d3 -> pipeline_frame d1 d3.
Proof.
  intros (Hs1 & Ha1 & Hi1 & added1 & Hh1) (Hs2 & Ha2 & Hi2 & added2 & Hh2).
  repeat split; try congruence.
  exists (added1 ++ added2). rewrite Hh2, Hh1. now rewrite <- app_assoc.
Qed.

Lemma saveVersion_frame (v sid : list N) (now : N) (d : Db) :
  pipeline_frame d (saveVersion v sid now d).
Proof.
  unfold saveVersion. repeat split; cbn [settings audio_cache changelog_sources
    changelog_history set_sources set_history].
  - induction (changelog_sources d) as [|s l IH]; [reflexivity|]. cbn [map].
    rewrite IH. f_equal. unfold update_last_version.
    now destruct (str_eqb (src_id s) sid).
  - unfold insert_or_ignore_history. destruct (existsb _ _).
    + exists []. now rewrite app_nil_r.
    + eexists. now rewrite map_app.
Qed.

Lemma markVersionNotified_frame (v sid : list N) (d : Db) :
  pipeline_frame d (markVersionNotified v sid d).
Proof.
  unfold markVersionNotified. repeat split; cbn [changelog_history set_history].
  exists []. rewrite app_nil_r.
  induction (changelog_history d) as [|r h IH]; [reflexivity|]. cbn [map].
  rewrite IH. f_equal. unfold mark_row.
  now destruct (str_eqb (hist_version r) v && of_source sid r).
Qed.

Lemma cycle_frame (source : ChangelogSource) (w : World) :
  ensures (checkSourceForNewChangelog env source) w (fun _ w' =>
    pipeline_frame (db w) (db w')).
Proof.
  unfold_pipeline. repeat run_step.
  all: world_simpl.
  all: first [ apply pipeline_frame_refl
             | apply saveVersion_frame
             | eapply pipeline_frame_trans;
               [apply saveVersion_frame | apply markVersionNotified_frame] ].
Qed.

Lemma cycles_frame (sources : list ChangelogSource) (w : World) :
  pipeline_frame (db w) (db (cycles env sources w)).
Proof.
  revert w. induction sources as [|source rest IH]; intros w.
  - apply pipeline_frame_refl.
  - cbn [cycles fold_left]. eapply pipeline_frame_trans; [apply cycle_frame|].
    apply IH.
Qed.

End Frame.

(** X21: a batch of checks leaves the settings and the audio cache as they
    were; it adds no source, removes none, and changes no id, name, URL or
    active flag of a source, so that the same sources are active after it;
    and it removes no row of the history and changes no version, detection
    time or source of a row: the history after the batch is the one before
    it, up to the flags, followed by the rows the batch added. *)
Theorem batch_keeps_frame (env : Env) (w : World) :
  let d := db w in
  let d' := db (snd (checkForNewChangelog env w)) in
  settings d' = settings d
  /\ audio_cache d' = audio_cache d
  /\ map source_identity (changelog_sources d')
     = map source_identity (changelog_sources d)
  /\ map src_id (getActiveSources d') = map src_id (getActiveSources d)
  /\ exists added,
       map row_identity (changelog_history d')
       = map row_identity (changelog_history d) ++ added.
Proof.
  intros d d'. subst d d'. rewrite checkForNewChangelog_run. cbn [snd].
  assert (Hframe : pipeline_frame (db w) (db (batch_end env w))).
  { unfold batch_end. cbv zeta.
    destruct (getActiveSources (db w)) as [|source rest]; [apply pipeline_frame_refl|].
    apply (cycles_frame env (source :: rest)
             (add_log (LogCount (length (source :: rest))) (add_log LogStarting w))). }
  destruct Hframe as (Hs & Ha & Hi & Hh).
  split; [assumption|]. split; [assumption|]. split; [assumption|].
  split; [|assumption].
  unfold getActiveSources. revert Hi.
  generalize (changelog_sources (db (batch_end env w))) (changelog_sources (db w)).
  intros l'. induction l' as [|s' l' IH]; intros [|s l] Hi; try discriminate; [reflexivity|].
  cbn [map] in Hi. unfold source_identity at 1 3 in Hi.
  injection Hi as Hid Hname Hurl Hact Hl. cbn [List.filter]. rewrite Hact.
  destruct (src_is_active s); cbn [map]; [rewrite Hid; f_equal|]; now apply IH.
Qed.
